(** * serverless-import-apigateway: a shallow embedding of [src/lib/index.js]

    The plugin reconciles a serverless deployment model against an existing
    API Gateway and the account's Lambda layers.  The JavaScript of
    [ImportApiGatewayPlugin] is embedded as Rocq functions over an explicit
    world (deployment model, plugin configuration, log), in a small monad
    whose completions are the ones of the language: normal, [return] and
    [throw].

    Modelling conventions.
    - Strings are [string] over 8-bit code units.
    - A JavaScript object used as a map is an insertion-ordered association
      list of its own properties ([obj]).  The three maps of the plugin
      ([pathIds], [resourcesToImport], [existingLayers]) are plain objects,
      so a read [o[k]] that finds no own property goes on to
      [Object.prototype]: [obj_index] gives the inherited member then, and
      [obj_assign] is the write [o[k] = v], which the accessor [__proto__]
      swallows.  Keys are assumed not to be canonical array indices (gateway
      paths start with a slash), so [Object.keys] / [Object.entries]
      enumerate in insertion order.
    - The provider client ([this.provider.request]) is a record of its three
      responses; a rejected request is an [error].
    - The constructor and its [get] helper work on the untyped service file
      ([Js.js]); the methods work on the typed model a well-formed service
      file gives.  Which members a string, a number, an array or an object
      of the service file inherits is the host's business: [Js.get] takes it
      as the parameter [inherits] and says [Leaves] when a lookup ends on
      such a member.
    - [src/unnamed/part_000], the plugin before layer resolution was added,
      is embedded in [Part000]. *)

From Stdlib Require Import String Ascii List Bool Arith ZArith Lia.
Import ListNotations.
Open Scope string_scope.
Open Scope list_scope.

Set Implicit Arguments.

(* ------------------------------------------------------------------ *)
(** ** JavaScript objects used as maps *)

Module JsObject.

Definition obj (V : Type) : Type := list (string * V).

(** The own property [k] of [o], if there is one. *)
Fixpoint obj_get {V : Type} (o : obj V) (k : string) : option V :=
  match o with
  | [] => None
  | (k', v) :: o' => if String.eqb k k' then Some v else obj_get o' k
  end.

(** The own property [k] set to [v]: an existing key keeps its position, a
    new one goes last. *)
Fixpoint obj_set {V : Type} (o : obj V) (k : string) (v : V) : obj V :=
  match o with
  | [] => [(k, v)]
  | (k', v') :: o' =>
      if String.eqb k k' then (k', v) :: o' else (k', v') :: obj_set o' k v
  end.

(** [Object.keys(o)] and [Object.entries(o)]. *)
Definition obj_keys {V : Type} (o : obj V) : list string := map fst o.
Definition obj_entries {V : Type} (o : obj V) : list (string * V) := o.

(** The string-keyed members of [Object.prototype], which every plain
    object inherits (ECMA-262, 20.1.3 and B.2.2): eleven methods and the
    accessor [__proto__]. *)
Definition object_prototype : list string :=
  [ "constructor"; "__defineGetter__"; "__defineSetter__"; "hasOwnProperty";
    "__lookupGetter__"; "__lookupSetter__"; "isPrototypeOf";
    "propertyIsEnumerable"; "toString"; "valueOf"; "__proto__";
    "toLocaleString" ].

Definition inherited (k : string) : bool :=
  existsb (String.eqb k) object_prototype.

(** [o[k] = v] on a plain object, for the values the plugin assigns (a
    string, or what a read of such an object gave).  An own property is
    updated; a new key becomes an own property, except [__proto__]: that
    assignment runs the setter of [Object.prototype], which ignores a
    primitive and has nothing to change when handed the prototype the object
    already has, so no own property appears. *)
Definition obj_assign {V : Type} (o : obj V) (k : string) (v : V) : obj V :=
  match obj_get o k with
  | Some _ => obj_set o k v
  | None => if String.eqb k "__proto__" then o else obj_set o k v
  end.

End JsObject.
Export JsObject.

(* ------------------------------------------------------------------ *)
(** ** Values, truthiness, errors *)

(** A layer reference as the loops see it: a string, the [undefined] that
    a failed lookup leaves behind, or the member of [Object.prototype] that
    a lookup under the name of such a member finds. *)
Inductive value : Type :=
| VString (s : string)
| VUndefined
| VMember (name : string).

(** [!x] on a string-or-undefined: [undefined] and the empty string are the
    falsy ones. *)
Definition truthy (s : string) : bool := negb (String.eqb s "").

Definition falsy (x : option string) : bool :=
  match x with
  | None => true
  | Some s => negb (truthy s)
  end.

(** What a read [o[k]] of a map of strings finds, when it finds something:
    the string stored under [k], or the member of [Object.prototype] named
    [k] (a function; for [__proto__], the prototype object itself). *)
Inductive found : Type :=
| Id (s : string)
| Member (name : string).

(** [o[k]], [None] standing for [undefined]. *)
Definition obj_index (o : obj string) (k : string) : option found :=
  match obj_get o k with
  | Some s => Some (Id s)
  | None => if inherited k then Some (Member k) else None
  end.

(** Functions and objects are truthy. *)
Definition truthy_found (x : found) : bool :=
  match x with
  | Id s => truthy s
  | Member _ => true
  end.

(** A member of [Object.prototype] inside a template literal or an array
    join: the source text of a built-in function, [[object Object]] for the
    prototype object. *)
Definition member_text (name : string) : string :=
  if String.eqb name "__proto__" then "[object Object]"
  else "function "
         ++ (if String.eqb name "constructor" then "Object" else name)
         ++ "() { [native code] }".

Inductive error : Type :=
| TypeError (msg : string)
| RequestError (msg : string).

Definition message (e : error) : string :=
  match e with
  | TypeError m => m
  | RequestError m => m
  end.

(* ------------------------------------------------------------------ *)
(** ** [isArn]: the regular expression of line 12

    [/arn:aws:lambda:.+?:.+?:layer:.+?:[\d+]/g], used through
    [string.match], i.e. searched anywhere in the string.  The last token is a
    character class: one digit or one plus sign. *)

Module Regex.

Inductive token : Type :=
| TLit (s : string)          (* a run of literal characters *)
| TDotPlusLazy               (* .+?  *)
| TClass (p : ascii -> bool) (* [...] *).

(** [.] matches every code unit but the line terminators. *)
Definition is_dot (c : ascii) : bool :=
  negb (Ascii.eqb c "010"%char || Ascii.eqb c "013"%char).

Definition is_digit (c : ascii) : bool :=
  let n := nat_of_ascii c in Nat.leb 48 n && Nat.leb n 57.

(** The class [[\d+]]. *)
Definition digit_or_plus (c : ascii) : bool :=
  is_digit c || Ascii.eqb c "+"%char.

Fixpoint strip_prefix (l s : string) : option string :=
  match l with
  | EmptyString => Some s
  | String a l' =>
      match s with
      | String b s' => if Ascii.eqb a b then strip_prefix l' s' else None
      | EmptyString => None
      end
  end.

(** [.+?] followed by the continuation [k]: take one character, then try the
    continuation before taking another one (backtracking, shortest first). *)
Fixpoint lazy_plus (k : string -> bool) (s : string) : bool :=
  match s with
  | EmptyString => false
  | String c s' => is_dot c && (k s' || lazy_plus k s')
  end.

(** Does a match of [toks] start at the head of [s]? *)
Fixpoint match_here (toks : list token) (s : string) : bool :=
  match toks with
  | [] => true
  | TLit l :: toks' =>
      match strip_prefix l s with
      | Some s' => match_here toks' s'
      | None => false
      end
  | TDotPlusLazy :: toks' => lazy_plus (match_here toks') s
  | TClass p :: toks' =>
      match s with
      | String c s' => p c && match_here toks' s'
      | EmptyString => false
      end
  end.

(** Is there a match at some position of [s]? ([match] returns non-null.) *)
Fixpoint search (toks : list token) (s : string) : bool :=
  match_here toks s ||
  match s with
  | EmptyString => false
  | String _ s' => search toks s'
  end.

End Regex.

Definition arn_regex : list Regex.token :=
  [ Regex.TLit "arn:aws:lambda:"; Regex.TDotPlusLazy;
    Regex.TLit ":"; Regex.TDotPlusLazy;
    Regex.TLit ":layer:"; Regex.TDotPlusLazy;
    Regex.TLit ":"; Regex.TClass Regex.digit_or_plus ].

Definition isArn (s : string) : bool := Regex.search arn_regex s.

(* ------------------------------------------------------------------ *)
(** ** The deployment model, the configuration and the log *)

Record HttpEvent : Type := { http_path : option string }.

Record Event : Type := { http : option HttpEvent }.

Record FunctionDescriptor : Type :=
  { events : option (list Event);
    layers : option (list value) }.

(** What [provider.apiGateway] may hold: the three properties the plugin
    writes (a string or an inherited member; the map of the imported
    resources), and whatever else the service file put there (kept
    opaque). *)
Inductive ag_value : Type :=
| AString (s : string)
| AMap (m : obj found)
| AOpaque (v : string)
| AMember (name : string).

Definition of_found (x : found) : ag_value :=
  match x with
  | Id s => AString s
  | Member name => AMember name
  end.

Record Service : Type :=
  { provider_layers : option (list value);
    provider_apiGateway : obj ag_value;
    functions : option (obj FunctionDescriptor) }.

(** [custom.importApiGateway] as the service file gives it. *)
Record RawConfig : Type :=
  { raw_name : option string;
    raw_path : option string;
    raw_resources : option (list string);
    raw_resolveLayerArns : option bool }.

(** [this.config] once the constructor has filled in the defaults. *)
Record Config : Type :=
  { config_name : string;
    config_path : string;
    config_resources : option (list string);
    config_resolveLayerArns : bool }.

Inductive log_line : Type :=
| CliLog (msg : string)                (* this.serverless.cli.log(msg) *)
| CliLogImported (ag : obj ag_value)   (* the `Imported API Gateway (...)` line;
                                          JSON.stringify is not modelled *)
| ConsoleError (msg : string)          (* console.error(chalk.red(msg)) *).

Record World : Type :=
  { service : Service;
    config : Config;
    log : list log_line }.

Definition set_service (f : Service -> Service) (w : World) : World :=
  {| service := f (service w); config := config w; log := log w |}.

Definition set_config (f : Config -> Config) (w : World) : World :=
  {| service := service w; config := f (config w); log := log w |}.

Definition add_log (l : log_line) (w : World) : World :=
  {| service := service w; config := config w; log := log w ++ [l] |}.

Definition with_provider_layers (ls : option (list value)) (s : Service) : Service :=
  {| provider_layers := ls;
     provider_apiGateway := provider_apiGateway s;
     functions := functions s |}.

Definition with_apiGateway (ag : obj ag_value) (s : Service) : Service :=
  {| provider_layers := provider_layers s;
     provider_apiGateway := ag;
     functions := functions s |}.

Definition with_functions (fs : option (obj FunctionDescriptor)) (s : Service) : Service :=
  {| provider_layers := provider_layers s;
     provider_apiGateway := provider_apiGateway s;
     functions := fs |}.

Definition with_layers (ls : option (list value)) (f : FunctionDescriptor) : FunctionDescriptor :=
  {| events := events f; layers := ls |}.

Definition with_resources (rs : option (list string)) (c : Config) : Config :=
  {| config_name := config_name c; config_path := config_path c;
     config_resources := rs;
     config_resolveLayerArns := config_resolveLayerArns c |}.

Definition with_resolveLayerArns (b : bool) (c : Config) : Config :=
  {| config_name := config_name c; config_path := config_path c;
     config_resources := config_resources c;
     config_resolveLayerArns := b |}.

(** The [i]-th function object of the model, mutated in place. *)
Fixpoint update_at {A : Type} (i : nat) (f : A -> A) (l : list A) : list A :=
  match l, i with
  | [], _ => []
  | x :: l', O => f x :: l'
  | x :: l', S i' => x :: update_at i' f l'
  end.

(* ------------------------------------------------------------------ *)
(** ** Completions and the monad of the plugin's methods *)

Inductive completion (R A : Type) : Type :=
| Normal (a : A)      (* the statement ran to its end *)
| Return (r : R)      (* a [return] of the enclosing function *)
| Throw (e : error).  (* an exception on its way up *)

Arguments Normal {R A} a.
Arguments Return {R A} r.
Arguments Throw {R A} e.

Definition M (R A : Type) : Type := World -> completion R A * World.

Definition ret {R A : Type} (a : A) : M R A := fun w => (Normal a, w).

Definition bind {R A B : Type} (m : M R A) (k : A -> M R B) : M R B :=
  fun w =>
    match m w with
    | (Normal a, w') => k a w'
    | (Return r, w') => (Return r, w')
    | (Throw e, w') => (Throw e, w')
    end.

Declare Scope js_scope.
Delimit Scope js_scope with js.
Notation "x <- c1 ;; c2" := (bind c1 (fun x => c2))
  (at level 61, c1 at next level, right associativity) : js_scope.
Notation "c1 ;; c2" := (bind c1 (fun _ => c2))
  (at level 61, right associativity) : js_scope.
Open Scope js_scope.

Definition throw {R A : Type} (e : error) : M R A := fun w => (Throw e, w).

Definition return_ {R A : Type} (r : R) : M R A := fun w => (Return r, w).

Definition gets {R A : Type} (f : World -> A) : M R A := fun w => (Normal (f w), w).

Definition modify {R : Type} (f : World -> World) : M R unit := fun w => (Normal tt, f w).

Definition cli_log {R : Type} (msg : string) : M R unit := modify (add_log (CliLog msg)).

(** [try { body } catch (e) { handler e }] *)
Definition try_catch {R A : Type} (body : M R A) (handler : error -> M R A) : M R A :=
  fun w =>
    match body w with
    | (Throw e, w') => handler e w'
    | r => r
    end.

(** A call: a [return r] of the body is the value of the call, and a body
    that runs to its end yields [undefined]. *)
Definition call {R R' : Type} (undefined : R) (body : M R unit) : M R' R :=
  fun w =>
    match body w with
    | (Normal _, w') => (Normal undefined, w')
    | (Return r, w') => (Normal r, w')
    | (Throw e, w') => (Throw e, w')
    end.

(** [for (let x of xs) body], threading the local variables [s] the body
    assigns. *)
Fixpoint for_of {R A S : Type} (xs : list A) (body : A -> S -> M R S) (s : S) : M R S :=
  match xs with
  | [] => ret s
  | x :: xs' => s' <- body x s ;; for_of xs' body s'
  end.

(** Iterating [undefined] is a TypeError. *)
Definition iterable {R A : Type} (what : string) (xs : option (list A)) : M R (list A) :=
  match xs with
  | Some l => ret l
  | None => throw (TypeError (what ++ " is not iterable"))
  end.

(* ------------------------------------------------------------------ *)
(** ** The provider client *)

Record RestApi : Type := { restApi_id : string; restApi_name : string }.

Record Resource : Type := { resource_id : string; resource_path : string }.

Record LayerVersion : Type := { LayerVersionArn : string }.

Record Layer : Type :=
  { LayerName : string;
    LatestMatchingVersion : option LayerVersion }.

(** One field per request the plugin sends; the argument [nat] is the
    [limit] / [MaxItems] parameter, the result is the rejection or the
    response's [items] / [Layers] property. *)
Record Provider : Type :=
  { getRestApis : nat -> error + option (list RestApi);
    getResources : nat -> string -> error + option (list Resource);
    listLayers : nat -> error + option (list Layer) }.

(** [await this.provider.request(...)] *)
Definition request {R A : Type} (response : error + A) : M R A :=
  match response with
  | inl e => throw e
  | inr a => ret a
  end.

(* ------------------------------------------------------------------ *)
(** ** The plugin *)

Section Plugin.

Variable provider : Provider.

(** The constructor, lines 28-37: [get(config, key, default)] yields the
    default for a missing or falsy property; the hook is registered (here:
    a configuration is produced) only for a truthy [name]. *)
Definition constructor (raw : RawConfig) : option Config :=
  match raw_name raw with
  | Some n =>
      if truthy n then
        Some {| config_name := n;
                config_path := match raw_path raw with
                        | Some p => if truthy p then p else "/"
                        | None => "/"
                        end;
                config_resources := raw_resources raw;
                config_resolveLayerArns := match raw_resolveLayerArns raw with
                                    | Some b => b
                                    | None => false
                                    end |}
      else None
  | None => None
  end.

(** [getRestApiPathIds], lines 40-51. *)
Definition getRestApiPathIds {R : Type} (restApiId : string) : M R (obj string) :=
  items <- request (getResources provider 500 restApiId) ;;
  match items with
  | Some items =>
      for_of items
        (fun resource pathIds =>
           ret (obj_assign pathIds (resource_path resource) (resource_id resource)))
        []
  | None => ret []
  end.

(** [findRestApiIdByName], lines 53-62: the [return] sits inside the loop,
    and running past the loop yields [undefined]. *)
Definition findRestApiIdByName {R : Type} (name : string) : M R (option string) :=
  call None
    (items <- request (getRestApis provider 500) ;;
     match items with
     | Some items =>
         for_of items
           (fun restApi _ =>
              if String.eqb name (restApi_name restApi)
              then return_ (Some (restApi_id restApi))
              else ret tt)
           tt
     | None => ret tt
     end).

(** A value used as a property key or inside a template literal. *)
Definition to_string (v : value) : string :=
  match v with
  | VString s => s
  | VUndefined => "undefined"
  | VMember name => member_text name
  end.

(** [isArn(layer)], lines 9-19: [string.match] on [undefined] throws, and a
    function or the prototype object has no [match] to call. *)
Definition isArn_call {R : Type} (layer : value) : M R bool :=
  match layer with
  | VString s => ret (isArn s)
  | VUndefined =>
      throw (TypeError "Cannot read properties of undefined (reading 'match')")
  | VMember _ => throw (TypeError "string.match is not a function")
  end.

(** [existingLayers[layer]] *)
Definition index (existingLayers : obj string) (layer : value) : value :=
  match obj_index existingLayers (to_string layer) with
  | Some (Id arn) => VString arn
  | Some (Member name) => VMember name
  | None => VUndefined
  end.

(** An array inside a template literal: [join(",")], with [undefined]
    printed as the empty string. *)
Definition array_toString (l : list value) : string :=
  String.concat ","
    (map (fun v => match v with
                   | VString s => s
                   | VUndefined => ""
                   | VMember name => member_text name
                   end) l).

Definition unable_to_find_layer (layer : value) : string :=
  "Unable to find layer in AWS list-layers: " ++ to_string layer
    ++ " [object Object]'".

(** [_resolveLayerArns], lines 154-173.  The locals [resolvedAny] and
    [resolvedLayers] are the loop's state. *)
Definition _resolveLayerArns {R : Type}
    (layers : option (list value)) (existingLayers : obj string) : M R (list value) :=
  layers <- iterable "layers" layers ;;
  st <- for_of layers
    (fun layer '(resolvedAny, resolvedLayers) =>
       arn <- isArn_call layer ;;
       if arn then ret (resolvedAny, resolvedLayers ++ [layer])
       else
         try_catch
           (resolved <- ret (index existingLayers layer) ;;
            ret (true, resolvedLayers ++ [resolved]))
           (fun e =>
              cli_log (unable_to_find_layer layer) ;;
              ret (resolvedAny, resolvedLayers)))
    (false, []) ;;
  let '(resolvedAny, resolvedLayers) := st in
  (if resolvedAny : bool
   then cli_log ("Resolved layer ARNs: " ++ array_toString resolvedLayers)
   else ret tt) ;;
  ret resolvedLayers.

(** [layer.LatestMatchingVersion.LayerVersionArn] *)
Definition latest_arn {R : Type} (layer : Layer) : M R string :=
  match LatestMatchingVersion layer with
  | Some v => ret (LayerVersionArn v)
  | None =>
      throw (TypeError
               "Cannot read properties of undefined (reading 'LayerVersionArn')")
  end.

(** [resolveLayerArns], lines 133-152. *)
Definition resolveLayerArns {R : Type} : M R unit :=
  response <- request (listLayers provider 50) ;;
  existingLayers <-
    for_of (match response with Some ls => ls | None => [] end)
      (fun layer existingLayers =>
         arn <- latest_arn layer ;;
         ret (obj_assign existingLayers (LayerName layer) arn))
      [] ;;
  provider_layers0 <- gets (fun w => provider_layers (service w)) ;;
  resolved <- _resolveLayerArns provider_layers0 existingLayers ;;
  modify (set_service (with_provider_layers (Some resolved))) ;;
  fs <- gets (fun w => functions (service w)) ;;
  match fs with
  | Some fs =>
      for_of (obj_entries fs)
        (fun '(fname, func) i =>
           match layers func with
           | Some ls =>
               resolved <- _resolveLayerArns (Some ls) existingLayers ;;
               modify (set_service (fun s =>
                 with_functions
                   (option_map
                      (update_at i (fun '(k, f) => (k, with_layers (Some resolved) f)))
                      (functions s))
                   s)) ;;
               ret (S i)
           | None => ret (S i)
           end)
        0 ;;
      ret tt
  | None => ret tt
  end.

(** Lines 83-110: the paths inferred from the functions' HTTP events. *)
Definition matchingPaths (pathIds : obj string) (eventPath : string)
    (newResourcePaths : list string) : list string :=
  fold_left
    (fun acc '(existingPath, pathId) =>
       if String.prefix existingPath eventPath then acc ++ [existingPath] else acc)
    (obj_entries pathIds) newResourcePaths.

Definition eventPaths (pathIds : obj string) (newResourcePaths : list string)
    (event : Event) : list string :=
  match http event with
  | Some h =>
      match http_path h with
      | Some p => matchingPaths pathIds p newResourcePaths
      | None => newResourcePaths
      end
  | None => newResourcePaths
  end.

Definition functionPaths (pathIds : obj string) (newResourcePaths : list string)
    (entry : string * FunctionDescriptor) : list string :=
  match events (snd entry) with
  | Some evs => fold_left (eventPaths pathIds) evs newResourcePaths
  | None => newResourcePaths
  end.

Definition inferResources {R : Type} (pathIds : obj string) : M R unit :=
  configured <- gets (fun w => config_resources (config w)) ;;
  match configured with
  | None =>
      fs <- gets (fun w => functions (service w)) ;;
      newResourcePaths <-
        match fs with
        | Some fs =>
            let newResourcePaths :=
              fold_left (functionPaths pathIds) (obj_entries fs) [] in
            modify (set_config (with_resources (Some newResourcePaths))) ;;
            ret newResourcePaths
        | None => ret []
        end ;;
      if Nat.eqb (length newResourcePaths) 0
      then modify (set_config (with_resources (Some (obj_keys pathIds))))
      else ret tt
  | Some _ => ret tt
  end.

Definition unable_to_find_resource (resourcePath restApiId : string) : string :=
  "Unable to find resource path (" ++ resourcePath ++ ") for REST API ("
    ++ restApiId ++ ")".

(** Lines 112-121: the resources to import, or the [return] that ends the
    run at the first path for which [pathIds[resourcePath]] is falsy. *)
Definition selectResources (restApiId : string) (pathIds : obj string)
    (resources : option (list string)) : M unit (obj found) :=
  resources <- iterable "this.config.resources" resources ;;
  for_of resources
    (fun resourcePath resourcesToImport =>
       match obj_index pathIds resourcePath with
       | Some resourceId =>
           if truthy_found resourceId
           then ret (obj_assign resourcesToImport resourcePath resourceId)
           else cli_log (unable_to_find_resource resourcePath restApiId) ;;
                return_ tt
       | None =>
           cli_log (unable_to_find_resource resourcePath restApiId) ;;
           return_ tt
       end)
    [].

(** Lines 123-125. *)
Definition commit (restApiId : string) (rootResourceId : found)
    (resourcesToImport : obj found) (ag : obj ag_value) : obj ag_value :=
  obj_set
    (obj_set
       (obj_set ag "restApiId" (AString restApiId))
       "restApiRootResourceId" (of_found rootResourceId))
    "restApiResources" (AMap resourcesToImport).

(** The [try] block of [importApiGateway], lines 66-126. *)
Definition importApiGateway_try : M unit unit :=
  resolveLayerArns ;;
  name <- gets (fun w => config_name (config w)) ;;
  restApiId <- findRestApiIdByName name ;;
  match restApiId with
  | None =>
      cli_log ("Unable to find REST API named '" ++ name ++ "'") ;;
      return_ tt
  | Some restApiId =>
      if negb (truthy restApiId) then
        cli_log ("Unable to find REST API named '" ++ name ++ "'") ;;
        return_ tt
      else
        pathIds <- getRestApiPathIds restApiId ;;
        path <- gets (fun w => config_path (config w)) ;;
        match obj_index pathIds path with
        | None =>
            cli_log ("Unable to find root resource path (" ++ path
                       ++ ") for REST API (" ++ restApiId ++ ")") ;;
            return_ tt
        | Some rootResourceId =>
            if negb (truthy_found rootResourceId) then
              cli_log ("Unable to find root resource path (" ++ path
                         ++ ") for REST API (" ++ restApiId ++ ")") ;;
              return_ tt
            else
              inferResources pathIds ;;
              resources <- gets (fun w => config_resources (config w)) ;;
              resourcesToImport <- selectResources restApiId pathIds resources ;;
              modify (set_service (fun s =>
                with_apiGateway
                  (commit restApiId rootResourceId resourcesToImport
                     (provider_apiGateway s))
                  s)) ;;
              ag <- gets (fun w => provider_apiGateway (service w)) ;;
              modify (add_log (CliLogImported ag))
        end
  end.

Definition newline : string := String "010"%char EmptyString.

(** The text handed to [console.error] (colour left out). *)
Definition error_banner (e : error) : string :=
  newline ++ "-------- Import API Gateway Error --------" ++ newline ++ message e.

(** [importApiGateway], lines 64-130: the hook the host calls. *)
Definition importApiGateway : M unit unit :=
  call tt
    (try_catch importApiGateway_try
       (fun e => modify (add_log (ConsoleError (error_banner e))))).

End Plugin.

(* ------------------------------------------------------------------ *)
(** ** The loop bodies, named

    The bodies of the three loops of the layer resolver, exactly as the
    definitions above have them inline; the facts about the loops are stated
    on these names. *)

Definition resolve_body {R : Type} (existingLayers : obj string)
    (layer : value) (st : bool * list value) : M R (bool * list value) :=
  let '(resolvedAny, resolvedLayers) := st in
  arn <- isArn_call layer ;;
  if arn then ret (resolvedAny, resolvedLayers ++ [layer])
  else
    try_catch
      (resolved <- ret (index existingLayers layer) ;;
       ret (true, resolvedLayers ++ [resolved]))
      (fun e =>
         cli_log (unable_to_find_layer layer) ;;
         ret (resolvedAny, resolvedLayers)).

Definition inventory_body {R : Type} (layer : Layer) (existing : obj string) :
    M R (obj string) :=
  arn <- latest_arn layer ;;
  ret (obj_assign existing (LayerName layer) arn).

Definition function_body {R : Type} (existingLayers : obj string) :
    string * FunctionDescriptor -> nat -> M R nat :=
  fun '(fname, func) i =>
  match layers func with
  | Some ls =>
      resolved <- _resolveLayerArns (Some ls) existingLayers ;;
      modify (set_service (fun s =>
        with_functions
          (option_map
             (update_at i (fun '(k, f) => (k, with_layers (Some resolved) f)))
             (functions s))
          s)) ;;
      ret (S i)
  | None => ret (S i)
  end.

(* ------------------------------------------------------------------ *)
(** ** Frames

    [preserves I m]: whatever way [m] completes, the worlds before and after
    are related by [I].  [abrupt_preserves I m]: the same for a [m] that
    does not run to its end. *)

Definition preserves {R A : Type} (I : World -> World -> Prop) (m : M R A) : Prop :=
  forall w c w', m w = (c, w') -> I w w'.

Definition abrupt_preserves {R A : Type} (I : World -> World -> Prop) (m : M R A) : Prop :=
  forall w c w', m w = (c, w') -> (forall a, c <> Normal a) -> I w w'.

Definition same_apiGateway (w w' : World) : Prop :=
  provider_apiGateway (service w') = provider_apiGateway (service w).

Definition same_config (w w' : World) : Prop := config w' = config w.

Definition same_service (w w' : World) : Prop := service w' = service w.

(** [ignores_switch m]: setting [config.resolveLayerArns] before [m] or
    after it makes no difference, i.e. [m] never reads the switch. *)
Definition set_switch (b : bool) (w : World) : World :=
  set_config (with_resolveLayerArns b) w.

Definition ignores_switch {R A : Type} (m : M R A) : Prop :=
  forall (b : bool) (w : World),
    m (set_switch b w) = (fst (m w), set_switch b (snd (m w))).

(* ------------------------------------------------------------------ *)
(** ** Specification-side definitions

    These follow the words of the specification; the theorems below compare
    them with the embedded code. *)


(** A non-empty component without line terminators. *)
Fixpoint one_line (s : string) : bool :=
  match s with
  | EmptyString => true
  | String c s' => Regex.is_dot c && one_line s'
  end.

Definition component (s : string) : bool :=
  negb (String.eqb s "") && one_line s.


(** What one entry of a layer list resolves to: an ARN stays; a bare name
    becomes the ARN the inventory has under that name; failing that, a name
    that is also the name of a member of [Object.prototype] becomes that
    member, and any other name [undefined]. *)
Definition resolve_entry (existingLayers : obj string) (layer : string) : value :=
  if isArn layer then VString layer
  else match obj_get existingLayers layer with
       | Some arn => VString arn
       | None => if inherited layer then VMember layer else VUndefined
       end.

Definition fully_qualified (v : value) : bool :=
  match v with
  | VString s => isArn s
  | VUndefined | VMember _ => false
  end.

Definition qualified_list (ls : option (list value)) : bool :=
  match ls with
  | Some l => forallb fully_qualified l
  | None => true
  end.

(** Every layer list of the model holds fully-qualified ARNs only. *)
Definition all_qualified (s : Service) : bool :=
  qualified_list (provider_layers s) &&
  match functions s with
  | Some fs => forallb (fun entry => qualified_list (layers (snd entry))) fs
  | None => true
  end.

(** The paths of one event, zero or one. *)
Definition event_paths (ev : Event) : list string :=
  match http ev with
  | Some h =>
      match http_path h with
      | Some p => [p]
      | None => []
      end
  | None => []
  end.

(** The mapping the specification asks for: every selected path paired with
    what the index gives for it. *)
Definition imported (pathIds : obj string) (rs : list string)
    (resourcesToImport : obj found) : obj found :=
  fold_left
    (fun acc p =>
       match obj_index pathIds p with
       | Some id => obj_assign acc p id
       | None => acc
       end)
    rs resourcesToImport.

(** The HTTP event paths of the functions, in the order of the service
    file. *)
Definition http_paths (fs : option (obj FunctionDescriptor)) : list string :=
  match fs with
  | Some fs =>
      flat_map
        (fun entry =>
           match events (snd entry) with
           | Some evs =>
               flat_map event_paths evs
           | None => []
           end)
        fs
  | None => []
  end.

(** The candidates of the specification: for every HTTP event path, every
    existing gateway path that is a string prefix of it; nothing is
    deduplicated. *)
Definition candidate_paths (fs : option (obj FunctionDescriptor))
    (pathIds : obj string) : list string :=
  flat_map
    (fun eventPath =>
       filter (fun existingPath => String.prefix existingPath eventPath)
         (obj_keys pathIds))
    (http_paths fs).

(** A path for which the index gives something usable: a non-empty id, or
    an inherited member. *)
Definition has_id (pathIds : obj string) (p : string) : bool :=
  match obj_index pathIds p with
  | Some x => truthy_found x
  | None => false
  end.

(** The same, in words: the path is a key of the index with a non-empty id,
    or it is not a key and names a member of [Object.prototype]. *)
Definition listed_or_inherited (pathIds : obj string) (p : string) : Prop :=
  (exists id, obj_get pathIds p = Some id /\ id <> "")
  \/ (obj_get pathIds p = None /\ In p object_prototype).

(* ------------------------------------------------------------------ *)
(** ** Concrete inputs: the scenarios of the specification *)

Module Scenario.

Definition common_arn : string :=
  "arn:aws:lambda:us-east-1:000000000000:layer:common:1".

Definition gateways : list RestApi :=
  [ {| restApi_id := "r1"; restApi_name := "my-api" |} ].

Definition gateway_resources : list Resource :=
  [ {| resource_id := "abc123"; resource_path := "/" |};
    {| resource_id := "u1"; resource_path := "/users" |} ].

Definition inventory : list Layer :=
  [ {| LayerName := "common";
       LatestMatchingVersion := Some {| LayerVersionArn := common_arn |} |} ].

(** A provider that knows the gateway [my-api]. *)
Definition aws : Provider :=
  {| getRestApis := fun _ => inr (Some gateways);
     getResources := fun _ _ => inr (Some gateway_resources);
     listLayers := fun _ => inr (Some inventory) |}.

(** A provider without any gateway. *)
Definition aws_without_gateway : Provider :=
  {| getRestApis := fun _ => inr (Some []);
     getResources := fun _ _ => inr (Some gateway_resources);
     listLayers := fun _ => inr (Some inventory) |}.

(** A provider whose gateway has no resource at the root path. *)
Definition aws_without_root : Provider :=
  {| getRestApis := fun _ => inr (Some gateways);
     getResources := fun _ _ =>
       inr (Some [ {| resource_id := "u1"; resource_path := "/users" |} ]);
     listLayers := fun _ => inr (Some inventory) |}.

(** A provider whose every request is rejected. *)
Definition aws_down : Provider :=
  {| getRestApis := fun _ => inl (RequestError "socket hang up");
     getResources := fun _ _ => inl (RequestError "socket hang up");
     listLayers := fun _ => inl (RequestError "socket hang up") |}.

Definition users_function : FunctionDescriptor :=
  {| events := Some [ {| http := Some {| http_path := Some "/users/{id}" |} |} ];
     layers := None |}.

Definition make_world (provider_layers : option (list value))
    (fs : option (obj FunctionDescriptor)) (resources : option (list string))
    (resolve : bool) : World :=
  {| service := {| provider_layers := provider_layers;
                   provider_apiGateway := [];
                   functions := fs |};
     config := {| config_name := "my-api";
                  config_path := "/";
                  config_resources := resources;
                  config_resolveLayerArns := resolve |};
     log := [] |}.

(** Scenario B: explicit resources [["/users"]], no layers in use. *)
Definition scenario_b : World :=
  make_world (Some []) None (Some ["/users"]) false.

(** Scenario C: resources left out, one function on [/users/{id}]. *)
Definition scenario_c : World :=
  make_world (Some []) (Some [("users", users_function)]) None false.

(** A bare layer name in the provider section, layer resolution switched
    on. *)
Definition with_bare_layer (resolve : bool) : World :=
  make_world (Some [VString "common"]) None (Some ["/users"]) resolve.

(** No [layers] in the provider section at all. *)
Definition without_provider_layers : World :=
  make_world None None (Some ["/users"]) false.

(** A path index in which [/users] has an empty id. *)
Definition index_with_empty_id : obj string :=
  [("/", "abc123"); ("/users", "")].

(** Layer lists that are already fully qualified. *)
Definition already_qualified : World :=
  make_world (Some [VString common_arn])
    (Some [("users", with_layers (Some [VString common_arn]) users_function)])
    (Some ["/users"]) true.

End Scenario.

(* ------------------------------------------------------------------ *)
(** ** Untyped values and the [get] helper, lines 5-7

    The service file as the constructor sees it: plain data.  Numbers are
    the integers.  A value has its own properties (an index or [length] on
    a string or an array, a key on an object) and, past them, the members
    its prototype chain provides.  Those belong to the host, not to the
    data: the parameter [inherits] tells which names they are, and a lookup
    that ends on one of them [Leaves] the data. *)

Module Js.

#[local] Unset Elimination Schemes.

Inductive js : Type :=
| JUndefined
| JNull
| JBool (b : bool)
| JNumber (n : Z)
| JString (s : string)
| JArray (l : list js)
| JObject (o : obj js).

#[local] Set Elimination Schemes.

(** How a lookup, or a walk along a path, ends: on a value of the data, on
    a TypeError, or on the member [key] that the value [v] inherits from
    the host (a method such as [toString], an accessor such as
    [__proto__]); what the program makes of such a member is outside the
    data. *)
Inductive outcome (A : Type) : Type :=
| Gives (a : A)
| Throws (e : error)
| Leaves (v : js) (key : string).

Arguments Gives {A} a.
Arguments Throws {A} e.
Arguments Leaves {A} v key.

(** [Boolean(v)] *)
Definition truthy_js (v : js) : bool :=
  match v with
  | JUndefined | JNull => false
  | JBool b => b
  | JNumber n => negb (Z.eqb n 0)
  | JString s => truthy s
  | JArray _ | JObject _ => true
  end.

(** The value of a run of decimal digits. *)
Fixpoint digits_value (s : string) (acc : nat) : option nat :=
  match s with
  | EmptyString => Some acc
  | String c s' =>
      if Regex.is_digit c
      then digits_value s' (10 * acc + (nat_of_ascii c - 48))
      else None
  end.

(** A property key that is a canonical index: [0], or digits without a
    leading zero. *)
Definition array_index (key : string) : option nat :=
  match key with
  | EmptyString => None
  | String c rest =>
      if Ascii.eqb c "0"%char
      then match rest with EmptyString => Some 0 | _ => None end
      else digits_value key 0
  end.

(** The own property [key] of a value, if it has one. *)
Definition own (v : js) (key : string) : option js :=
  match v with
  | JUndefined | JNull | JBool _ | JNumber _ => None
  | JString s =>
      if String.eqb key "length" then Some (JNumber (Z.of_nat (String.length s)))
      else match array_index key with
           | Some i =>
               match String.get i s with
               | Some c => Some (JString (String c EmptyString))
               | None => None
               end
           | None => None
           end
  | JArray l =>
      if String.eqb key "length" then Some (JNumber (Z.of_nat (List.length l)))
      else match array_index key with
           | Some i => nth_error l i
           | None => None
           end
  | JObject o => obj_get o key
  end.

Section Host.

(** [inherits v key]: the prototype chain of [v] has a member named [key]. *)
Variable inherits : js -> string -> bool.

(** [v[key]]: a TypeError on [undefined] and [null]; otherwise the own
    property, then the inherited member, then [undefined]. *)
Definition prop (v : js) (key : string) : outcome js :=
  match v with
  | JUndefined =>
      Throws (TypeError ("Cannot read properties of undefined (reading '" ++ key ++ "')"))
  | JNull =>
      Throws (TypeError ("Cannot read properties of null (reading '" ++ key ++ "')"))
  | _ =>
      match own v key with
      | Some x => Gives x
      | None => if inherits v key then Leaves v key else Gives JUndefined
      end
  end.

(** [steps.every(step => !(step && !(obj = obj[step])))]: the result of
    [every] and the last value assigned to [obj]. *)
Fixpoint every_step (obj : js) (steps : list string) : outcome (bool * js) :=
  match steps with
  | [] => Gives (true, obj)
  | step :: steps' =>
      if truthy step then
        match prop obj step with
        | Throws e => Throws e
        | Leaves v key => Leaves v key
        | Gives v => if truthy_js v then every_step v steps' else Gives (false, v)
        end
      else every_step obj steps'
  end.

End Host.

(** [path.split('.')] *)
Fixpoint split_dot (path : string) : list string :=
  match path with
  | EmptyString => [EmptyString]
  | String c rest =>
      if Ascii.eqb c "."%char then EmptyString :: split_dot rest
      else match split_dot rest with
           | seg :: segs => String c seg :: segs
           | [] => [String c EmptyString]
           end
  end.

(** A key without a dot. *)
Fixpoint no_dot (key : string) : bool :=
  match key with
  | EmptyString => true
  | String c rest => negb (Ascii.eqb c "."%char) && no_dot rest
  end.

(** The part of [this.serverless.service] the constructor touches: the
    provider section, an object, and the [custom] section, whatever it is. *)
Record service : Type :=
  { provider : obj js;
    custom : js }.

Definition service_object (s : service) : js :=
  JObject [("provider", JObject (provider s)); ("custom", custom s)].

(** What the constructor leaves behind: the service, [this.config], and
    whether the hook is registered. *)
Record plugin : Type :=
  { plugin_service : service;
    plugin_config : js;
    plugin_hook : bool }.

(** What [get] makes of one own key of an object: the property when it is
    truthy, the default otherwise. *)
Definition defaulted (o : obj js) (key : string) (d : js) : js :=
  match obj_get o key with
  | Some v => if truthy_js v then v else d
  | None => d
  end.

(** [this.config] is the very object found under [custom.importApiGateway],
    so what the constructor writes onto it shows in the service as well. *)
Definition alias_update (custom : js) (config : obj js) : js :=
  match custom with
  | JObject c => JObject (obj_set c "importApiGateway" (JObject config))
  | _ => custom
  end.

(** The keys the constructor reads. *)
Definition config_keys : list string :=
  [ "provider"; "apiGateway"; "custom"; "importApiGateway"; "name"; "path";
    "resources"; "resolveLayerArns" ].

(** A host in which none of these is the name of an inherited member. *)
Definition no_config_member (inherits : js -> string -> bool) : Prop :=
  forall (v : js) (key : string), In key config_keys -> inherits v key = false.

(** The least a host provides: the members of [Object.prototype], which
    every value but [undefined] and [null] inherits. *)
Definition object_members (v : js) (key : string) : bool :=
  match v with
  | JUndefined | JNull => false
  | _ => inherited key
  end.

Section Constructor.

Variable inherits : js -> string -> bool.

(** [get(obj, path, defaultValue)] *)
Definition get (obj : js) (path : string) (defaultValue : js) : outcome js :=
  match every_step inherits obj (filter truthy (split_dot path)) with
  | Throws e => Throws e
  | Leaves v key => Leaves v key
  | Gives (true, v) => Gives v
  | Gives (false, _) => Gives defaultValue
  end.

(** The defaults of lines 33-35, written onto the configuration object. *)
Definition with_defaults (config : obj js) : outcome (obj js) :=
  match get (JObject config) "path" (JString "/") with
  | Throws e => Throws e
  | Leaves v key => Leaves v key
  | Gives path =>
      let config := obj_set config "path" path in
      match get (JObject config) "resources" JUndefined with
      | Throws e => Throws e
      | Leaves v key => Leaves v key
      | Gives resources =>
          let config := obj_set config "resources" resources in
          match get (JObject config) "resolveLayerArns" (JBool false) with
          | Throws e => Throws e
          | Leaves v key => Leaves v key
          | Gives resolve => Gives (obj_set config "resolveLayerArns" resolve)
          end
      end
  end.

(** The constructor, lines 22-38.  Assigning to a property of a string, a
    number or a boolean is a TypeError under ['use strict']. *)
Definition constructor (s : service) : outcome plugin :=
  match get (service_object s) "provider.apiGateway" (JObject []) with
  | Throws e => Throws e
  | Leaves v key => Leaves v key
  | Gives apiGateway =>
      let s := {| provider := obj_set (provider s) "apiGateway" apiGateway;
                  custom := custom s |} in
      match get (service_object s) "custom.importApiGateway" (JObject []) with
      | Throws e => Throws e
      | Leaves v key => Leaves v key
      | Gives config =>
          match prop inherits config "name" with
          | Throws e => Throws e
          | Leaves v key => Leaves v key
          | Gives name =>
              if truthy_js name then
                match config with
                | JObject o =>
                    match with_defaults o with
                    | Throws e => Throws e
                    | Leaves v key => Leaves v key
                    | Gives o' =>
                        Gives {| plugin_service :=
                                   {| provider := provider s;
                                      custom := alias_update (custom s) o' |};
                                 plugin_config := JObject o';
                                 plugin_hook := true |}
                    end
                | _ => Throws (TypeError "Cannot create property 'path'")
                end
              else Gives {| plugin_service := s;
                            plugin_config := config;
                            plugin_hook := false |}
          end
      end
  end.

End Constructor.

(** A typed configuration as the object the service file holds. *)
Definition encode_strings (l : list string) : js := JArray (map JString l).

Definition encode_raw (raw : RawConfig) : js :=
  JObject
    ((match raw_name raw with Some n => [("name", JString n)] | None => [] end)
     ++ (match raw_path raw with Some p => [("path", JString p)] | None => [] end)
     ++ (match raw_resources raw with
         | Some rs => [("resources", encode_strings rs)]
         | None => []
         end)
     ++ (match raw_resolveLayerArns raw with
         | Some b => [("resolveLayerArns", JBool b)]
         | None => []
         end)).

End Js.

(* ------------------------------------------------------------------ *)
(** ** The plugin before layer resolution: [src/unnamed/part_000]

    The earlier file has the same [getRestApiPathIds] and
    [findRestApiIdByName], character for character; its [importApiGateway]
    starts at the name lookup. *)

Module Part000.

Section Plugin.

Variable provider : Provider.

(** The [try] block of [importApiGateway], lines 53-111. *)
Definition importApiGateway_try : M unit unit :=
  name <- gets (fun w => config_name (config w)) ;;
  restApiId <- findRestApiIdByName provider name ;;
  match restApiId with
  | None =>
      cli_log ("Unable to find REST API named '" ++ name ++ "'") ;;
      return_ tt
  | Some restApiId =>
      if negb (truthy restApiId) then
        cli_log ("Unable to find REST API named '" ++ name ++ "'") ;;
        return_ tt
      else
        pathIds <- getRestApiPathIds provider restApiId ;;
        path <- gets (fun w => config_path (config w)) ;;
        match obj_index pathIds path with
        | None =>
            cli_log ("Unable to find root resource path (" ++ path
                       ++ ") for REST API (" ++ restApiId ++ ")") ;;
            return_ tt
        | Some rootResourceId =>
            if negb (truthy_found rootResourceId) then
              cli_log ("Unable to find root resource path (" ++ path
                         ++ ") for REST API (" ++ restApiId ++ ")") ;;
              return_ tt
            else
              inferResources pathIds ;;
              resources <- gets (fun w => config_resources (config w)) ;;
              resourcesToImport <- selectResources restApiId pathIds resources ;;
              modify (set_service (fun s =>
                with_apiGateway
                  (commit restApiId rootResourceId resourcesToImport
                     (provider_apiGateway s))
                  s)) ;;
              ag <- gets (fun w => provider_apiGateway (service w)) ;;
              modify (add_log (CliLogImported ag))
        end
  end.

(** [importApiGateway], lines 51-115. *)
Definition importApiGateway : M unit unit :=
  call tt
    (try_catch importApiGateway_try
       (fun e => modify (add_log (ConsoleError (error_banner e))))).

End Plugin.

End Part000.

(* ------------------------------------------------------------------ *)
(** ** Further specification-side definitions *)

(** The inventory [resolveLayerArns] builds from a response: each layer
    name with the ARN of its latest version, a later entry of the same name
    replacing an earlier one, and a layer named [__proto__] leaving no
    trace. *)
Definition inventory_of (ls : list Layer) : obj string :=
  fold_left
    (fun existing l =>
       match LatestMatchingVersion l with
       | Some v => obj_assign existing (LayerName l) (LayerVersionArn v)
       | None => existing
       end)
    ls [].

(** One step of the loop of [getRestApiPathIds]. *)
Definition put_resource (pathIds : obj string) (resource : Resource) : obj string :=
  obj_assign pathIds (resource_path resource) (resource_id resource).

Definition complete_inventory (response : option (list Layer)) : bool :=
  forallb (fun l => match LatestMatchingVersion l with
                    | Some _ => true
                    | None => false
                    end)
    (match response with Some ls => ls | None => [] end).

Definition resolve_value (existingLayers : obj string) (v : value) : value :=
  match v with
  | VString s => resolve_entry existingLayers s
  | VUndefined => VUndefined
  | VMember name => VMember name
  end.

Definition resolve_function (existingLayers : obj string)
    (entry : string * FunctionDescriptor) : string * FunctionDescriptor :=
  match layers (snd entry) with
  | Some ls =>
      (fst entry, with_layers (Some (map (resolve_value existingLayers) ls)) (snd entry))
  | None => entry
  end.

(** A layer list of strings: no [undefined] entry, and no inherited
    member. *)
Definition strings_only (ls : option (list value)) : bool :=
  match ls with
  | Some l => forallb (fun v => match v with VString _ => true | _ => false end) l
  | None => true
  end.

(** The functions of the model without their layer lists: names, order and
    events. *)
Definition function_shapes (s : Service) : option (list (string * option (list Event))) :=
  option_map (map (fun entry => (fst entry, events (snd entry)))) (functions s).

(** What layer resolution leaves alone. *)
Definition layers_frame (w w' : World) : Prop :=
  config w' = config w
  /\ provider_apiGateway (service w') = provider_apiGateway (service w)
  /\ function_shapes (service w') = function_shapes (service w)
  /\ (provider_layers (service w) <> None -> provider_layers (service w') <> None)
  /\ exists added, log w' = log w ++ added.

(** What a whole run leaves alone. *)
Definition run_frame (w w' : World) : Prop :=
  config_name (config w') = config_name (config w)
  /\ config_path (config w') = config_path (config w)
  /\ config_resolveLayerArns (config w') = config_resolveLayerArns (config w)
  /\ (forall rs, config_resources (config w) = Some rs ->
        config_resources (config w') = Some rs)
  /\ function_shapes (service w') = function_shapes (service w)
  /\ exists added, log w' = log w ++ added.


(** The three properties a run commits. *)
Definition committed_keys : list string :=
  ["restApiId"; "restApiRootResourceId"; "restApiResources"].

(** Scenario D: one function that names the layer [common]. *)
Definition scenario_d : World :=
  Scenario.make_world (Some [])
    (Some [("users",
            with_layers (Some [VString "common"]) Scenario.users_function)])
    (Some ["/users"]) true.

(** The error of [isArn] on an [undefined] entry, and on an entry that is
    a member of [Object.prototype]. *)
Definition match_of_undefined : error :=
  TypeError "Cannot read properties of undefined (reading 'match')".

Definition match_not_a_function : error :=
  TypeError "string.match is not a function".

(** The error of [isArn] on an entry that is not a string. *)
Definition match_error (v : value) : option error :=
  match v with
  | VString _ => None
  | VUndefined => Some match_of_undefined
  | VMember _ => Some match_not_a_function
  end.

(** A bare name the inventory has nothing under. *)
Definition unresolved (existingLayers : obj string) (name : string) : bool :=
  negb (isArn name)
  && match obj_get existingLayers name with Some _ => false | None => true end.

(** A computation that never ends by [return]. *)
Definition never_returns {R A : Type} (m : M R A) : Prop :=
  forall w r w', m w <> (Return r, w').

(* ================================================================== *)
(** * Facts about the embedding *)

(** ** Objects *)

Section ObjectFacts.

Context {V : Type}.
Implicit Types (o : obj V) (k : string) (v : V).

Lemma obj_get_set_same o k v : obj_get (obj_set o k v) k = Some v.
Proof.
  induction o as [|[k' v'] o IH]; simpl.
  - now rewrite String.eqb_refl.
  - destruct (String.eqb k k') eqn:E; simpl; rewrite E; auto.
Qed.

Lemma obj_get_set_other o k k' v :
  k' <> k -> obj_get (obj_set o k v) k' = obj_get o k'.
Proof.
  intros Hne. induction o as [|[k0 v0] o IH]; simpl.
  - apply String.eqb_neq in Hne. now rewrite Hne.
  - destruct (String.eqb k k0) eqn:E; simpl.
    + apply String.eqb_eq in E. subst k0.
      apply String.eqb_neq in Hne. now rewrite Hne.
    + now rewrite IH.
Qed.

Lemma obj_keys_set o k v p :
  In p (obj_keys (obj_set o k v)) <-> p = k \/ In p (obj_keys o).
Proof.
  unfold obj_keys. induction o as [|[k0 v0] o IH]; simpl.
  - intuition.
  - destruct (String.eqb k k0) eqn:E; simpl.
    + apply String.eqb_eq in E. subst. intuition.
    + rewrite IH. intuition.
Qed.

Lemma obj_keys_set_NoDup o k v :
  NoDup (obj_keys o) -> NoDup (obj_keys (obj_set o k v)).
Proof.
  induction o as [|[k0 v0] o IH]; simpl; intros Hnd.
  - constructor; [intros [] | constructor].
  - destruct (String.eqb k k0) eqn:E; simpl.
    + exact Hnd.
    + inversion Hnd as [|? ? Hin Hnd']; subst. constructor; auto.
      intros Hin'. apply obj_keys_set in Hin'. destruct Hin' as [->|Hin'].
      * now rewrite String.eqb_refl in E.
      * contradiction.
Qed.

Lemma obj_get_keys o k v : obj_get o k = Some v -> In k (obj_keys o).
Proof.
  induction o as [|[k0 v0] o IH]; simpl; [discriminate|].
  destruct (String.eqb k k0) eqn:E; intros H.
  - apply String.eqb_eq in E. now left.
  - right. now apply IH.
Qed.

Lemma obj_get_none_keys o k : obj_get o k = None -> ~ In k (obj_keys o).
Proof.
  unfold obj_keys. induction o as [|[k0 v0] o IH]; simpl; [tauto|].
  destruct (String.eqb k k0) eqn:E; [discriminate|].
  intros Hnone [->|Hin]; [now rewrite String.eqb_refl in E | now apply IH].
Qed.

Lemma obj_keys_get o k : In k (obj_keys o) -> exists v, obj_get o k = Some v.
Proof.
  intros Hin. destruct (obj_get o k) as [v|] eqn:E; [now exists v|].
  now apply obj_get_none_keys in E.
Qed.

(** The write [o[k] = v]. *)

Lemma obj_assign_other o k k' v :
  k' <> k -> obj_get (obj_assign o k v) k' = obj_get o k'.
Proof.
  intros Hne. unfold obj_assign.
  destruct (obj_get o k); [now apply obj_get_set_other|].
  destruct (String.eqb k "__proto__"); [reflexivity | now apply obj_get_set_other].
Qed.

Lemma obj_assign_same o k v :
  k <> "__proto__" -> obj_get (obj_assign o k v) k = Some v.
Proof.
  intros Hne. unfold obj_assign. apply String.eqb_neq in Hne. rewrite Hne.
  destruct (obj_get o k); apply obj_get_set_same.
Qed.

Lemma obj_assign_proto o k v :
  obj_get o "__proto__" = None -> obj_get (obj_assign o k v) "__proto__" = None.
Proof.
  intros Hnone. destruct (String.eqb k "__proto__") eqn:E.
  - apply String.eqb_eq in E. subst k. unfold obj_assign. now rewrite Hnone.
  - rewrite obj_assign_other; [exact Hnone|].
    intros <-. now rewrite String.eqb_refl in E.
Qed.

Lemma obj_assign_keys o k v p :
  obj_get o "__proto__" = None ->
  In p (obj_keys (obj_assign o k v))
  <-> (p = k /\ k <> "__proto__") \/ In p (obj_keys o).
Proof.
  intros Hnone. unfold obj_assign.
  destruct (String.eqb k "__proto__") eqn:E.
  - apply String.eqb_eq in E. subst k. rewrite Hnone. intuition.
  - apply String.eqb_neq in E.
    destruct (obj_get o k); rewrite obj_keys_set; intuition.
Qed.

Lemma obj_assign_NoDup o k v :
  NoDup (obj_keys o) -> NoDup (obj_keys (obj_assign o k v)).
Proof.
  intros Hnd. unfold obj_assign.
  destruct (obj_get o k); [now apply obj_keys_set_NoDup|].
  destruct (String.eqb k "__proto__"); [exact Hnd | now apply obj_keys_set_NoDup].
Qed.

End ObjectFacts.

(** The read [o[k]]. *)

Lemma inherited_spec (k : string) : inherited k = true <-> In k object_prototype.
Proof.
  unfold inherited. rewrite existsb_exists. split.
  - intros (x & Hx & E). apply String.eqb_eq in E. now subst.
  - intros H. exists k. split; [exact H | apply String.eqb_refl].
Qed.

(** The names a plain object inherits, one by one. *)
Lemma inherited_names (k : string) :
  inherited k = true
  <-> k = "constructor" \/ k = "toString" \/ k = "toLocaleString"
      \/ k = "valueOf" \/ k = "hasOwnProperty" \/ k = "isPrototypeOf"
      \/ k = "propertyIsEnumerable" \/ k = "__proto__"
      \/ k = "__defineGetter__" \/ k = "__defineSetter__"
      \/ k = "__lookupGetter__" \/ k = "__lookupSetter__".
Proof.
  rewrite inherited_spec. unfold object_prototype. simpl. split.
  - intros H. repeat (destruct H as [<-|H]; [tauto|]). destruct H.
  - intros H. repeat (destruct H as [->|H]; [tauto|]). subst k. tauto.
Qed.

Lemma obj_index_own (o : obj string) (k s : string) :
  obj_get o k = Some s -> obj_index o k = Some (Id s).
Proof. unfold obj_index. now intros ->. Qed.

Lemma obj_index_none (o : obj string) (k : string) :
  obj_index o k = None <-> obj_get o k = None /\ ~ In k object_prototype.
Proof.
  unfold obj_index. destruct (obj_get o k) as [s|].
  - split; [discriminate | intros [H _]; discriminate H].
  - destruct (inherited k) eqn:E.
    + split; [discriminate|]. intros [_ H]. exfalso. apply H.
      now apply inherited_spec.
    + split; [|reflexivity]. intros _. split; [reflexivity|].
      intros H. apply inherited_spec in H. congruence.
Qed.

(** ** Running monadic code *)

Ltac run :=
  unfold bind, ret, throw, return_, gets, modify, cli_log, try_catch, call,
    request, iterable, isArn_call; simpl.

Lemma bind_normal {R A B : Type} (m : M R A) (k : A -> M R B) w a w' :
  m w = (Normal a, w') -> bind m k w = k a w'.
Proof. intros H. unfold bind. now rewrite H. Qed.

Lemma bind_throw {R A B : Type} (m : M R A) (k : A -> M R B) w e w' :
  m w = (Throw e, w') -> bind m k w = (Throw e, w').
Proof. intros H. unfold bind. now rewrite H. Qed.

Lemma bind_return {R A B : Type} (m : M R A) (k : A -> M R B) w r w' :
  m w = (Return r, w') -> bind m k w = (Return r, w').
Proof. intros H. unfold bind. now rewrite H. Qed.

Lemma bind_ret {R A B : Type} (a : A) (k : A -> M R B) w :
  bind (ret a) k w = k a w.
Proof. reflexivity. Qed.

(** ** [_resolveLayerArns] on a list of strings *)

Section ResolveFacts.

Variable R : Type.
Variable existingLayers : obj string.

Lemma index_string (n : string) :
  index existingLayers (VString n)
  = match obj_get existingLayers n with
    | Some arn => VString arn
    | None => if inherited n then VMember n else VUndefined
    end.
Proof.
  unfold index, obj_index. simpl.
  destruct (obj_get existingLayers n); [reflexivity|].
  destruct (inherited n); reflexivity.
Qed.

Lemma resolve_body_string (n : string) (resolvedAny : bool)
    (resolvedLayers : list value) (w : World) :
  @resolve_body R existingLayers (VString n) (resolvedAny, resolvedLayers) w
  = (Normal (resolvedAny || negb (isArn n),
             resolvedLayers ++ [resolve_entry existingLayers n]), w).
Proof.
  unfold resolve_body, resolve_entry. run.
  destruct (isArn n); simpl.
  - now rewrite orb_false_r.
  - now rewrite orb_true_r, index_string.
Qed.

Lemma resolve_loop (names : list string) :
  forall (resolvedAny : bool) (resolvedLayers : list value) (w : World),
    for_of (map VString names) (@resolve_body R existingLayers)
      (resolvedAny, resolvedLayers) w
    = (Normal (resolvedAny || existsb (fun n => negb (isArn n)) names,
               resolvedLayers ++ map (resolve_entry existingLayers) names), w).
Proof.
  induction names as [|n names IH]; intros resolvedAny resolvedLayers w.
  - simpl. now rewrite orb_false_r, app_nil_r.
  - cbn [map for_of existsb].
    rewrite (bind_normal _ _ _ (resolve_body_string n resolvedAny resolvedLayers w)), IH.
    now rewrite orb_assoc, <- app_assoc.
Qed.

(** An entry that is not a string stops the loop: [isArn] throws on it,
    outside the inner [try]. *)
Lemma resolve_loop_throws (ls : list value) (v : value) (e : error) :
  find (fun x => match x with VString _ => false | _ => true end) ls
    = Some v ->
  match_error v = Some e ->
  forall (st : bool * list value) (w : World),
    for_of ls (@resolve_body R existingLayers) st w = (Throw e, w).
Proof.
  induction ls as [|x ls IH]; intros Hfind He st w; [discriminate Hfind|].
  cbn [for_of]. destruct st as [resolvedAny resolvedLayers].
  destruct x as [s| |name]; simpl in Hfind.
  - rewrite (bind_normal _ _ _ (resolve_body_string s resolvedAny resolvedLayers w)).
    now apply IH.
  - injection Hfind as <-. injection He as <-. reflexivity.
  - injection Hfind as <-. injection He as <-. reflexivity.
Qed.

Lemma resolve_throws (ls : list value) (v : value) (e : error) (w : World) :
  find (fun x => match x with VString _ => false | _ => true end) ls
    = Some v ->
  match_error v = Some e ->
  _resolveLayerArns (R := R) (Some ls) existingLayers w = (Throw e, w).
Proof.
  intros Hfind He. unfold _resolveLayerArns, iterable. rewrite bind_ret.
  change (bind (for_of ls (@resolve_body R existingLayers) (false, []))
            (fun st : bool * list value =>
               let '(resolvedAny, resolvedLayers) := st in
               (if resolvedAny : bool
                then cli_log ("Resolved layer ARNs: " ++ array_toString resolvedLayers)
                else ret tt) ;;
               ret resolvedLayers) w
          = (Throw e, w)).
  now rewrite (bind_throw _ _ _ (resolve_loop_throws ls Hfind He (false, []) w)).
Qed.

Lemma resolve_strings (names : list string) (w : World) :
  let out := map (resolve_entry existingLayers) names in
  _resolveLayerArns (R := R) (Some (map VString names)) existingLayers w
  = (Normal out,
     if existsb (fun n => negb (isArn n)) names
     then add_log (CliLog ("Resolved layer ARNs: " ++ array_toString out)) w
     else w).
Proof.
  intros out. unfold _resolveLayerArns.
  unfold iterable. rewrite bind_ret.
  change (bind (for_of (map VString names) (@resolve_body R existingLayers) (false, []))
            (fun st : bool * list value =>
               let '(resolvedAny, resolvedLayers) := st in
               (if resolvedAny : bool
                then cli_log ("Resolved layer ARNs: " ++ array_toString resolvedLayers)
                else ret tt) ;;
               ret resolvedLayers) w = 
          (Normal out,
           if existsb (fun n => negb (isArn n)) names
           then add_log (CliLog ("Resolved layer ARNs: " ++ array_toString out)) w
           else w)).
  rewrite (bind_normal _ _ _ (resolve_loop names false [] w)).
  cbn [orb app]. fold out.
  destruct (existsb (fun n => negb (isArn n)) names); reflexivity.
Qed.

End ResolveFacts.

(** ** The regular expression accepts the fully-qualified form *)

Section RegexFacts.

Import Regex.

Lemma strip_prefix_app (l s : string) : strip_prefix l (l ++ s) = Some s.
Proof.
  induction l as [|c l IH]; simpl; [reflexivity|].
  now rewrite Ascii.eqb_refl.
Qed.

Lemma component_cons (c : ascii) (s : string) :
  component (String c s) = true ->
  is_dot c = true /\ (s = EmptyString \/ component s = true).
Proof.
  unfold component. simpl. intros H.
  apply andb_prop in H. destruct H as [Hc Hs]. split; [exact Hc|].
  destruct s as [|d s]; [now left|right]. exact Hs.
Qed.

Lemma lazy_plus_component (k : string -> bool) (a rest : string) :
  component a = true -> k rest = true -> lazy_plus k (a ++ rest) = true.
Proof.
  intros Ha Hk. induction a as [|c a IH].
  - discriminate Ha.
  - apply component_cons in Ha. destruct Ha as [Hc [->|Ha]]; simpl.
    + now rewrite Hc, Hk.
    + rewrite Hc, (IH Ha). now rewrite orb_true_r.
Qed.

Lemma search_here (toks : list token) (s : string) :
  match_here toks s = true -> search toks s = true.
Proof. intros H. destruct s; simpl; now rewrite H. Qed.

Lemma search_suffix (toks : list token) (before s : string) :
  search toks s = true -> search toks (before ++ s) = true.
Proof.
  intros H. induction before as [|c before IH]; simpl; [exact H|].
  rewrite IH. now rewrite orb_true_r.
Qed.



End RegexFacts.

(** ** Layer lists that are already resolved *)

Lemma qualified_strings (ls : list value) :
  forallb fully_qualified ls = true ->
  exists names, ls = map VString names /\ forallb isArn names = true.
Proof.
  induction ls as [|v ls IH]; simpl; intros H.
  - now exists [].
  - apply andb_prop in H. destruct H as [Hv Hls].
    destruct (IH Hls) as (names & -> & Hnames).
    destruct v as [s| |name]; [|discriminate Hv|discriminate Hv].
    exists (s :: names). simpl in *. now rewrite Hv, Hnames.
Qed.

Lemma resolve_entry_arns (existingLayers : obj string) (names : list string) :
  forallb isArn names = true ->
  map (resolve_entry existingLayers) names = map VString names
  /\ existsb (fun n => negb (isArn n)) names = false.
Proof.
  induction names as [|n names IH]; simpl; intros H; [now split|].
  apply andb_prop in H. destruct H as [Hn Hnames].
  destruct (IH Hnames) as [IH1 IH2].
  unfold resolve_entry at 1. now rewrite Hn, IH1, IH2.
Qed.

Lemma resolve_qualified (R : Type) (existingLayers : obj string)
    (ls : list value) (w : World) :
  forallb fully_qualified ls = true ->
  _resolveLayerArns (R := R) (Some ls) existingLayers w = (Normal ls, w).
Proof.
  intros H. destruct (qualified_strings ls H) as (names & -> & Hnames).
  rewrite resolve_strings.
  destruct (resolve_entry_arns existingLayers names Hnames) as [-> ->].
  reflexivity.
Qed.

(** ** Frames: what a computation leaves alone *)

Section Frame.

Variable I : World -> World -> Prop.
Hypothesis I_refl : forall w, I w w.
Hypothesis I_trans : forall w1 w2 w3, I w1 w2 -> I w2 w3 -> I w1 w3.

Lemma preserves_ret {R A : Type} (a : A) : preserves I (ret (R := R) a).
Proof. intros w c w' H. injection H as _ <-. apply I_refl. Qed.

Lemma preserves_throw {R A : Type} (e : error) :
  preserves I (throw (R := R) (A := A) e).
Proof. intros w c w' H. injection H as _ <-. apply I_refl. Qed.

Lemma preserves_return {R A : Type} (r : R) :
  preserves I (return_ (A := A) r).
Proof. intros w c w' H. injection H as _ <-. apply I_refl. Qed.

Lemma preserves_gets {R A : Type} (f : World -> A) :
  preserves I (gets (R := R) f).
Proof. intros w c w' H. injection H as _ <-. apply I_refl. Qed.

Lemma preserves_modify {R : Type} (f : World -> World) :
  (forall w, I w (f w)) -> preserves I (modify (R := R) f).
Proof. intros Hf w c w' H. injection H as _ <-. apply Hf. Qed.

Lemma preserves_bind {R A B : Type} (m : M R A) (k : A -> M R B) :
  preserves I m -> (forall a, preserves I (k a)) -> preserves I (bind m k).
Proof.
  intros Hm Hk w c w' H. unfold bind in H.
  destruct (m w) as [[a|r|e] w1] eqn:E.
  - eapply I_trans; [eapply Hm; eassumption | eapply Hk; eassumption].
  - injection H as _ <-. eapply Hm; eassumption.
  - injection H as _ <-. eapply Hm; eassumption.
Qed.

Lemma preserves_for_of {R A S : Type} (xs : list A) (body : A -> S -> M R S) :
  (forall x s, preserves I (body x s)) ->
  forall s, preserves I (for_of xs body s).
Proof.
  intros Hbody. induction xs as [|x xs IH]; intros s; simpl.
  - apply preserves_ret.
  - apply preserves_bind; [apply Hbody | intros s'; apply IH].
Qed.

Lemma preserves_try_catch {R A : Type} (body : M R A) (handler : error -> M R A) :
  preserves I body -> (forall e, preserves I (handler e)) ->
  preserves I (try_catch body handler).
Proof.
  intros Hb Hh w c w' H. unfold try_catch in H.
  destruct (body w) as [[a|r|e] w1] eqn:E.
  - injection H as _ <-. eapply Hb; eassumption.
  - injection H as _ <-. eapply Hb; eassumption.
  - eapply I_trans; [eapply Hb; eassumption | eapply Hh; eassumption].
Qed.

Lemma preserves_call {R R' : Type} (undefined : R) (body : M R unit) :
  preserves I body -> preserves I (call (R' := R') undefined body).
Proof.
  intros Hb w c w' H. unfold call in H.
  destruct (body w) as [[a|r|e] w1] eqn:E; injection H as _ <-;
    eapply Hb; eassumption.
Qed.

Lemma preserves_request {R A : Type} (response : error + A) :
  preserves I (request (R := R) response).
Proof.
  destruct response; [apply preserves_throw | apply preserves_ret].
Qed.

Lemma preserves_iterable {R A : Type} (what : string) (xs : option (list A)) :
  preserves I (iterable (R := R) what xs).
Proof.
  destruct xs; [apply preserves_ret | apply preserves_throw].
Qed.

Lemma preserves_cli_log {R : Type} (msg : string) :
  (forall w l, I w (add_log l w)) -> preserves I (cli_log (R := R) msg).
Proof. intros H. apply preserves_modify. intros w. apply H. Qed.

(** The lookups of the provider never touch the world's framed part. *)
Lemma preserves_getRestApiPathIds {R : Type} (p : Provider) (restApiId : string) :
  preserves I (getRestApiPathIds (R := R) p restApiId).
Proof.
  unfold getRestApiPathIds.
  apply preserves_bind; [apply preserves_request|].
  intros [items|]; [|apply preserves_ret].
  apply preserves_for_of. intros. apply preserves_ret.
Qed.

Lemma preserves_findRestApiIdByName {R : Type} (p : Provider) (name : string) :
  preserves I (findRestApiIdByName (R := R) p name).
Proof.
  unfold findRestApiIdByName. apply preserves_call.
  apply preserves_bind; [apply preserves_request|].
  intros [items|]; [|apply preserves_ret].
  apply preserves_for_of. intros x s.
  destruct (String.eqb name (restApi_name x));
    [apply preserves_return | apply preserves_ret].
Qed.

(** [_resolveLayerArns] only ever writes log lines. *)
Lemma preserves_resolve {R : Type} (ls : option (list value)) (existing : obj string) :
  (forall w l, I w (add_log l w)) ->
  preserves I (_resolveLayerArns (R := R) ls existing).
Proof.
  intros Hlog. unfold _resolveLayerArns.
  apply preserves_bind; [apply preserves_iterable|]. intros l.
  apply preserves_bind.
  - apply preserves_for_of. intros layer [resolvedAny resolvedLayers].
    apply preserves_bind.
    + destruct layer; [apply preserves_ret | apply preserves_throw | apply preserves_throw].
    + intros [|]; [apply preserves_ret|].
      apply preserves_try_catch.
      * apply preserves_bind; [apply preserves_ret|]. intros. apply preserves_ret.
      * intros e. apply preserves_bind; [now apply preserves_cli_log|].
        intros. apply preserves_ret.
  - intros [resolvedAny resolvedLayers].
    apply preserves_bind.
    + destruct resolvedAny; [now apply preserves_cli_log | apply preserves_ret].
    + intros. apply preserves_ret.
Qed.

(** Layer resolution writes [provider.layers], the functions and the log. *)
Lemma preserves_resolveLayerArns {R : Type} (p : Provider) :
  (forall w l, I w (add_log l w)) ->
  (forall w ls, I w (set_service (with_provider_layers ls) w)) ->
  (forall w f, I w (set_service (fun s => with_functions (f s) s) w)) ->
  preserves I (resolveLayerArns (R := R) p).
Proof.
  intros Hlog Hpl Hfs. unfold resolveLayerArns.
  apply preserves_bind; [apply preserves_request|]. intros response.
  apply preserves_bind.
  { apply preserves_for_of. intros layer existing.
    apply preserves_bind.
    - unfold latest_arn. destruct (LatestMatchingVersion layer);
        [apply preserves_ret | apply preserves_throw].
    - intros. apply preserves_ret. }
  intros existing.
  apply preserves_bind; [apply preserves_gets|]. intros pl.
  apply preserves_bind; [now apply preserves_resolve|]. intros resolved.
  apply preserves_bind; [apply preserves_modify; intros; apply Hpl|]. intros _.
  apply preserves_bind; [apply preserves_gets|]. intros [fs|]; [|apply preserves_ret].
  apply preserves_bind; [|intros; apply preserves_ret].
  apply preserves_for_of. intros [fname func] i.
  destruct (layers func) as [ls|]; [|apply preserves_ret].
  apply preserves_bind; [now apply preserves_resolve|]. intros resolved'.
  apply preserves_bind; [|intros; apply preserves_ret].
  apply preserves_modify. intros w.
  apply (Hfs w (fun s => option_map
    (update_at i (fun '(k, f) => (k, with_layers (Some resolved') f))) (functions s))).
Qed.

End Frame.

(** ** Layer resolution on a model that is already resolved *)

Lemma bind_gets {R A B : Type} (f : World -> A) (k : A -> M R B) w :
  bind (gets f) k w = k (f w) w.
Proof. reflexivity. Qed.

Lemma bind_modify {R B : Type} (f : World -> World) (k : unit -> M R B) w :
  bind (modify f) k w = k tt (f w).
Proof. reflexivity. Qed.

Lemma update_at_app {A : Type} (f : A -> A) (done : list A) (x : A) (rest : list A) :
  update_at (length done) f (done ++ x :: rest) = done ++ f x :: rest.
Proof. induction done as [|d done IH]; simpl; [reflexivity | now rewrite IH]. Qed.

Lemma with_layers_same (func : FunctionDescriptor) (ls : list value) :
  layers func = Some ls -> with_layers (Some ls) func = func.
Proof. destruct func; simpl; now intros ->. Qed.

Lemma set_provider_layers_same (w : World) (ls : list value) :
  provider_layers (service w) = Some ls ->
  set_service (with_provider_layers (Some ls)) w = w.
Proof. destruct w as [[pl ag fs] c l]; simpl; now intros ->. Qed.

Lemma set_functions_same (w : World) (f : Service -> option (obj FunctionDescriptor)) :
  f (service w) = functions (service w) ->
  set_service (fun s => with_functions (f s) s) w = w.
Proof.
  destruct w as [[pl ag fs] c l]. unfold set_service, with_functions. simpl.
  now intros ->.
Qed.

Section LayerResolutionFacts.

Variable R : Type.
Variable provider : Provider.
(** Reading the inventory does not touch the world, and never [return]s. *)
Lemma inventory_loop (ls : list Layer) :
  forall (existing : obj string) (w : World),
    (exists existing', for_of ls (@inventory_body R) existing w = (Normal existing', w))
    \/ (exists e, for_of ls (@inventory_body R) existing w = (Throw e, w)).
Proof.
  induction ls as [|l ls IH]; intros existing w; simpl.
  - left. now exists existing.
  - destruct (LatestMatchingVersion l) as [v|] eqn:El.
    + assert (Hstep : (@inventory_body R) l existing w
                      = (Normal (obj_assign existing (LayerName l) (LayerVersionArn v)), w))
        by (unfold inventory_body, latest_arn; now rewrite El).
      rewrite (bind_normal _ _ _ Hstep). apply IH.
    + assert (Hstep : (@inventory_body R) l existing w
                      = (Throw (TypeError
                           "Cannot read properties of undefined (reading 'LayerVersionArn')"), w))
        by (unfold inventory_body, latest_arn; now rewrite El).
      rewrite (bind_throw _ _ _ Hstep). right. eexists. reflexivity.
Qed.

Lemma inventory_loop_complete (ls : list Layer) :
  forallb (fun l => match LatestMatchingVersion l with Some _ => true | None => false end) ls = true ->
  forall (existing : obj string) (w : World),
    exists existing', for_of ls (@inventory_body R) existing w = (Normal existing', w).
Proof.
  induction ls as [|l ls IH]; intros Hls existing w; simpl.
  - now exists existing.
  - simpl in Hls. apply andb_prop in Hls. destruct Hls as [Hl Hls].
    destruct (LatestMatchingVersion l) as [v|] eqn:El; [|discriminate Hl].
    assert (Hstep : (@inventory_body R) l existing w
                    = (Normal (obj_assign existing (LayerName l) (LayerVersionArn v)), w))
      by (unfold inventory_body, latest_arn; now rewrite El).
    rewrite (bind_normal _ _ _ Hstep). now apply IH.
Qed.

Lemma functions_loop_qualified (existingLayers : obj string)
    (todo : obj FunctionDescriptor) :
  forall (done : obj FunctionDescriptor) (w : World),
    functions (service w) = Some (done ++ todo) ->
    forallb (fun entry => qualified_list (layers (snd entry))) todo = true ->
    for_of todo ((@function_body R) existingLayers) (length done) w
    = (Normal (length done + length todo), w).
Proof.
  induction todo as [|[fname func] todo IH]; intros done w Hfs Hq; simpl.
  - now rewrite Nat.add_0_r.
  - simpl in Hq. apply andb_prop in Hq. destruct Hq as [Hfunc Hq].
    assert (Hstep : (@function_body R) existingLayers (fname, func) (length done) w
                    = (Normal (S (length done)), w)).
    { unfold function_body. destruct (layers func) as [ls|] eqn:El; [|reflexivity].
      rewrite (bind_normal _ _ _ (resolve_qualified R existingLayers ls w Hfunc)).
      rewrite bind_modify, set_functions_same; [reflexivity|].
      rewrite Hfs. simpl. rewrite update_at_app.
      now rewrite (with_layers_same func El). }
    rewrite (bind_normal _ _ _ Hstep).
    replace (S (length done)) with (length (done ++ [(fname, func)]))
      by (rewrite length_app; simpl; lia).
    rewrite IH.
    + rewrite length_app. simpl. do 2 f_equal. lia.
    + now rewrite <- app_assoc.
    + exact Hq.
Qed.

(** On a model whose layer lists are all fully qualified, layer resolution
    changes nothing: neither the model, nor the configuration, nor the log. *)
Lemma resolveLayerArns_qualified (w : World) :
  all_qualified (service w) = true ->
  snd (resolveLayerArns (R := R) provider w) = w.
Proof.
  intros Hq. unfold all_qualified in Hq.
  apply andb_prop in Hq. destruct Hq as [Hpl Hfs].
  unfold resolveLayerArns.
  destruct (listLayers provider 50) as [e|response]; [reflexivity|].
  unfold request. rewrite bind_ret.
  change (fun (layer : Layer) (existingLayers : obj string) =>
            arn <- latest_arn layer ;;
            ret (obj_assign existingLayers (LayerName layer) arn))
    with (@inventory_body R).
  destruct (inventory_loop (match response with Some ls => ls | None => [] end) [] w)
    as [[existing E]|[e E]].
  2:{ now rewrite (bind_throw _ _ _ E). }
  rewrite (bind_normal _ _ _ E), bind_gets.
  destruct (provider_layers (service w)) as [pl|] eqn:Epl; [|reflexivity].
  rewrite (bind_normal _ _ _ (resolve_qualified R existing pl w Hpl)).
  rewrite bind_modify, (set_provider_layers_same w Epl), bind_gets.
  destruct (functions (service w)) as [fs|] eqn:Efs; [|reflexivity].
  pose proof (functions_loop_qualified existing fs [] w Efs Hfs) as Hloop.
  simpl in Hloop.
  change (snd ((for_of fs ((@function_body R) existing) 0 ;; ret tt) w) = w).
  now rewrite (bind_normal _ _ _ Hloop).
Qed.

(** With a well-formed inventory and a provider-level list, it also runs to
    its end. *)
Lemma resolveLayerArns_qualified_completes (w : World) (response : option (list Layer)) :
  all_qualified (service w) = true ->
  listLayers provider 50 = inr response ->
  forallb (fun l => match LatestMatchingVersion l with Some _ => true | None => false end)
    (match response with Some ls => ls | None => [] end) = true ->
  provider_layers (service w) <> None ->
  resolveLayerArns (R := R) provider w = (Normal tt, w).
Proof.
  intros Hq Hresp Hinv Hsome. unfold all_qualified in Hq.
  apply andb_prop in Hq. destruct Hq as [Hpl Hfs].
  unfold resolveLayerArns. rewrite Hresp.
  unfold request. rewrite bind_ret.
  change (fun (layer : Layer) (existingLayers : obj string) =>
            arn <- latest_arn layer ;;
            ret (obj_assign existingLayers (LayerName layer) arn))
    with (@inventory_body R).
  destruct (inventory_loop_complete _ Hinv [] w) as [existing E].
  rewrite (bind_normal _ _ _ E), bind_gets.
  destruct (provider_layers (service w)) as [pl|] eqn:Epl; [|congruence].
  rewrite (bind_normal _ _ _ (resolve_qualified R existing pl w Hpl)).
  rewrite bind_modify, (set_provider_layers_same w Epl), bind_gets.
  destruct (functions (service w)) as [fs|] eqn:Efs; [|reflexivity].
  pose proof (functions_loop_qualified existing fs [] w Efs Hfs) as Hloop.
  simpl in Hloop.
  change ((for_of fs ((@function_body R) existing) 0 ;; ret tt) w = (Normal tt, w)).
  now rewrite (bind_normal _ _ _ Hloop).
Qed.

(** Without a provider-level list, layer resolution throws before it has
    written anything. *)
Lemma resolveLayerArns_without_provider_layers (w : World) :
  provider_layers (service w) = None ->
  exists e,
    resolveLayerArns (R := R) provider w = (Throw e, w)
    /\ (forall response,
          listLayers provider 50 = inr response ->
          forallb (fun l => match LatestMatchingVersion l with
                            | Some _ => true | None => false end)
            (match response with Some ls => ls | None => [] end) = true ->
          e = TypeError "layers is not iterable").
Proof.
  intros Hnone. unfold resolveLayerArns.
  destruct (listLayers provider 50) as [e|response] eqn:Eresp.
  - exists e. split; [reflexivity | discriminate].
  - unfold request. rewrite bind_ret. change (fun (layer : Layer) (existingLayers : obj string) =>
            arn <- latest_arn layer ;;
            ret (obj_assign existingLayers (LayerName layer) arn))
    with (@inventory_body R).
    destruct (inventory_loop (match response with Some ls => ls | None => [] end) [] w)
      as [[existing E]|[e E]].
    + exists (TypeError "layers is not iterable"). split; [|reflexivity].
      rewrite (bind_normal _ _ _ E), bind_gets, Hnone. reflexivity.
    + exists e. split; [now rewrite (bind_throw _ _ _ E)|].
      intros response' Heq Hwf. injection Heq as <-.
      destruct (inventory_loop_complete _ Hwf [] w) as [existing E'].
      rewrite E' in E. discriminate E.
Qed.

End LayerResolutionFacts.

(* ================================================================== *)
(** * The claims *)

(** ** Layer resolution *)




(** A layer called [__proto__] resolves to the prototype object, whatever
    the response listed under that name. *)
Example proto_layer_resolves_to_the_prototype :
  resolveLayerArns (R := unit)
    {| getRestApis := fun _ => inr (Some Scenario.gateways);
       getResources := fun _ _ => inr (Some Scenario.gateway_resources);
       listLayers := fun _ =>
         inr (Some [ {| LayerName := "__proto__";
                        LatestMatchingVersion :=
                          Some {| LayerVersionArn := Scenario.common_arn |} |} ]) |}
    (Scenario.make_world (Some [VString "__proto__"]) None (Some ["/users"]) true)
  = (Normal tt,
     add_log (CliLog "Resolved layer ARNs: [object Object]")
       (Scenario.make_world (Some [VMember "__proto__"]) None (Some ["/users"]) true)).
Proof. reflexivity. Qed.

(** C4, evaluated where it fails: the function's list is [shared-utils]
    next to a known layer, and the inventory only has [common].  The run goes
    on, but the unresolved entry stays in the list as [undefined], and the
    only line logged is the [Resolved layer ARNs] one, which does not name
    [shared-utils]. *)
Theorem unresolved_layer_is_neither_dropped_nor_named :
  _resolveLayerArns (R := unit)
    (Some [VString "shared-utils"; VString "common"])
    [("common", Scenario.common_arn)] Scenario.scenario_b
  = (Normal [VUndefined; VString Scenario.common_arn],
     add_log
       (CliLog "Resolved layer ARNs: ,arn:aws:lambda:us-east-1:000000000000:layer:common:1")
       Scenario.scenario_b).
Proof. reflexivity. Qed.



(** ** What the run leaves alone *)

Section AbruptFrame.

Variable I : World -> World -> Prop.
Hypothesis I_trans : forall w1 w2 w3, I w1 w2 -> I w2 w3 -> I w1 w3.

Lemma abrupt_of_preserves {R A : Type} (m : M R A) :
  preserves I m -> abrupt_preserves I m.
Proof. intros Hm w c w' H _. eapply Hm; eassumption. Qed.

Lemma abrupt_bind {R A B : Type} (m : M R A) (k : A -> M R B) :
  preserves I m -> (forall a, abrupt_preserves I (k a)) ->
  abrupt_preserves I (bind m k).
Proof.
  intros Hm Hk w c w' H Hc. unfold bind in H.
  destruct (m w) as [[a|r|e] w1] eqn:E.
  - eapply I_trans; [eapply Hm; eassumption | eapply Hk; eassumption].
  - injection H as _ <-. eapply Hm; eassumption.
  - injection H as _ <-. eapply Hm; eassumption.
Qed.

Lemma abrupt_of_normal {R A : Type} (m : M R A) :
  (forall w, exists a w', m w = (Normal a, w')) -> abrupt_preserves I m.
Proof.
  intros Hm w c w' H Hc. destruct (Hm w) as (a & w1 & E).
  rewrite E in H. injection H as <- _. now destruct (Hc a).
Qed.

End AbruptFrame.

Lemma same_apiGateway_refl w : same_apiGateway w w.
Proof. reflexivity. Qed.

Lemma same_apiGateway_trans w1 w2 w3 :
  same_apiGateway w1 w2 -> same_apiGateway w2 w3 -> same_apiGateway w1 w3.
Proof. unfold same_apiGateway. congruence. Qed.

Lemma same_config_refl w : same_config w w.
Proof. reflexivity. Qed.

Lemma same_config_trans w1 w2 w3 :
  same_config w1 w2 -> same_config w2 w3 -> same_config w1 w3.
Proof. unfold same_config. congruence. Qed.

Lemma same_service_refl w : same_service w w.
Proof. reflexivity. Qed.

Lemma same_service_trans w1 w2 w3 :
  same_service w1 w2 -> same_service w2 w3 -> same_service w1 w3.
Proof. unfold same_service. congruence. Qed.

Create HintDb frames.

#[local] Hint Resolve same_apiGateway_refl same_apiGateway_trans
  same_config_refl same_config_trans same_service_refl same_service_trans
  eq_refl eq_trans : frames.

Lemma resolveLayerArns_same_apiGateway {R : Type} (p : Provider) :
  preserves same_apiGateway (resolveLayerArns (R := R) p).
Proof. apply preserves_resolveLayerArns; eauto with frames; reflexivity. Qed.

Lemma resolveLayerArns_same_config {R : Type} (p : Provider) :
  preserves same_config (resolveLayerArns (R := R) p).
Proof. apply preserves_resolveLayerArns; eauto with frames; reflexivity. Qed.

Lemma findRestApiIdByName_pure {R : Type} (p : Provider) (name : string) :
  preserves eq (findRestApiIdByName (R := R) p name).
Proof. apply preserves_findRestApiIdByName; eauto with frames. Qed.

Lemma getRestApiPathIds_pure {R : Type} (p : Provider) (restApiId : string) :
  preserves eq (getRestApiPathIds (R := R) p restApiId).
Proof. apply preserves_getRestApiPathIds; eauto with frames. Qed.

Section SelectionFrame.

Variable I : World -> World -> Prop.
Hypothesis I_refl : forall w, I w w.
Hypothesis I_trans : forall w1 w2 w3, I w1 w2 -> I w2 w3 -> I w1 w3.

(** Inference writes [config.resources] only. *)
Lemma preserves_inferResources {R : Type} (pathIds : obj string) :
  (forall w rs, I w (set_config (with_resources rs) w)) ->
  preserves I (inferResources (R := R) pathIds).
Proof.
  intros Hcfg. unfold inferResources.
  apply preserves_bind; auto using preserves_gets.
  intros [rs|]; [now apply preserves_ret|].
  apply preserves_bind; auto using preserves_gets. intros fs.
  apply preserves_bind; auto.
  - destruct fs as [fs|]; [|now apply preserves_ret].
    apply preserves_bind; auto.
    + apply preserves_modify. intros w. apply Hcfg.
    + intros. now apply preserves_ret.
  - intros new. destruct (Nat.eqb (length new) 0); [|now apply preserves_ret].
    apply preserves_modify. intros w. apply Hcfg.
Qed.

(** Selection writes log lines only. *)
Lemma preserves_selectResources (restApiId : string) (pathIds : obj string)
    (rs : option (list string)) :
  (forall w l, I w (add_log l w)) ->
  preserves I (selectResources restApiId pathIds rs).
Proof.
  intros Hlog. unfold selectResources.
  apply preserves_bind; auto using preserves_iterable. intros l.
  apply preserves_for_of; auto. intros rp acc.
  assert (Habort : preserves I
            (cli_log (R := unit) (unable_to_find_resource rp restApiId) ;;
             return_ (A := obj found) tt)).
  { apply preserves_bind; auto using preserves_cli_log.
    intros. now apply preserves_return. }
  destruct (obj_index pathIds rp) as [id|]; [|exact Habort].
  destruct (truthy_found id); [now apply preserves_ret | exact Habort].
Qed.

End SelectionFrame.

(** Until it commits, the run does not write [provider.apiGateway]: a
    [try] block that ends by [return] or [throw] leaves it as it was. *)
Lemma importApiGateway_try_abrupt (p : Provider) :
  abrupt_preserves same_apiGateway (importApiGateway_try p).
Proof.
  assert (Hlog : forall w l, same_apiGateway w (add_log l w)) by reflexivity.
  assert (Habort : forall msg,
            abrupt_preserves same_apiGateway
              (cli_log (R := unit) msg ;; return_ (A := unit) tt)).
  { intros msg. apply abrupt_of_preserves.
    apply preserves_bind; eauto with frames.
    - apply preserves_cli_log; eauto with frames.
    - intros. apply preserves_return; eauto with frames. }
  unfold importApiGateway_try.
  apply abrupt_bind; eauto with frames.
  { apply resolveLayerArns_same_apiGateway. }
  intros _. apply abrupt_bind; eauto with frames.
  { apply preserves_gets; eauto with frames. }
  intros name. apply abrupt_bind; eauto with frames.
  { apply preserves_findRestApiIdByName; eauto with frames. }
  intros [restApiId|]; [|apply Habort].
  destruct (negb (truthy restApiId)); [apply Habort|].
  apply abrupt_bind; eauto with frames.
  { apply preserves_getRestApiPathIds; eauto with frames. }
  intros pathIds. apply abrupt_bind; eauto with frames.
  { apply preserves_gets; eauto with frames. }
  intros path.
  destruct (obj_index pathIds path) as [rootResourceId|]; [|apply Habort].
  destruct (negb (truthy_found rootResourceId)); [apply Habort|].
  apply abrupt_bind; eauto with frames.
  { apply preserves_inferResources; eauto with frames. reflexivity. }
  intros _. apply abrupt_bind; eauto with frames.
  { apply preserves_gets; eauto with frames. }
  intros rs. apply abrupt_bind; eauto with frames.
  { apply preserves_selectResources; eauto with frames. }
  intros resourcesToImport. apply abrupt_of_normal.
  intros w. eexists. eexists. reflexivity.
Qed.

(** ** The orchestrator's failures *)

(** What [importApiGateway] makes of its [try] block. *)
Lemma importApiGateway_of_try (p : Provider) (w : World) :
  importApiGateway p w
  = match importApiGateway_try p w with
    | (Throw e, w') => (Normal tt, add_log (ConsoleError (error_banner e)) w')
    | (_, w') => (Normal tt, w')
    end.
Proof.
  unfold importApiGateway, call, try_catch.
  destruct (importApiGateway_try p w) as [[[]|[]|e] w']; reflexivity.
Qed.

(** C10.  When the model has no provider-level [layers], the [try] block
    throws inside [resolveLayerArns] with the world untouched (against a
    well-formed inventory the error is the TypeError of iterating
    [undefined]); the run ends with the model and the configuration as they
    were, [provider.apiGateway] included, and one [console.error] line. *)
Theorem missing_provider_layers_abort_the_run :
  forall (p : Provider) (w : World),
    provider_layers (service w) = None ->
    exists e,
      importApiGateway_try p w = (Throw e, w)
      /\ importApiGateway p w
         = (Normal tt, add_log (ConsoleError (error_banner e)) w)
      /\ provider_apiGateway (service (snd (importApiGateway p w)))
         = provider_apiGateway (service w)
      /\ (forall response,
            listLayers p 50 = inr response ->
            forallb (fun l => match LatestMatchingVersion l with
                              | Some _ => true | None => false end)
              (match response with Some ls => ls | None => [] end) = true ->
            e = TypeError "layers is not iterable").
Proof.
  intros p w Hnone.
  destruct (@resolveLayerArns_without_provider_layers unit p w Hnone)
    as (e & Hthrow & Hwhich).
  assert (Htry : importApiGateway_try p w = (Throw e, w)).
  { unfold importApiGateway_try. now rewrite (bind_throw _ _ _ Hthrow). }
  exists e. rewrite importApiGateway_of_try, Htry. simpl. auto.
Qed.

Lemma missing_provider_layers_abort_the_run_witness :
  provider_layers (service Scenario.without_provider_layers) = None
  /\ exists e,
      importApiGateway_try Scenario.aws Scenario.without_provider_layers
        = (Throw e, Scenario.without_provider_layers)
      /\ importApiGateway Scenario.aws Scenario.without_provider_layers
         = (Normal tt,
            add_log (ConsoleError (error_banner e)) Scenario.without_provider_layers)
      /\ provider_apiGateway
           (service (snd (importApiGateway Scenario.aws Scenario.without_provider_layers)))
         = provider_apiGateway (service Scenario.without_provider_layers)
      /\ (forall response,
            listLayers Scenario.aws 50 = inr response ->
            forallb (fun l => match LatestMatchingVersion l with
                              | Some _ => true | None => false end)
              (match response with Some ls => ls | None => [] end) = true ->
            e = TypeError "layers is not iterable").
Proof.
  split; [reflexivity|].
  apply (missing_provider_layers_abort_the_run Scenario.aws
           Scenario.without_provider_layers).
  reflexivity.
Defined.

(** The same model with a provider-level list imports the gateway: the
    abort above is due to the missing list alone. *)
Example provider_layers_present_commits :
  fst (importApiGateway_try Scenario.aws
         (set_service (with_provider_layers (Some []))
            Scenario.without_provider_layers))
  = Normal tt.
Proof. reflexivity. Qed.

(** ** Resource selection *)

Lemma matchingPaths_filter (pathIds : obj string) (eventPath : string) :
  forall newResourcePaths,
    matchingPaths pathIds eventPath newResourcePaths
    = newResourcePaths
        ++ filter (fun existingPath => String.prefix existingPath eventPath)
             (obj_keys pathIds).
Proof.
  unfold matchingPaths, obj_entries, obj_keys.
  induction pathIds as [|[existingPath pathId] pathIds IH]; intros acc; simpl.
  - now rewrite app_nil_r.
  - rewrite IH. destruct (String.prefix existingPath eventPath); simpl.
    + now rewrite <- app_assoc.
    + reflexivity.
Qed.

Lemma eventPaths_filter (pathIds : obj string) (evs : list Event) :
  forall newResourcePaths,
    fold_left (eventPaths pathIds) evs newResourcePaths
    = newResourcePaths
        ++ flat_map
             (fun eventPath =>
                filter (fun existingPath => String.prefix existingPath eventPath)
                  (obj_keys pathIds))
             (flat_map event_paths evs).
Proof.
  induction evs as [|ev evs IH]; intros acc; simpl.
  - now rewrite app_nil_r.
  - rewrite IH, flat_map_app, app_assoc. f_equal.
    unfold eventPaths, event_paths.
    destruct (http ev) as [h|]; [destruct (http_path h) as [p|]|]; simpl.
    + rewrite matchingPaths_filter. now rewrite app_nil_r.
    + now rewrite app_nil_r.
    + now rewrite app_nil_r.
Qed.

Lemma functionPaths_candidates (pathIds : obj string) (fs : obj FunctionDescriptor) :
  forall newResourcePaths,
    fold_left (functionPaths pathIds) fs newResourcePaths
    = newResourcePaths ++ candidate_paths (Some fs) pathIds.
Proof.
  unfold candidate_paths.
  induction fs as [|[fname func] fs IH]; intros acc; simpl.
  - now rewrite app_nil_r.
  - rewrite IH. simpl. rewrite flat_map_app, app_assoc. f_equal.
    unfold functionPaths. simpl.
    destruct (events func) as [evs|]; simpl.
    + apply eventPaths_filter.
    + now rewrite app_nil_r.
Qed.

(** C2.  With [config.resources] left out, inference sets it to the
    candidates of the specification (every existing gateway path that is a
    string prefix of an HTTP event path, per event and in enumeration order,
    duplicates kept) when there is at least one, and to all the keys of the
    path index when there is none; a model without HTTP events has no
    candidate. *)
Theorem inferred_resources_are_the_candidates :
  forall (pathIds : obj string) (w : World),
    config_resources (config w) = None ->
    inferResources (R := unit) pathIds w
    = (Normal tt,
       set_config
         (with_resources
            (Some (match candidate_paths (functions (service w)) pathIds with
                   | [] => obj_keys pathIds
                   | candidates => candidates
                   end)))
         w)
    /\ (http_paths (functions (service w)) = [] ->
        candidate_paths (functions (service w)) pathIds = []).
Proof.
  intros pathIds w Hunset. split.
  - unfold inferResources. rewrite bind_gets, Hunset, bind_gets.
    destruct (functions (service w)) as [fs|] eqn:Efs.
    + unfold obj_entries. rewrite functionPaths_candidates. simpl.
      destruct (candidate_paths (Some fs) pathIds) as [|c cs]; reflexivity.
    + reflexivity.
  - intros H. unfold candidate_paths. now rewrite H.
Qed.

Lemma inferred_resources_are_the_candidates_witness :
  config_resources (config Scenario.scenario_c) = None
  /\ inferResources (R := unit) [("/users", "u1")] Scenario.scenario_c
     = (Normal tt,
        set_config (with_resources (Some ["/users"])) Scenario.scenario_c).
Proof.
  split; [reflexivity|].
  apply (proj1 (inferred_resources_are_the_candidates [("/users", "u1")]
                  Scenario.scenario_c eq_refl)).
Defined.

(** Duplicates are kept: two events under [/users] yield [/users] twice. *)
Example candidates_keep_duplicates :
  candidate_paths
    (Some [("a", Scenario.users_function); ("b", Scenario.users_function)])
    [("/users", "u1")]
  = ["/users"; "/users"].
Proof. reflexivity. Qed.

Lemma find_first {A : Type} (f : A -> bool) (l : list A) (x : A) :
  find f l = Some x ->
  exists before after,
    l = before ++ x :: after
    /\ f x = true
    /\ (forall y, In y before -> f y = false).
Proof.
  induction l as [|a l IH]; simpl; [discriminate|].
  destruct (f a) eqn:E.
  - intros [= <-]. exists [], l. repeat split; auto. intros y [].
  - intros H. destruct (IH H) as (before & after & -> & Hx & Hb).
    exists (a :: before), after. repeat split; auto.
    intros y [<-|Hy]; auto.
Qed.

Lemma has_id_spec (pathIds : obj string) (p : string) :
  has_id pathIds p = true <-> listed_or_inherited pathIds p.
Proof.
  unfold has_id, listed_or_inherited, obj_index.
  rewrite <- inherited_spec.
  destruct (obj_get pathIds p) as [id|]; simpl.
  - unfold truthy. rewrite negb_true_iff, String.eqb_neq. split.
    + intros H. left. now exists id.
    + intros [(id' & [= <-] & H)|[H _]]; [exact H | discriminate H].
  - destruct (inherited p); simpl; split; auto.
    intros [(id & H & _)|[_ H]]; discriminate H.
Qed.

Lemma has_id_some (pathIds : obj string) (p : string) :
  has_id pathIds p = true ->
  exists x, obj_index pathIds p = Some x /\ truthy_found x = true.
Proof.
  unfold has_id. destruct (obj_index pathIds p) as [x|]; [|discriminate].
  intros H. now exists x.
Qed.

(** On an index without empty ids, every key can be selected. *)
Lemma has_id_key (pathIds : obj string) (p : string) :
  (forall k id, obj_get pathIds k = Some id -> id <> "") ->
  In p (obj_keys pathIds) -> has_id pathIds p = true.
Proof.
  intros Hids Hin. apply has_id_spec. left.
  destruct (obj_keys_get _ _ Hin) as (id & Hget).
  exists id. split; [exact Hget | eapply Hids; eassumption].
Qed.

Lemma imported_get (pathIds : obj string) (rs : list string) :
  Forall (fun p => has_id pathIds p = true) rs ->
  forall (acc : obj found),
    obj_get acc "__proto__" = None ->
    obj_get (imported pathIds rs acc) "__proto__" = None
    /\ forall p : string,
         (In p rs -> p <> "__proto__" ->
          obj_get (imported pathIds rs acc) p = obj_index pathIds p)
         /\ (~ In p rs -> obj_get (imported pathIds rs acc) p = obj_get acc p).
Proof.
  unfold imported.
  induction 1 as [|r rs Hr Hrs IH]; intros acc Hacc; simpl; [tauto|].
  apply has_id_some in Hr. destruct Hr as (x & Hget & _). rewrite Hget.
  destruct (IH (obj_assign acc r x) (obj_assign_proto acc r x Hacc)) as [IHp IH'].
  split; [exact IHp|]. intros p. destruct (IH' p) as [IHin IHout].
  destruct (in_dec string_dec p rs) as [Hin|Hout].
  - split; [intros _; now apply IHin | intros Hn; exfalso; apply Hn; now right].
  - split.
    + intros [->|Hin] Hp; [|contradiction].
      rewrite (IHout Hout), obj_assign_same by exact Hp. now symmetry.
    + intros Hn. rewrite (IHout Hout). apply obj_assign_other.
      intros ->. apply Hn. now left.
Qed.



(** The loop of [selectResources], as the definition has it inline. *)
Lemma select_loop (restApiId : string) (pathIds : obj string) (rs : list string) :
  forall (acc : obj found) (w : World),
    for_of rs
      (fun resourcePath resourcesToImport =>
         match obj_index pathIds resourcePath with
         | Some resourceId =>
             if truthy_found resourceId
             then ret (obj_assign resourcesToImport resourcePath resourceId)
             else cli_log (unable_to_find_resource resourcePath restApiId) ;;
                  return_ tt
         | None =>
             cli_log (unable_to_find_resource resourcePath restApiId) ;;
             return_ tt
         end)
      acc w
    = match find (fun p => negb (has_id pathIds p)) rs with
      | Some bad =>
          (Return tt, add_log (CliLog (unable_to_find_resource bad restApiId)) w)
      | None => (Normal (imported pathIds rs acc), w)
      end.
Proof.
  unfold imported.
  induction rs as [|r rs IH]; intros acc w; [reflexivity|].
  cbn [for_of find fold_left]. unfold has_id at 1.
  destruct (obj_index pathIds r) as [id|]; [|reflexivity].
  destruct (truthy_found id); simpl; [|reflexivity].
  rewrite bind_ret. apply IH.
Qed.

Lemma find_none_forall (pathIds : obj string) (rs : list string) :
  find (fun p => negb (has_id pathIds p)) rs = None
  <-> Forall (fun p => has_id pathIds p = true) rs.
Proof.
  induction rs as [|r rs IH]; simpl.
  - split; [constructor | reflexivity].
  - destruct (has_id pathIds r) eqn:E; simpl.
    + rewrite IH. split; [now constructor | now inversion 1].
    + split; [discriminate | inversion 1; congruence].
Qed.

Lemma selectResources_run (restApiId : string) (pathIds : obj string)
    (rs : list string) (w : World) :
  selectResources restApiId pathIds (Some rs) w
  = match find (fun p => negb (has_id pathIds p)) rs with
    | Some bad =>
        (Return tt, add_log (CliLog (unable_to_find_resource bad restApiId)) w)
    | None => (Normal (imported pathIds rs []), w)
    end.
Proof.
  unfold selectResources, iterable. rewrite bind_ret. apply select_loop.
Qed.





Example selection_names_the_path_with_an_empty_id :
  selectResources "r1" Scenario.index_with_empty_id (Some ["/users"])
    Scenario.scenario_b
  = (Return tt,
     add_log (CliLog "Unable to find resource path (/users) for REST API (r1)")
       Scenario.scenario_b).
Proof. reflexivity. Qed.

Example selection_takes_an_inherited_member :
  selectResources "r1" Scenario.index_with_empty_id
    (Some ["/"; "constructor"; "__proto__"]) Scenario.scenario_b
  = (Normal [("/", Id "abc123"); ("constructor", Member "constructor")],
     Scenario.scenario_b).
Proof. reflexivity. Qed.

(** What inference leaves in the configuration. *)
Lemma inferResources_run (R : Type) (pathIds : obj string) (w : World) :
  inferResources (R := R) pathIds w
  = (Normal tt,
     match config_resources (config w) with
     | Some _ => w
     | None =>
         set_config
           (with_resources
              (Some (match candidate_paths (functions (service w)) pathIds with
                     | [] => obj_keys pathIds
                     | candidates => candidates
                     end)))
           w
     end).
Proof.
  unfold inferResources. rewrite bind_gets.
  destruct (config_resources (config w)) as [rs|] eqn:E; [reflexivity|].
  rewrite bind_gets.
  destruct (functions (service w)) as [fs|] eqn:Efs; [|reflexivity].
  unfold obj_entries. rewrite functionPaths_candidates. simpl.
  destruct (candidate_paths (Some fs) pathIds) as [|c cs]; reflexivity.
Qed.

(** ** The two lookups of the provider *)

Lemma find_loop (R : Type) (name : string) (items : list RestApi) (w : World) :
  for_of (R := option string) items
    (fun restApi _ =>
       if String.eqb name (restApi_name restApi)
       then return_ (Some (restApi_id restApi))
       else ret tt)
    tt w
  = match find (fun a => String.eqb name (restApi_name a)) items with
    | Some a => (Return (Some (restApi_id a)), w)
    | None => (Normal tt, w)
    end.
Proof.
  induction items as [|a items IH]; [reflexivity|].
  cbn [for_of find]. destruct (String.eqb name (restApi_name a)); [reflexivity|].
  rewrite bind_ret. exact IH.
Qed.

Lemma findRestApiIdByName_run (R : Type) (p : Provider) (name : string) (w : World) :
  findRestApiIdByName (R := R) p name w
  = match getRestApis p 500 with
    | inl e => (Throw e, w)
    | inr items =>
        (Normal
           (option_map restApi_id
              (find (fun a => String.eqb name (restApi_name a))
                 (match items with Some l => l | None => [] end))),
         w)
    end.
Proof.
  unfold findRestApiIdByName, call.
  destruct (getRestApis p 500) as [e|[items|]]; [reflexivity| |reflexivity].
  unfold request. rewrite bind_ret, (find_loop R).
  destruct (find (fun a => String.eqb name (restApi_name a)) items); reflexivity.
Qed.

Lemma index_loop (R : Type) (items : list Resource) :
  forall (pathIds : obj string) (w : World),
    for_of (R := R) items
      (fun resource pathIds =>
         ret (obj_assign pathIds (resource_path resource) (resource_id resource)))
      pathIds w
    = (Normal (fold_left put_resource items pathIds), w).
Proof.
  induction items as [|r items IH]; intros pathIds w; [reflexivity|].
  cbn [for_of fold_left]. rewrite bind_ret. apply IH.
Qed.

Lemma getRestApiPathIds_run (R : Type) (p : Provider) (restApiId : string)
    (w : World) :
  getRestApiPathIds (R := R) p restApiId w
  = match getResources p 500 restApiId with
    | inl e => (Throw e, w)
    | inr items =>
        (Normal (fold_left put_resource
                   (match items with Some l => l | None => [] end) []), w)
    end.
Proof.
  unfold getRestApiPathIds.
  destruct (getResources p 500 restApiId) as [e|[items|]]; try reflexivity.
  unfold request. now rewrite bind_ret, index_loop.
Qed.

Lemma put_resources_proto (items : list Resource) :
  forall pathIds : obj string,
    obj_get pathIds "__proto__" = None ->
    obj_get (fold_left put_resource items pathIds) "__proto__" = None.
Proof.
  induction items as [|r items IH]; intros pathIds H; simpl; [exact H|].
  apply IH. unfold put_resource. now apply obj_assign_proto.
Qed.


(** ** Aborted runs *)

Lemma pure_run {R A : Type} (m : M R A) (w : World) (c : completion R A) :
  preserves eq m -> fst (m w) = c -> m w = (c, w).
Proof.
  intros Hm Hc. destruct (m w) as [c' w'] eqn:E. simpl in Hc. subst c'.
  now rewrite <- (Hm _ _ _ E).
Qed.

(** C5, amended.  Let layer resolution have run to its end, leaving the
    world [w1]; [provider.apiGateway] is then what it was before the run.
    If the name lookup yields no id, or if it yields an id and the path
    index gives nothing usable for the configured root path (the path is a
    key of the index with an empty id, or it is not a key and is not the
    name of a member of [Object.prototype]), the run ends normally in [w1]
    plus one line of log ([Unable to find REST API named '...'], resp.
    [Unable to find root resource path ...]): nothing is written after
    layer resolution, and no gateway state at all.  A root path that is not
    a key of the index but names an inherited member, such as
    [constructor], passes the guard. *)
Theorem abort_writes_no_gateway_state :
  forall (p : Provider) (w w1 : World),
    resolveLayerArns (R := unit) p w = (Normal tt, w1) ->
    provider_apiGateway (service w1) = provider_apiGateway (service w)
    /\ (forall restApiId,
          fst (findRestApiIdByName (R := unit) p (config_name (config w)) w1)
            = Normal restApiId ->
          falsy restApiId = true ->
          importApiGateway p w
          = (Normal tt,
             add_log (CliLog ("Unable to find REST API named '"
                                ++ config_name (config w) ++ "'")) w1))
    /\ (forall restApiId pathIds,
          fst (findRestApiIdByName (R := unit) p (config_name (config w)) w1)
            = Normal (Some restApiId) ->
          truthy restApiId = true ->
          fst (getRestApiPathIds (R := unit) p restApiId w1) = Normal pathIds ->
          (obj_get pathIds (config_path (config w)) = Some ""
           \/ (obj_get pathIds (config_path (config w)) = None
               /\ ~ In (config_path (config w)) object_prototype)) ->
          importApiGateway p w
          = (Normal tt,
             add_log (CliLog ("Unable to find root resource path ("
                                ++ config_path (config w) ++ ") for REST API ("
                                ++ restApiId ++ ")")) w1))
    /\ (forall restApiId pathIds,
          fst (findRestApiIdByName (R := unit) p (config_name (config w)) w1)
            = Normal (Some restApiId) ->
          truthy restApiId = true ->
          fst (getRestApiPathIds (R := unit) p restApiId w1) = Normal pathIds ->
          obj_get pathIds (config_path (config w)) = None ->
          In (config_path (config w)) object_prototype ->
          ~ In (CliLog ("Unable to find root resource path ("
                          ++ config_path (config w) ++ ") for REST API ("
                          ++ restApiId ++ ")"))
              (skipn (length (log w1)) (log (snd (importApiGateway p w))))).
Proof.
  intros p w w1 Hresolve.
  pose proof (@resolveLayerArns_same_apiGateway unit p _ _ _ Hresolve) as Hag.
  pose proof (@resolveLayerArns_same_config unit p _ _ _ Hresolve) as Hcfg.
  unfold same_config in Hcfg.
  split; [exact Hag|]. split; [|split].
  - intros restApiId Hfind Hfalsy.
    apply pure_run in Hfind; [|apply findRestApiIdByName_pure].
    rewrite importApiGateway_of_try. unfold importApiGateway_try.
    rewrite (bind_normal _ _ _ Hresolve), bind_gets, Hcfg.
    rewrite (bind_normal _ _ _ Hfind).
    destruct restApiId as [id|]; [|reflexivity].
    simpl in Hfalsy. now rewrite Hfalsy.
  - intros restApiId pathIds Hfind Htruthy Hpaths Hroot.
    apply pure_run in Hfind; [|apply findRestApiIdByName_pure].
    apply pure_run in Hpaths; [|apply getRestApiPathIds_pure].
    rewrite importApiGateway_of_try. unfold importApiGateway_try.
    rewrite (bind_normal _ _ _ Hresolve), bind_gets, Hcfg.
    rewrite (bind_normal _ _ _ Hfind), Htruthy. cbn [negb].
    rewrite (bind_normal _ _ _ Hpaths), bind_gets, Hcfg.
    unfold obj_index. destruct Hroot as [Hroot|[Hroot Hno]]; rewrite Hroot.
    + reflexivity.
    + destruct (inherited (config_path (config w))) eqn:E; [|reflexivity].
      apply inherited_spec in E. contradiction.
  - intros restApiId pathIds Hfind Htruthy Hpaths Hroot Hin.
    apply pure_run in Hfind; [|apply findRestApiIdByName_pure].
    apply pure_run in Hpaths; [|apply getRestApiPathIds_pure].
    rewrite importApiGateway_of_try. unfold importApiGateway_try.
    rewrite (bind_normal _ _ _ Hresolve), bind_gets, Hcfg.
    rewrite (bind_normal _ _ _ Hfind), Htruthy. cbn [negb].
    rewrite (bind_normal _ _ _ Hpaths), bind_gets, Hcfg.
    unfold obj_index. rewrite Hroot.
    apply inherited_spec in Hin. rewrite Hin. cbn [truthy_found negb].
    rewrite (bind_normal _ _ _ (inferResources_run unit pathIds w1)), bind_gets.
    set (w2 := match config_resources (config w1) with
               | Some _ => w1
               | None => _
               end).
    assert (Hlog2 : log w2 = log w1).
    { unfold w2. destruct (config_resources (config w1)); reflexivity. }
    assert (Hsome : exists rs, config_resources (config w2) = Some rs).
    { unfold w2. destruct (config_resources (config w1)) as [rs|] eqn:E.
      - now exists rs.
      - eexists. reflexivity. }
    destruct Hsome as (rs & Hrs). rewrite Hrs.
    unfold bind at 1. rewrite selectResources_run.
    destruct (find (fun r => negb (has_id pathIds r)) rs) as [bad|].
    + cbn [snd log add_log]. rewrite Hlog2, skipn_app, Nat.sub_diag, skipn_all.
      simpl. intros [Heq|[]]. unfold unable_to_find_resource in Heq.
      discriminate Heq.
    + rewrite bind_modify, bind_gets.
      cbn [modify snd log add_log set_service].
      rewrite Hlog2, skipn_app, Nat.sub_diag, skipn_all.
      simpl. intros [Heq|[]]. discriminate Heq.
Qed.

Lemma abort_writes_no_gateway_state_witness :
  (exists w1,
     resolveLayerArns (R := unit) Scenario.aws_without_gateway
       (Scenario.with_bare_layer true)
     = (Normal tt, w1)
     /\ provider_apiGateway (service w1)
        = provider_apiGateway (service (Scenario.with_bare_layer true))
     /\ importApiGateway Scenario.aws_without_gateway (Scenario.with_bare_layer true)
        = (Normal tt,
           add_log (CliLog "Unable to find REST API named 'my-api'") w1))
  /\ (exists w1,
        resolveLayerArns (R := unit) Scenario.aws_without_root
          (Scenario.with_bare_layer true)
        = (Normal tt, w1)
        /\ importApiGateway Scenario.aws_without_root (Scenario.with_bare_layer true)
           = (Normal tt,
              add_log
                (CliLog "Unable to find root resource path (/) for REST API (r1)")
                w1)).
Proof.
  split.
  - eexists. split; [reflexivity|].
    destruct (abort_writes_no_gateway_state Scenario.aws_without_gateway
                (Scenario.with_bare_layer true) eq_refl) as (Hag & Hgateway & _).
    split; [exact Hag|].
    apply (Hgateway None); reflexivity.
  - eexists. split; [reflexivity|].
    destruct (abort_writes_no_gateway_state Scenario.aws_without_root
                (Scenario.with_bare_layer true) eq_refl) as (_ & _ & Hroot & _).
    apply (Hroot "r1" [("/users", "u1")]); [reflexivity..|].
    right. split; [reflexivity|]. simpl.
    intros H. repeat (destruct H as [H|H]; [discriminate H|]). exact H.
Defined.

(** C5 as the specification words it: here the gateway is not found and the
    diagnostic is logged, but the model is not the one the run started
    from, since layer resolution had already rewritten [provider.layers]. *)
Lemma gateway_not_found_after_layers_were_rewritten :
  fst (findRestApiIdByName (R := unit) Scenario.aws_without_gateway "my-api"
         (Scenario.with_bare_layer true))
  = Normal None
  /\ In (CliLog "Unable to find REST API named 'my-api'")
       (log (snd (importApiGateway Scenario.aws_without_gateway
                    (Scenario.with_bare_layer true))))
  /\ service (snd (importApiGateway Scenario.aws_without_gateway
                     (Scenario.with_bare_layer true)))
     <> service (Scenario.with_bare_layer true).
Proof.
  split; [reflexivity|]. split.
  - simpl. auto.
  - discriminate.
Qed.

(** The same happens when the root path is missing. *)
Example root_not_found_after_layers_were_rewritten :
  importApiGateway Scenario.aws_without_root (Scenario.with_bare_layer true)
  = (Normal tt,
     add_log (CliLog "Unable to find root resource path (/) for REST API (r1)")
       (add_log
          (CliLog "Resolved layer ARNs: arn:aws:lambda:us-east-1:000000000000:layer:common:1")
          (set_service (with_provider_layers (Some [VString Scenario.common_arn]))
             (Scenario.with_bare_layer true)))).
Proof. reflexivity. Qed.

(** A root path called [constructor] is not in the index, and the run
    commits all the same, with the inherited member as the root id. *)
Example inherited_root_is_committed :
  provider_apiGateway
    (service
       (snd (importApiGateway Scenario.aws
               (set_config
                  (fun c => {| config_name := config_name c;
                               config_path := "constructor";
                               config_resources := config_resources c;
                               config_resolveLayerArns := config_resolveLayerArns c |})
                  Scenario.scenario_b))))
  = [ ("restApiId", AString "r1");
      ("restApiRootResourceId", AMember "constructor");
      ("restApiResources", AMap [("/users", Id "u1")]) ].
Proof. reflexivity. Qed.

(** ** Committed runs *)

Ltac step_in H E :=
  match type of H with
  | bind ?m ?k ?w = _ =>
      destruct (m w) as [[?|?|?] ?] eqn:E;
      [ rewrite (bind_normal _ _ _ E) in H; cbv beta in H
      | rewrite (bind_return _ _ _ E) in H; discriminate H
      | rewrite (bind_throw _ _ _ E) in H; discriminate H ]
  end.

Lemma commit_get (restApiId : string) (rootResourceId : found)
    (resourcesToImport : obj found) (ag : obj ag_value) :
  obj_get (commit restApiId rootResourceId resourcesToImport ag) "restApiId"
    = Some (AString restApiId)
  /\ obj_get (commit restApiId rootResourceId resourcesToImport ag)
       "restApiRootResourceId"
     = Some (of_found rootResourceId)
  /\ obj_get (commit restApiId rootResourceId resourcesToImport ag)
       "restApiResources"
     = Some (AMap resourcesToImport)
  /\ (forall k, k <> "restApiId" -> k <> "restApiRootResourceId" ->
        k <> "restApiResources" ->
        obj_get (commit restApiId rootResourceId resourcesToImport ag) k
        = obj_get ag k).
Proof.
  unfold commit. repeat split.
  - rewrite !obj_get_set_other by discriminate. apply obj_get_set_same.
  - rewrite obj_get_set_other by discriminate. apply obj_get_set_same.
  - apply obj_get_set_same.
  - intros k H1 H2 H3. now rewrite !obj_get_set_other.
Qed.

Lemma importApiGateway_try_committed (p : Provider) (w w' : World) :
  importApiGateway_try p w = (Normal tt, w') ->
  exists w1 w2 restApiId pathIds rootResourceId selected,
    resolveLayerArns (R := unit) p w = (Normal tt, w1)
    /\ findRestApiIdByName (R := unit) p (config_name (config w)) w1
       = (Normal (Some restApiId), w1)
    /\ truthy restApiId = true
    /\ getRestApiPathIds (R := unit) p restApiId w1 = (Normal pathIds, w1)
    /\ obj_index pathIds (config_path (config w)) = Some rootResourceId
    /\ truthy_found rootResourceId = true
    /\ inferResources (R := unit) pathIds w1 = (Normal tt, w2)
    /\ config_resources (config w2) = Some selected
    /\ Forall (fun r => has_id pathIds r = true) selected
    /\ w' = add_log
              (CliLogImported
                 (commit restApiId rootResourceId (imported pathIds selected [])
                    (provider_apiGateway (service w2))))
              (set_service
                 (with_apiGateway
                    (commit restApiId rootResourceId (imported pathIds selected [])
                       (provider_apiGateway (service w2))))
                 w2).
Proof.
  intros H. unfold importApiGateway_try in H.
  step_in H Eresolve. rewrite bind_gets in H.
  pose proof (@resolveLayerArns_same_config unit p _ _ _ Eresolve) as Hcfg.
  unfold same_config in Hcfg. rewrite Hcfg in H.
  step_in H Efind.
  pose proof (@findRestApiIdByName_pure unit p _ _ _ _ Efind) as <-.
  destruct a. destruct a0 as [restApiId|]; [|discriminate H].
  destruct (truthy restApiId) eqn:Hid; cbn [negb] in H; [|discriminate H].
  step_in H Epaths.
  pose proof (@getRestApiPathIds_pure unit p _ _ _ _ Epaths) as <-.
  rewrite bind_gets, Hcfg in H.
  destruct (obj_index a (config_path (config w))) as [rootResourceId|] eqn:Eroot;
    [|discriminate H].
  destruct (truthy_found rootResourceId) eqn:Hroot; cbn [negb] in H;
    [|discriminate H].
  step_in H Einfer. destruct a0. rename w1 into w2. rewrite bind_gets in H.
  destruct (config_resources (config w2)) as [selected|] eqn:Esel;
    [|discriminate H].
  step_in H Eselect. rewrite selectResources_run in Eselect.
  destruct (find (fun p => negb (has_id a p)) selected) eqn:Efind';
    [discriminate Eselect|].
  injection Eselect as <- <-. apply find_none_forall in Efind'.
  rewrite bind_modify, bind_gets in H. injection H as <-.
  exists w0, w2, restApiId, a, rootResourceId, selected.
  repeat split; auto.
Qed.

Lemma inferResources_same_service {R : Type} (pathIds : obj string) :
  preserves same_service (inferResources (R := R) pathIds).
Proof. apply preserves_inferResources; eauto with frames. reflexivity. Qed.



(** ** Errors never leave the hook *)

(** C8.  [importApiGateway] always returns normally.  When its [try] block
    throws an error [e] (a rejected request, a malformed response, a
    TypeError of the core), the call ends with the world of the throw plus
    one [console.error] line, whose text is a line break, the banner
    [-------- Import API Gateway Error --------], a line break and the
    message of [e]; [provider.apiGateway] is what it was before the run.
    In particular a rejection of any of the three requests ([listLayers],
    [getRestApis], [getResources]) is caught and its message logged in this
    way, with nothing else written since the request was sent. *)
Theorem importApiGateway_never_throws :
  forall (p : Provider) (w : World),
    fst (importApiGateway p w) = Normal tt
    /\ match importApiGateway_try p w with
       | (Throw e, w') =>
           importApiGateway p w
             = (Normal tt,
                add_log
                  (ConsoleError
                     (String "010"
                        ("-------- Import API Gateway Error --------"
                           ++ String "010"
                                match e with
                                | TypeError msg | RequestError msg => msg
                                end)))
                  w')
           /\ provider_apiGateway (service w') = provider_apiGateway (service w)
       | (_, w') => importApiGateway p w = (Normal tt, w')
       end
    /\ (forall e,
          listLayers p 50 = inl e ->
          importApiGateway p w
          = (Normal tt,
             add_log
               (ConsoleError
                  (String "010"
                     ("-------- Import API Gateway Error --------"
                        ++ String "010"
                             match e with
                             | TypeError msg | RequestError msg => msg
                             end)))
               w))
    /\ (forall w1 e,
          resolveLayerArns (R := unit) p w = (Normal tt, w1) ->
          getRestApis p 500 = inl e ->
          importApiGateway p w
          = (Normal tt,
             add_log
               (ConsoleError
                  (String "010"
                     ("-------- Import API Gateway Error --------"
                        ++ String "010"
                             match e with
                             | TypeError msg | RequestError msg => msg
                             end)))
               w1))
    /\ (forall w1 restApiId e,
          resolveLayerArns (R := unit) p w = (Normal tt, w1) ->
          fst (findRestApiIdByName (R := unit) p (config_name (config w)) w1)
            = Normal (Some restApiId) ->
          truthy restApiId = true ->
          getResources p 500 restApiId = inl e ->
          importApiGateway p w
          = (Normal tt,
             add_log
               (ConsoleError
                  (String "010"
                     ("-------- Import API Gateway Error --------"
                        ++ String "010"
                             match e with
                             | TypeError msg | RequestError msg => msg
                             end)))
               w1)).
Proof.
  intros p w. rewrite importApiGateway_of_try.
  split; [|split; [|split; [|split]]].
  - now destruct (importApiGateway_try p w) as [[[]|[]|e] w'].
  - pose proof (@importApiGateway_try_abrupt p w) as Hframe.
    destruct (importApiGateway_try p w) as [[[]|[]|e] w'] eqn:E; simpl; auto.
    split.
    + now destruct e.
    + apply (Hframe _ _ eq_refl). discriminate.
  - intros e Hreq. unfold importApiGateway_try, resolveLayerArns.
    rewrite Hreq. now destruct e.
  - intros w1 e Hresolve Hreq. unfold importApiGateway_try.
    rewrite (bind_normal _ _ _ Hresolve), bind_gets.
    unfold bind at 1. rewrite findRestApiIdByName_run, Hreq. now destruct e.
  - intros w1 restApiId e Hresolve Hfind Hid Hreq.
    pose proof (@resolveLayerArns_same_config unit p _ _ _ Hresolve) as Hcfg.
    unfold same_config in Hcfg.
    apply pure_run in Hfind; [|apply findRestApiIdByName_pure].
    unfold importApiGateway_try.
    rewrite (bind_normal _ _ _ Hresolve), bind_gets, Hcfg.
    rewrite (bind_normal _ _ _ Hfind), Hid. cbn [negb].
    unfold bind at 1. rewrite getRestApiPathIds_run, Hreq. now destruct e.
Qed.

Lemma importApiGateway_never_throws_witness :
  importApiGateway Scenario.aws_down Scenario.scenario_b
  = (Normal tt,
     add_log
       (ConsoleError
          (String "010"
             ("-------- Import API Gateway Error --------"
                ++ String "010" "socket hang up")))
       Scenario.scenario_b).
Proof.
  apply (proj1 (proj2 (proj2 (importApiGateway_never_throws Scenario.aws_down
                                Scenario.scenario_b)))
           (RequestError "socket hang up")).
  reflexivity.
Defined.

(** ** The [resolveLayerArns] switch *)

Section Switch.

Lemma ignores_ret {R A : Type} (a : A) : ignores_switch (ret (R := R) a).
Proof. intros b w. reflexivity. Qed.

Lemma ignores_throw {R A : Type} (e : error) :
  ignores_switch (throw (R := R) (A := A) e).
Proof. intros b w. reflexivity. Qed.

Lemma ignores_return {R A : Type} (r : R) : ignores_switch (return_ (A := A) r).
Proof. intros b w. reflexivity. Qed.

Lemma ignores_gets {R A : Type} (f : World -> A) :
  (forall b w, f (set_switch b w) = f w) -> ignores_switch (gets (R := R) f).
Proof. intros Hf b w. unfold gets. simpl. now rewrite Hf. Qed.

Lemma ignores_modify {R : Type} (f : World -> World) :
  (forall b w, f (set_switch b w) = set_switch b (f w)) ->
  ignores_switch (modify (R := R) f).
Proof. intros Hf b w. unfold modify. simpl. now rewrite Hf. Qed.

Lemma ignores_bind {R A B : Type} (m : M R A) (k : A -> M R B) :
  ignores_switch m -> (forall a, ignores_switch (k a)) ->
  ignores_switch (bind m k).
Proof.
  intros Hm Hk b w. unfold bind. rewrite Hm.
  destruct (m w) as [[a|r|e] w1]; simpl; [apply Hk | reflexivity | reflexivity].
Qed.

Lemma ignores_for_of {R A S : Type} (xs : list A) (body : A -> S -> M R S) :
  (forall x s, ignores_switch (body x s)) ->
  forall s, ignores_switch (for_of xs body s).
Proof.
  intros Hbody. induction xs as [|x xs IH]; intros s; simpl.
  - apply ignores_ret.
  - apply ignores_bind; [apply Hbody | intros s'; apply IH].
Qed.

Lemma ignores_try_catch {R A : Type} (body : M R A) (handler : error -> M R A) :
  ignores_switch body -> (forall e, ignores_switch (handler e)) ->
  ignores_switch (try_catch body handler).
Proof.
  intros Hb Hh b w. unfold try_catch. rewrite Hb.
  destruct (body w) as [[a|r|e] w1]; simpl; [reflexivity | reflexivity | apply Hh].
Qed.

Lemma ignores_call {R R' : Type} (undefined : R) (body : M R unit) :
  ignores_switch body -> ignores_switch (call (R' := R') undefined body).
Proof.
  intros Hb b w. unfold call. rewrite Hb.
  destruct (body w) as [[a|r|e] w1]; reflexivity.
Qed.

Lemma ignores_request {R A : Type} (response : error + A) :
  ignores_switch (request (R := R) response).
Proof. destruct response; [apply ignores_throw | apply ignores_ret]. Qed.

Lemma ignores_iterable {R A : Type} (what : string) (xs : option (list A)) :
  ignores_switch (iterable (R := R) what xs).
Proof. destruct xs; [apply ignores_ret | apply ignores_throw]. Qed.

Lemma ignores_cli_log {R : Type} (msg : string) :
  ignores_switch (cli_log (R := R) msg).
Proof. apply ignores_modify. reflexivity. Qed.

Lemma ignores_resolve {R : Type} (ls : option (list value)) (existing : obj string) :
  ignores_switch (_resolveLayerArns (R := R) ls existing).
Proof.
  unfold _resolveLayerArns.
  apply ignores_bind; [apply ignores_iterable|]. intros l.
  apply ignores_bind.
  - apply ignores_for_of. intros layer [resolvedAny resolvedLayers].
    apply ignores_bind.
    + destruct layer; [apply ignores_ret | apply ignores_throw | apply ignores_throw].
    + intros [|]; [apply ignores_ret|].
      apply ignores_try_catch.
      * apply ignores_bind; [apply ignores_ret|]. intros. apply ignores_ret.
      * intros e. apply ignores_bind; [apply ignores_cli_log|].
        intros. apply ignores_ret.
  - intros [resolvedAny resolvedLayers].
    apply ignores_bind.
    + destruct resolvedAny; [apply ignores_cli_log | apply ignores_ret].
    + intros. apply ignores_ret.
Qed.

Lemma ignores_resolveLayerArns {R : Type} (p : Provider) :
  ignores_switch (resolveLayerArns (R := R) p).
Proof.
  unfold resolveLayerArns.
  apply ignores_bind; [apply ignores_request|]. intros response.
  apply ignores_bind.
  { apply ignores_for_of. intros layer existing.
    apply ignores_bind.
    - unfold latest_arn. destruct (LatestMatchingVersion layer);
        [apply ignores_ret | apply ignores_throw].
    - intros. apply ignores_ret. }
  intros existing.
  apply ignores_bind; [now apply ignores_gets|]. intros pl.
  apply ignores_bind; [apply ignores_resolve|]. intros resolved.
  apply ignores_bind; [now apply ignores_modify|]. intros _.
  apply ignores_bind; [now apply ignores_gets|].
  intros [fs|]; [|apply ignores_ret].
  apply ignores_bind; [|intros; apply ignores_ret].
  apply ignores_for_of. intros [fname func] i.
  destruct (layers func) as [ls|]; [|apply ignores_ret].
  apply ignores_bind; [apply ignores_resolve|]. intros resolved'.
  apply ignores_bind; [now apply ignores_modify | intros; apply ignores_ret].
Qed.

Lemma ignores_importApiGateway_try (p : Provider) :
  ignores_switch (importApiGateway_try p).
Proof.
  assert (Habort : forall msg,
            ignores_switch (cli_log (R := unit) msg ;; return_ (A := unit) tt)).
  { intros msg. apply ignores_bind; [apply ignores_cli_log|].
    intros. apply ignores_return. }
  unfold importApiGateway_try.
  apply ignores_bind; [apply ignores_resolveLayerArns|]. intros _.
  apply ignores_bind; [now apply ignores_gets|]. intros name.
  apply ignores_bind.
  { unfold findRestApiIdByName. apply ignores_call.
    apply ignores_bind; [apply ignores_request|].
    intros [items|]; [|apply ignores_ret].
    apply ignores_for_of. intros x s.
    destruct (String.eqb name (restApi_name x));
      [apply ignores_return | apply ignores_ret]. }
  intros [restApiId|]; [|apply Habort].
  destruct (negb (truthy restApiId)); [apply Habort|].
  apply ignores_bind.
  { unfold getRestApiPathIds.
    apply ignores_bind; [apply ignores_request|].
    intros [items|]; [|apply ignores_ret].
    apply ignores_for_of. intros. apply ignores_ret. }
  intros pathIds. apply ignores_bind; [now apply ignores_gets|]. intros path.
  destruct (obj_index pathIds path) as [rootResourceId|]; [|apply Habort].
  destruct (negb (truthy_found rootResourceId)); [apply Habort|].
  apply ignores_bind.
  { unfold inferResources.
    apply ignores_bind; [now apply ignores_gets|].
    intros [rs|]; [apply ignores_ret|].
    apply ignores_bind; [now apply ignores_gets|]. intros fs.
    apply ignores_bind.
    - destruct fs as [fs|]; [|apply ignores_ret].
      apply ignores_bind; [now apply ignores_modify | intros; apply ignores_ret].
    - intros new. destruct (Nat.eqb (length new) 0);
        [now apply ignores_modify | apply ignores_ret]. }
  intros _. apply ignores_bind; [now apply ignores_gets|]. intros rs.
  apply ignores_bind.
  { unfold selectResources.
    apply ignores_bind; [apply ignores_iterable|]. intros l.
    apply ignores_for_of. intros rp acc.
    assert (Hmissing : ignores_switch
              (cli_log (R := unit) (unable_to_find_resource rp restApiId) ;;
               return_ (A := obj found) tt)).
    { apply ignores_bind; [apply ignores_cli_log|]. intros. apply ignores_return. }
    destruct (obj_index pathIds rp) as [id|]; [|exact Hmissing].
    destruct (truthy_found id); [apply ignores_ret | exact Hmissing]. }
  intros resourcesToImport.
  apply ignores_bind; [now apply ignores_modify|]. intros _.
  apply ignores_bind; [now apply ignores_gets|]. intros ag.
  now apply ignores_modify.
Qed.

Lemma ignores_importApiGateway (p : Provider) :
  ignores_switch (importApiGateway p).
Proof.
  unfold importApiGateway. apply ignores_call, ignores_try_catch.
  - apply ignores_importApiGateway_try.
  - intros e. now apply ignores_modify.
Qed.

End Switch.

(** C3, evaluated where it fails.  The service file leaves
    [resolveLayerArns] out, so the constructor sets it to [false]; the run
    nevertheless resolves the provider-level list, turning the bare name
    [common] into its ARN, and logs the resolution.  More generally the run
    never reads the switch: setting it to any value before the run gives the
    completion and the world of the original run, up to the switch itself. *)
Theorem layer_resolution_ignores_the_switch :
  constructor {| raw_name := Some "my-api";
                 raw_path := None;
                 raw_resources := Some ["/users"];
                 raw_resolveLayerArns := None |}
  = Some (config (Scenario.with_bare_layer false))
  /\ config_resolveLayerArns (config (Scenario.with_bare_layer false)) = false
  /\ provider_layers (service (Scenario.with_bare_layer false))
     = Some [VString "common"]
  /\ provider_layers
       (service (snd (importApiGateway Scenario.aws (Scenario.with_bare_layer false))))
     = Some [VString "arn:aws:lambda:us-east-1:000000000000:layer:common:1"]
  /\ In (CliLog "Resolved layer ARNs: arn:aws:lambda:us-east-1:000000000000:layer:common:1")
       (log (snd (importApiGateway Scenario.aws (Scenario.with_bare_layer false))))
  /\ (forall (p : Provider) (b : bool) (w : World),
        importApiGateway p (set_switch b w)
        = (fst (importApiGateway p w), set_switch b (snd (importApiGateway p w)))).
Proof.
  repeat split; simpl; auto.
  intros p b w. apply ignores_importApiGateway.
Qed.

(* ================================================================== *)
(** * Further properties of the code *)

(** ** The [get] helper *)

Section GetFacts.

Import Js.

Variable inherits : js -> string -> bool.

Lemma filter_idem {A : Type} (f : A -> bool) (l : list A) :
  filter f (filter f l) = filter f l.
Proof.
  induction l as [|a l IH]; simpl; [reflexivity|].
  destruct (f a) eqn:E; simpl; rewrite ?E, IH; reflexivity.
Qed.

Lemma split_dot_cons (path : string) :
  exists seg segs, split_dot path = seg :: segs.
Proof.
  induction path as [|c rest (seg & segs & IH)]; simpl.
  - now exists EmptyString, [].
  - destruct (Ascii.eqb c "."%char); rewrite ?IH; eauto.
Qed.

Lemma split_dot_app (p q : string) :
  split_dot (p ++ "." ++ q) = split_dot p ++ split_dot q.
Proof.
  induction p as [|c p IH]; simpl.
  - reflexivity.
  - simpl in IH. rewrite IH. destruct (Ascii.eqb c "."%char); [reflexivity|].
    destruct (split_dot_cons p) as (seg & segs & ->). reflexivity.
Qed.

Lemma split_dot_no_dot (key : string) :
  no_dot key = true -> split_dot key = [key].
Proof.
  induction key as [|c rest IH]; simpl; [reflexivity|].
  intros H. apply andb_prop in H. destruct H as [Hc Hrest].
  apply negb_true_iff in Hc. rewrite Hc, (IH Hrest). reflexivity.
Qed.

Lemma steps_app (p q : string) :
  filter truthy (split_dot (p ++ "." ++ q))
  = filter truthy (split_dot p) ++ filter truthy (split_dot q).
Proof. now rewrite split_dot_app, filter_app. Qed.

Lemma steps_dot (q : string) :
  filter truthy (split_dot ("." ++ q)) = filter truthy (split_dot q).
Proof. reflexivity. Qed.

Lemma every_step_app (steps1 steps2 : list string) :
  forall obj,
    every_step inherits obj (steps1 ++ steps2)
    = match every_step inherits obj steps1 with
      | Throws e => Throws e
      | Leaves v key => Leaves v key
      | Gives (true, v) => every_step inherits v steps2
      | Gives (false, v) => Gives (false, v)
      end.
Proof.
  induction steps1 as [|step steps1 IH]; intros obj; simpl; [reflexivity|].
  destruct (truthy step); [|apply IH].
  destruct (prop inherits obj step) as [v|e|v key]; [|reflexivity|reflexivity].
  destruct (truthy_js v); [apply IH | reflexivity].
Qed.

(** A lookup on anything but [undefined] and [null] does not throw; it
    leaves the data exactly when the key is not an own property and names
    an inherited member. *)
Lemma prop_defined (obj : js) (key : string) :
  obj <> JUndefined -> obj <> JNull ->
  prop inherits obj key
  = match own obj key with
    | Some x => Gives x
    | None => if inherits obj key then Leaves obj key else Gives JUndefined
    end.
Proof. intros Hu Hn. destruct obj; simpl; congruence. Qed.

Lemma truthy_defined (v : js) :
  truthy_js v = true -> v <> JUndefined /\ v <> JNull.
Proof. destruct v; simpl; intros H; split; congruence. Qed.

Lemma every_step_true (steps : list string) :
  forall obj v,
    every_step inherits obj steps = Gives (true, v) ->
    truthy_js v = true \/ (filter truthy steps = [] /\ v = obj).
Proof.
  induction steps as [|step steps IH]; intros obj v; simpl.
  - intros [= <-]. auto.
  - destruct (truthy step) eqn:Estep; [|apply IH].
    destruct (prop inherits obj step) as [x|e|x key]; [|discriminate|discriminate].
    destruct (truthy_js x) eqn:Ex; [|discriminate].
    intros H. destruct (IH x v H) as [Ht|[_ ->]]; auto.
Qed.

Lemma every_step_defined (steps : list string) :
  forall obj,
    obj <> JUndefined -> obj <> JNull ->
    match every_step inherits obj steps with
    | Gives (b, v) =>
        b = true -> truthy_js v = true \/ (filter truthy steps = [] /\ v = obj)
    | Throws _ => False
    | Leaves v key =>
        inherits v key = true /\ own v key = None /\ In key steps
        /\ (v = obj \/ truthy_js v = true)
    end.
Proof.
  induction steps as [|step steps IH]; intros obj Hu Hn; simpl.
  - auto.
  - destruct (truthy step) eqn:Estep.
    + rewrite (prop_defined step Hu Hn).
      destruct (own obj step) as [x|] eqn:Eown.
      * destruct (truthy_js x) eqn:Ex; [|discriminate].
        destruct (truthy_defined x Ex) as [Hxu Hxn].
        specialize (IH x Hxu Hxn).
        destruct (every_step inherits x steps) as [[b v]|e|v key].
        -- intros Hb. destruct (IH Hb) as [Ht|[_ ->]]; auto.
        -- exact IH.
        -- destruct IH as (H1 & H2 & H3 & [->|H4]); auto 6.
      * destruct (inherits obj step) eqn:Einh; [auto 6 | discriminate].
    + specialize (IH obj Hu Hn).
      destruct (every_step inherits obj steps) as [[b v]|e|v key]; auto.
      destruct IH as (H1 & H2 & H3 & H4). auto.
Qed.

(** The data never makes [get] throw.  On anything but [undefined] and
    [null], [get] either returns the default, a truthy value or (for a path
    without segments) the object itself, never a falsy value found on the
    path; or the walk leaves the data at a segment that is not an own
    property of the value reached and names a member that value inherits.
    When no segment of the path names an inherited member, [get] returns. *)
Theorem get_defined :
  forall (obj : js) (path : string) (defaultValue : js),
    obj <> JUndefined -> obj <> JNull ->
    match get inherits obj path defaultValue with
    | Gives v =>
        v = defaultValue \/ truthy_js v = true
        \/ (filter truthy (split_dot path) = [] /\ v = obj)
    | Throws _ => False
    | Leaves v key =>
        inherits v key = true /\ own v key = None /\ In key (split_dot path)
        /\ (v = obj \/ truthy_js v = true)
    end
    /\ ((forall v key, In key (split_dot path) -> inherits v key = false) ->
        exists v, get inherits obj path defaultValue = Gives v).
Proof.
  intros obj path d Hu Hn. unfold get.
  pose proof (every_step_defined (filter truthy (split_dot path)) Hu Hn) as H.
  destruct (every_step inherits obj (filter truthy (split_dot path)))
    as [[[|] v]|e|v key].
  - split; [|eauto]. right.
    destruct (H eq_refl) as [Ht|[Hs ->]]; [now left | right].
    split; [|reflexivity]. now rewrite <- Hs, filter_idem.
  - split; [|eauto]. now left.
  - destruct H.
  - destruct H as (H1 & H2 & H3 & H4). apply filter_In in H3.
    destruct H3 as [H3 _]. split; [auto|].
    intros Hhost. rewrite (Hhost v key H3) in H1. discriminate H1.
Qed.

Lemma get_own_key (o : obj js) (key : string) (defaultValue : js) :
  no_dot key = true -> key <> "" -> inherits (JObject o) key = false ->
  get inherits (JObject o) key defaultValue
  = Gives (defaulted o key defaultValue).
Proof.
  intros Hdot Hkey Hinh. unfold get.
  rewrite (split_dot_no_dot key Hdot). simpl.
  assert (Ht : truthy key = true).
  { unfold truthy. apply negb_true_iff. now apply String.eqb_neq. }
  rewrite Ht. simpl. rewrite Ht. simpl. unfold defaulted.
  destruct (obj_get o key) as [v|]; simpl.
  - destruct (truthy_js v); reflexivity.
  - now rewrite Hinh.
Qed.

(** One key on an object: the own property when it is truthy, and the
    default when it holds [undefined], [null], [false], [0] or the empty
    string.  When the object has no such property the lookup goes on to
    what the object inherits: for a key like [constructor] it ends on that
    member, and only for a key that names no inherited member does [get]
    return the default. *)
Theorem get_key :
  forall (o : obj js) (key : string) (defaultValue : js),
    no_dot key = true -> key <> "" ->
    get inherits (JObject o) key defaultValue
    = match obj_get o key with
      | Some v => Gives (if truthy_js v then v else defaultValue)
      | None =>
          if inherits (JObject o) key then Leaves (JObject o) key
          else Gives defaultValue
      end.
Proof.
  intros o key d Hdot Hkey. unfold get.
  rewrite (split_dot_no_dot key Hdot).
  assert (Ht : truthy key = true).
  { unfold truthy. apply negb_true_iff. now apply String.eqb_neq. }
  cbn [filter]. rewrite Ht. cbn [every_step]. rewrite Ht. cbn [prop own].
  destruct (obj_get o key) as [v|].
  - destruct (truthy_js v) eqn:Ev; cbn [every_step truthy_js]; now rewrite ?Ev.
  - destruct (inherits (JObject o) key); reflexivity.
Qed.

End GetFacts.

Lemma get_defined_witness :
  exists v,
    Js.get Js.object_members (Js.JObject [("path", Js.JString "")]) "path"
      (Js.JString "/")
    = Js.Gives v.
Proof.
  apply (proj2 (@get_defined Js.object_members (Js.JObject [("path", Js.JString "")])
                  "path" (Js.JString "/")
                  ltac:(discriminate) ltac:(discriminate))).
  intros v key [<-|[]]. now destruct v.
Defined.

Lemma get_key_witness :
  Js.get Js.object_members (Js.JObject [("resolveLayerArns", Js.JBool false)])
    "resolveLayerArns" (Js.JBool true)
  = Js.Gives (Js.JBool true)
  /\ Js.get Js.object_members (Js.JObject []) "constructor" (Js.JBool true)
     = Js.Leaves (Js.JObject []) "constructor".
Proof.
  split.
  - apply (@get_key Js.object_members [("resolveLayerArns", Js.JBool false)]
             "resolveLayerArns" (Js.JBool true));
      [reflexivity | discriminate].
  - apply (@get_key Js.object_members [] "constructor" (Js.JBool true));
      [reflexivity | discriminate].
Defined.

Section GetLaws.

Import Js.

Variable inherits : js -> string -> bool.

(** A dotted path is walked segment by segment: [get] along [p.q] is [get]
    along [q] from what [p] leads to, provided that is truthy (or [p] has no
    segment); otherwise the default, without [q] being looked at. *)
Theorem get_compose :
  forall (obj : js) (p q : string) (defaultValue : js),
    get inherits obj (p ++ "." ++ q) defaultValue
    = match get inherits obj p JUndefined with
      | Throws e => Throws e
      | Leaves v key => Leaves v key
      | Gives v =>
          if truthy_js v || match filter truthy (split_dot p) with
                            | [] => true
                            | _ => false
                            end
          then get inherits v q defaultValue
          else Gives defaultValue
      end.
Proof.
  intros obj p q d. unfold get. rewrite steps_app, every_step_app.
  destruct (filter truthy (split_dot p)) as [|step steps] eqn:Esteps.
  - simpl. now rewrite orb_true_r.
  - destruct (every_step inherits obj (step :: steps)) as [[[|] v]|e|v key] eqn:E;
      try reflexivity.
    destruct (every_step_true _ _ _ E) as [Ht|[Hnil _]].
    + now rewrite Ht.
    + rewrite <- Esteps, filter_idem, Esteps in Hnil. discriminate Hnil.
Qed.

(** Empty segments do not count: a doubled dot, a leading dot and a trailing
    dot change nothing. *)
Theorem get_empty_segments :
  forall (obj : js) (p q : string) (defaultValue : js),
    get inherits obj (p ++ "." ++ "." ++ q) defaultValue
    = get inherits obj (p ++ "." ++ q) defaultValue
    /\ get inherits obj ("." ++ q) defaultValue = get inherits obj q defaultValue
    /\ get inherits obj (p ++ ".") defaultValue = get inherits obj p defaultValue.
Proof.
  intros obj p q d. unfold get. split; [|split].
  - now rewrite (steps_app p ("." ++ q)), (steps_app p q), steps_dot.
  - now rewrite steps_dot.
  - change (p ++ ".")%string with (p ++ "." ++ "")%string. rewrite (steps_app p "").
    simpl. now rewrite app_nil_r.
Qed.

End GetLaws.

(** ** The constructor *)

Section ConstructorFacts.

Variable inherits : Js.js -> string -> bool.
Hypothesis host : Js.no_config_member inherits.

Lemma not_inherited (v : Js.js) (key : string) :
  In key Js.config_keys -> inherits v key = false.
Proof. apply host. Qed.

Lemma get_custom_config (pr : obj Js.js) (cu : Js.js) :
  Js.get inherits (Js.service_object {| Js.provider := pr; Js.custom := cu |})
    "custom.importApiGateway" (Js.JObject [])
  = Js.Gives (match cu with
              | Js.JObject c =>
                  match obj_get c "importApiGateway" with
                  | Some v => if Js.truthy_js v then v else Js.JObject []
                  | None => Js.JObject []
                  end
              | _ => Js.JObject []
              end).
Proof.
  assert (Hk : forall v, inherits v "importApiGateway" = false).
  { intros v. apply not_inherited. simpl. tauto. }
  destruct cu as [| |b|n|s|l|c]; try reflexivity.
  - unfold Js.get. simpl. destruct b; simpl; rewrite ?Hk; reflexivity.
  - unfold Js.get. simpl. destruct (negb (Z.eqb n 0)); simpl; rewrite ?Hk;
      reflexivity.
  - unfold Js.get. simpl. destruct (truthy s); simpl; rewrite ?Hk; reflexivity.
  - unfold Js.get. simpl. rewrite Hk. reflexivity.
  - unfold Js.get. simpl. destruct (obj_get c "importApiGateway") as [v|]; simpl.
    + destruct (Js.truthy_js v); reflexivity.
    + rewrite Hk. reflexivity.
Qed.

Lemma get_provider_apiGateway (pr : obj Js.js) (cu : Js.js) :
  Js.get inherits (Js.service_object {| Js.provider := pr; Js.custom := cu |})
    "provider.apiGateway" (Js.JObject [])
  = Js.Gives (match obj_get pr "apiGateway" with
              | Some v => if Js.truthy_js v then v else Js.JObject []
              | None => Js.JObject []
              end).
Proof.
  unfold Js.get. simpl. destruct (obj_get pr "apiGateway") as [v|]; simpl.
  - destruct (Js.truthy_js v); reflexivity.
  - rewrite not_inherited by (simpl; tauto). reflexivity.
Qed.

Lemma with_defaults_run (o : obj Js.js) :
  Js.with_defaults inherits o
  = Js.Gives
      (obj_set
         (obj_set
            (obj_set o "path" (Js.defaulted o "path" (Js.JString "/")))
            "resources" (Js.defaulted o "resources" Js.JUndefined))
         "resolveLayerArns" (Js.defaulted o "resolveLayerArns" (Js.JBool false))).
Proof.
  unfold Js.with_defaults.
  rewrite get_own_key;
    [|reflexivity | discriminate | apply not_inherited; simpl; tauto].
  cbv zeta.
  rewrite get_own_key;
    [|reflexivity | discriminate | apply not_inherited; simpl; tauto].
  rewrite get_own_key;
    [|reflexivity | discriminate | apply not_inherited; simpl; tauto].
  unfold Js.defaulted. rewrite !obj_get_set_other by discriminate.
  reflexivity.
Qed.

Lemma prop_name (o : obj Js.js) :
  Js.prop inherits (Js.JObject o) "name"
  = Js.Gives (match obj_get o "name" with
              | Some x => x
              | None => Js.JUndefined
              end).
Proof.
  simpl. destruct (obj_get o "name"); [reflexivity|].
  rewrite not_inherited by (simpl; tauto). reflexivity.
Qed.

(** In a host where none of the keys the constructor reads names an
    inherited member, the constructor never throws.  It leaves a truthy
    [provider.apiGateway] as it is and puts an empty object there otherwise,
    touching no other property of the provider section; the hook is
    registered exactly when [custom.importApiGateway] is an object with a
    truthy [name], and without the hook the [custom] section is untouched. *)
Theorem constructor_apiGateway_and_hook :
  forall (s : Js.service),
  exists pl,
    Js.constructor inherits s = Js.Gives pl
    /\ obj_get (Js.provider (Js.plugin_service pl)) "apiGateway"
       = Some (Js.defaulted (Js.provider s) "apiGateway" (Js.JObject []))
    /\ (forall k, k <> "apiGateway" ->
          obj_get (Js.provider (Js.plugin_service pl)) k
          = obj_get (Js.provider s) k)
    /\ (Js.plugin_hook pl = true
        <-> exists c o name,
              Js.custom s = Js.JObject c
              /\ obj_get c "importApiGateway" = Some (Js.JObject o)
              /\ obj_get o "name" = Some name
              /\ Js.truthy_js name = true)
    /\ (Js.plugin_hook pl = false -> Js.custom (Js.plugin_service pl) = Js.custom s).
Proof.
  assert (Hk : forall v, inherits v "name" = false).
  { intros v. apply not_inherited. simpl. tauto. }
  intros [pr cu]. unfold Js.constructor.
  rewrite get_provider_apiGateway. cbn [Js.provider Js.custom].
  rewrite get_custom_config.
  fold (Js.defaulted pr "apiGateway" (Js.JObject [])).
  set (ag := Js.defaulted pr "apiGateway" (Js.JObject [])).
  assert (Hno : forall config pl,
            pl = {| Js.plugin_service :=
                      {| Js.provider := obj_set pr "apiGateway" ag; Js.custom := cu |};
                    Js.plugin_config := config;
                    Js.plugin_hook := false |} ->
            (forall c o name, cu = Js.JObject c ->
               obj_get c "importApiGateway" = Some (Js.JObject o) ->
               obj_get o "name" = Some name -> Js.truthy_js name = true -> False) ->
            obj_get (Js.provider (Js.plugin_service pl)) "apiGateway" = Some ag
            /\ (forall k, k <> "apiGateway" ->
                  obj_get (Js.provider (Js.plugin_service pl)) k = obj_get pr k)
            /\ (Js.plugin_hook pl = true
                <-> exists c o name,
                      cu = Js.JObject c
                      /\ obj_get c "importApiGateway" = Some (Js.JObject o)
                      /\ obj_get o "name" = Some name
                      /\ Js.truthy_js name = true)
            /\ (Js.plugin_hook pl = false -> Js.custom (Js.plugin_service pl) = cu)).
  { intros config pl -> Hnone. simpl. split; [apply obj_get_set_same|].
    split; [intros k Hk'; now apply obj_get_set_other|].
    split; [|reflexivity]. split; [discriminate|].
    intros (c & o & name & H1 & H2 & H3 & H4). exfalso. eauto. }
  assert (Hempty : Js.prop inherits (Js.JObject []) "name" = Js.Gives Js.JUndefined).
  { simpl. now rewrite Hk. }
  destruct cu as [| |b|n|s|l|c];
    try (rewrite Hempty; eexists; split; [reflexivity|]; eapply Hno;
         [reflexivity|]; intros; discriminate).
  destruct (obj_get c "importApiGateway") as [v|] eqn:Ev;
    [|rewrite Hempty; eexists; split; [reflexivity|]; eapply Hno; [reflexivity|];
      intros c' o name [= <-] H _ _; congruence].
  destruct (Js.truthy_js v) eqn:Etv;
    [|rewrite Hempty; eexists; split; [reflexivity|]; eapply Hno; [reflexivity|];
      intros c' o name [= <-] H _ _; rewrite Ev in H; injection H as ->;
      discriminate Etv].
  destruct v as [| |b|n|s|l|o]; try discriminate Etv;
    try (cbn [Js.prop Js.own]; rewrite ?Hk; eexists;
         split; [reflexivity|]; eapply Hno; [reflexivity|];
         intros c' o name [= <-] H _ _; rewrite Ev in H; discriminate H).
  rewrite prop_name.
  destruct (obj_get o "name") as [name|] eqn:En;
    [|eexists; split; [reflexivity|]; eapply Hno; [reflexivity|];
      intros c' o' name [= <-] H H' _; rewrite Ev in H; injection H as <-;
      congruence].
  destruct (Js.truthy_js name) eqn:Etn;
    [|eexists; split; [reflexivity|]; eapply Hno; [reflexivity|];
      intros c' o' name' [= <-] H H' H''; rewrite Ev in H; injection H as <-;
      rewrite En in H'; injection H' as <-; congruence].
  rewrite with_defaults_run. eexists. split; [reflexivity|]. simpl.
  split; [apply obj_get_set_same|].
  split; [intros k Hk'; now apply obj_get_set_other|].
  split; [|discriminate]. split; [|reflexivity].
  intros _. exists c, o, name. auto.
Qed.

(** On a well-typed [custom.importApiGateway] the constructor agrees with
    the typed one.  The hook is registered exactly when [name] is a
    non-empty string; then [this.config] carries the given name, the given
    path or ["/"] when it is left out or empty, the given resources or
    [undefined], the given switch or [false], and, being the object of the
    service file itself, shows these values under [custom] too.  Without the
    hook the configuration is left as it was. *)
Theorem constructor_typed_config :
  forall (pr : obj Js.js) (raw : RawConfig),
  exists pl,
    Js.constructor inherits
      {| Js.provider := pr;
         Js.custom := Js.JObject [("importApiGateway", Js.encode_raw raw)] |}
    = Js.Gives pl
    /\ match constructor raw with
       | Some c =>
           Js.plugin_hook pl = true
           /\ exists o',
                Js.plugin_config pl = Js.JObject o'
                /\ obj_get o' "name" = Some (Js.JString (config_name c))
                /\ obj_get o' "path" = Some (Js.JString (config_path c))
                /\ obj_get o' "resources"
                   = Some (match config_resources c with
                           | Some rs => Js.encode_strings rs
                           | None => Js.JUndefined
                           end)
                /\ obj_get o' "resolveLayerArns"
                   = Some (Js.JBool (config_resolveLayerArns c))
                /\ Js.custom (Js.plugin_service pl)
                   = Js.JObject [("importApiGateway", Js.JObject o')]
       | None =>
           Js.plugin_hook pl = false
           /\ Js.plugin_config pl = Js.encode_raw raw
           /\ Js.custom (Js.plugin_service pl)
              = Js.JObject [("importApiGateway", Js.encode_raw raw)]
       end.
Proof.
  intros pr [name path resources switch].
  unfold Js.constructor. rewrite get_provider_apiGateway.
  cbn [Js.provider Js.custom]. rewrite get_custom_config.
  unfold constructor, Js.encode_raw.
  cbn [obj_get String.eqb Ascii.eqb Bool.eqb Js.truthy_js
       raw_name raw_path raw_resources raw_resolveLayerArns].
  rewrite prop_name.
  destruct name as [n|], path as [p|], resources as [rs|], switch as [[|]|];
    cbn;
    try (destruct (truthy n) eqn:En; cbn);
    try (eexists; split; [reflexivity|]; cbn; auto; fail);
    rewrite ?with_defaults_run;
    unfold Js.defaulted; cbn;
    try (destruct (truthy p) eqn:Ep; cbn);
    (eexists; split; [reflexivity|]; split; [reflexivity|];
     eexists; split; [reflexivity|]);
    cbn; rewrite ?Ep; repeat split; reflexivity.
Qed.

End ConstructorFacts.

Lemma object_members_host : Js.no_config_member Js.object_members.
Proof.
  intros v key Hin. unfold Js.config_keys in Hin. simpl in Hin.
  destruct v; try reflexivity;
    repeat (destruct Hin as [<-|Hin]; [reflexivity|]); destruct Hin.
Qed.

Lemma constructor_apiGateway_and_hook_witness :
  exists pl,
    Js.constructor Js.object_members
      {| Js.provider := [];
         Js.custom :=
           Js.JObject [("importApiGateway",
                        Js.JObject [("name", Js.JString "my-api")])] |}
    = Js.Gives pl
    /\ Js.plugin_hook pl = true.
Proof.
  destruct (@constructor_apiGateway_and_hook Js.object_members object_members_host
              {| Js.provider := [];
                 Js.custom :=
                   Js.JObject [("importApiGateway",
                                Js.JObject [("name", Js.JString "my-api")])] |})
    as (pl & Hrun & _ & _ & Hhook & _).
  exists pl. split; [exact Hrun|].
  apply Hhook. exists [("importApiGateway", Js.JObject [("name", Js.JString "my-api")])],
    [("name", Js.JString "my-api")], (Js.JString "my-api").
  repeat split; reflexivity.
Defined.

Lemma constructor_typed_config_witness :
  exists pl,
    Js.constructor Js.object_members
      {| Js.provider := [];
         Js.custom :=
           Js.JObject
             [("importApiGateway",
               Js.encode_raw {| raw_name := Some "my-api";
                                raw_path := None;
                                raw_resources := Some ["/users"];
                                raw_resolveLayerArns := None |})] |}
    = Js.Gives pl
    /\ Js.plugin_hook pl = true.
Proof.
  destruct (@constructor_typed_config Js.object_members object_members_host []
              {| raw_name := Some "my-api";
                 raw_path := None;
                 raw_resources := Some ["/users"];
                 raw_resolveLayerArns := None |})
    as (pl & Hrun & Hhook & _).
  exists pl. split; [exact Hrun | exact Hhook].
Defined.

(** ** [isArn] *)

Section RegexShape.

Import Regex.

Lemma append_assoc (a b c : string) : ((a ++ b) ++ c = a ++ b ++ c)%string.
Proof. induction a as [|x a IH]; simpl; [reflexivity | now rewrite IH]. Qed.

Lemma strip_prefix_some (l s s' : string) :
  strip_prefix l s = Some s' -> s = (l ++ s')%string.
Proof.
  revert s. induction l as [|a l IH]; intros s; simpl.
  - now intros [= ->].
  - destruct s as [|b s]; [discriminate|].
    destruct (Ascii.eqb a b) eqn:E; [|discriminate].
    apply Ascii.eqb_eq in E. subst b. intros H. now rewrite (IH _ H).
Qed.

Lemma lazy_plus_inv (k : string -> bool) (s : string) :
  lazy_plus k s = true ->
  exists a rest, s = (a ++ rest)%string /\ component a = true /\ k rest = true.
Proof.
  induction s as [|c s IH]; simpl; [discriminate|].
  intros H. apply andb_prop in H. destruct H as [Hc H].
  destruct (k s) eqn:Ek.
  - exists (String c EmptyString), s. unfold component. simpl.
    now rewrite Hc.
  - simpl in H. destruct (IH H) as (a & rest & -> & Ha & Hk).
    exists (String c a), rest. split; [reflexivity|]. split; [|exact Hk].
    unfold component in *. simpl. rewrite Hc.
    apply andb_prop in Ha. now destruct Ha as [_ ->].
Qed.

Lemma search_inv (toks : list token) (s : string) :
  search toks s = true ->
  exists before rest, s = (before ++ rest)%string /\ match_here toks rest = true.
Proof.
  induction s as [|c s IH]; simpl; intros H.
  - rewrite orb_false_r in H. now exists EmptyString, EmptyString.
  - destruct (match_here toks (String c s)) eqn:E.
    + now exists EmptyString, (String c s).
    + simpl in H. destruct (IH H) as (before & rest & -> & Hm).
      now exists (String c before), rest.
Qed.

Lemma isArn_sound (s : string) :
  isArn s = true ->
  exists before region account layer_name c after,
    s = (before ++ "arn:aws:lambda:" ++ region ++ ":" ++ account
           ++ ":layer:" ++ layer_name ++ ":" ++ String c after)%string
    /\ component region = true
    /\ component account = true
    /\ component layer_name = true
    /\ digit_or_plus c = true.
Proof.
  unfold isArn. intros H.
  apply search_inv in H. destruct H as (before & rest & -> & H).
  unfold arn_regex in H. cbn [match_here] in H.
  destruct (strip_prefix "arn:aws:lambda:" rest) as [r1|] eqn:E1; [|discriminate].
  apply strip_prefix_some in E1. subst rest.
  apply lazy_plus_inv in H. destruct H as (region & r2 & -> & Hregion & H).
  destruct (strip_prefix ":" r2) as [r3|] eqn:E2; [|discriminate].
  apply strip_prefix_some in E2. subst r2.
  apply lazy_plus_inv in H. destruct H as (account & r4 & -> & Haccount & H).
  destruct (strip_prefix ":layer:" r4) as [r5|] eqn:E3; [|discriminate].
  apply strip_prefix_some in E3. subst r4.
  apply lazy_plus_inv in H. destruct H as (layer_name & r6 & -> & Hname & H).
  destruct (strip_prefix ":" r6) as [r7|] eqn:E4; [|discriminate].
  apply strip_prefix_some in E4. subst r6.
  destruct r7 as [|c after]; [discriminate|].
  apply andb_prop in H. destruct H as [Hc _].
  exists before, region, account, layer_name, c, after. auto.
Qed.

Lemma isArn_complete (before region account layer_name : string) (c : ascii)
    (after : string) :
  component region = true -> component account = true ->
  component layer_name = true -> digit_or_plus c = true ->
  isArn (before ++ "arn:aws:lambda:" ++ region ++ ":" ++ account
           ++ ":layer:" ++ layer_name ++ ":" ++ String c after) = true.
Proof.
  intros Hr Ha Hn Hc. unfold isArn.
  apply search_suffix, search_here. unfold arn_regex.
  cbn [match_here]. rewrite strip_prefix_app.
  apply lazy_plus_component; [exact Hr|].
  cbn [match_here]. rewrite strip_prefix_app.
  apply lazy_plus_component; [exact Ha|].
  cbn [match_here]. rewrite strip_prefix_app.
  apply lazy_plus_component; [exact Hn|].
  cbn [match_here]. rewrite strip_prefix_app. now rewrite Hc.
Qed.

(** The exact set of strings [isArn] accepts: those that contain, anywhere,
    [arn:aws:lambda:] followed by three non-empty one-line components
    separated by [:], [:layer:] and [:], and then one digit or one plus sign.
    Nothing is required of what comes before or after. *)
Theorem isArn_shape :
  forall (s : string),
    isArn s = true
    <-> exists before region account layer_name c after,
          s = (before ++ "arn:aws:lambda:" ++ region ++ ":" ++ account
                 ++ ":layer:" ++ layer_name ++ ":" ++ String c after)%string
          /\ component region = true
          /\ component account = true
          /\ component layer_name = true
          /\ digit_or_plus c = true.
Proof.
  intros s. split.
  - apply isArn_sound.
  - intros (before & region & account & layer_name & c & after
            & -> & Hr & Ha & Hn & Hc).
    now apply isArn_complete.
Qed.

(** [isArn] is not anchored: a string that contains an ARN is an ARN,
    whatever surrounds it. *)
Theorem isArn_inside :
  forall (before s after : string),
    isArn s = true -> isArn (before ++ s ++ after) = true.
Proof.
  intros before s after H. apply isArn_sound in H.
  destruct H as (b & region & account & layer_name & c & a & -> & Hr & Ha & Hn & Hc).
  replace (before ++ (b ++ "arn:aws:lambda:" ++ region ++ ":" ++ account
                        ++ ":layer:" ++ layer_name ++ ":" ++ String c a) ++ after)%string
    with ((before ++ b) ++ "arn:aws:lambda:" ++ region ++ ":" ++ account
            ++ ":layer:" ++ layer_name ++ ":" ++ String c (a ++ after))%string.
  - now apply isArn_complete.
  - repeat first [rewrite append_assoc | progress simpl]. reflexivity.
Qed.

Lemma isArn_inside_witness :
  isArn "arn:aws:lambda:us-east-1:000000000000:layer:common:1" = true
  /\ isArn ("not " ++ "arn:aws:lambda:us-east-1:000000000000:layer:common:1"
              ++ " at all")
     = true.
Proof.
  split; [reflexivity|].
  apply (@isArn_inside "not " "arn:aws:lambda:us-east-1:000000000000:layer:common:1"
           " at all").
  reflexivity.
Defined.

End RegexShape.

(** ** The two lookups of the provider *)

(** [findRestApiIdByName] rethrows a rejected request and otherwise
    returns normally, without touching the world: the id of the first
    gateway of the response whose name equals the given one, character for
    character (gateways listed before it have other names; later ones of
    the same name are ignored), and [undefined] exactly when no gateway of
    the response has that name or the response has no [items]. *)
Theorem findRestApiIdByName_first_match :
  forall (R : Type) (p : Provider) (name : string) (w : World),
    match getRestApis p 500 with
    | inl e => findRestApiIdByName (R := R) p name w = (Throw e, w)
    | inr items =>
        exists result,
          findRestApiIdByName (R := R) p name w = (Normal result, w)
          /\ (forall id,
                result = Some id ->
                exists before api after,
                  match items with Some l => l | None => [] end
                  = before ++ api :: after
                  /\ restApi_name api = name
                  /\ restApi_id api = id
                  /\ (forall a, In a before -> restApi_name a <> name))
          /\ (result = None ->
              forall api,
                In api (match items with Some l => l | None => [] end) ->
                restApi_name api <> name)
    end.
Proof.
  intros R p name w. rewrite findRestApiIdByName_run.
  destruct (getRestApis p 500) as [e|items]; [reflexivity|].
  set (l := match items with Some l => l | None => [] end).
  exists (option_map restApi_id (find (fun a => String.eqb name (restApi_name a)) l)).
  split; [reflexivity|].
  destruct (find (fun a => String.eqb name (restApi_name a)) l) as [api|] eqn:E;
    simpl; split; try discriminate.
  - intros id [= <-]. destruct (find_first _ _ E) as (before & after & Hl & Hx & Hb).
    exists before, api, after. split; [exact Hl|].
    apply String.eqb_eq in Hx. repeat split; auto.
    intros a Ha Heq. specialize (Hb a Ha). apply String.eqb_neq in Hb. auto.
  - intros _ api Hin Heq.
    pose proof (find_none _ _ E api Hin) as Hn. simpl in Hn.
    apply String.eqb_neq in Hn. auto.
Qed.

Lemma find_app {A : Type} (f : A -> bool) (l1 l2 : list A) :
  find f (l1 ++ l2)
  = match find f l1 with
    | Some x => Some x
    | None => find f l2
    end.
Proof.
  induction l1 as [|x l1 IH]; simpl; [reflexivity|].
  destruct (f x); [reflexivity | exact IH].
Qed.

Lemma obj_get_set (V : Type) (o : obj V) (k k' : string) (v : V) :
  obj_get (obj_set o k v) k' = if String.eqb k' k then Some v else obj_get o k'.
Proof.
  destruct (String.eqb k' k) eqn:E.
  - apply String.eqb_eq in E. subst. apply obj_get_set_same.
  - apply String.eqb_neq in E. now apply obj_get_set_other.
Qed.

Lemma obj_get_assign (V : Type) (o : obj V) (k k' : string) (v : V) :
  k' <> "__proto__" ->
  obj_get (obj_assign o k v) k' = if String.eqb k' k then Some v else obj_get o k'.
Proof.
  intros Hk'. destruct (String.eqb k' k) eqn:E.
  - apply String.eqb_eq in E. subst. now apply obj_assign_same.
  - apply String.eqb_neq in E. now apply obj_assign_other.
Qed.

Section PathIndexFacts.

Lemma index_get (items : list Resource) :
  forall (pathIds : obj string) (k : string),
    k <> "__proto__" ->
    obj_get (fold_left put_resource items pathIds) k
    = match find (fun r => String.eqb k (resource_path r)) (rev items) with
      | Some r => Some (resource_id r)
      | None => obj_get pathIds k
      end.
Proof.
  induction items as [|r items IH]; intros pathIds k Hk; simpl; [reflexivity|].
  rewrite IH, find_app by exact Hk. simpl.
  destruct (find (fun r0 => String.eqb k (resource_path r0)) (rev items));
    [reflexivity|].
  unfold put_resource. rewrite obj_get_assign by exact Hk.
  destruct (String.eqb k (resource_path r)); reflexivity.
Qed.

Lemma index_keys (items : list Resource) :
  forall (pathIds : obj string),
    obj_get pathIds "__proto__" = None ->
    (forall k, In k (obj_keys (fold_left put_resource items pathIds))
               <-> (In k (map resource_path items) /\ k <> "__proto__")
                   \/ In k (obj_keys pathIds))
    /\ (NoDup (obj_keys pathIds) -> NoDup (obj_keys (fold_left put_resource items pathIds))).
Proof.
  induction items as [|r items IH]; intros pathIds Hnone; simpl; [tauto|].
  assert (Hnone' : obj_get (put_resource pathIds r) "__proto__" = None)
    by (unfold put_resource; now apply obj_assign_proto).
  destruct (IH (put_resource pathIds r) Hnone') as [IHk IHn]. split.
  - intros k. rewrite IHk. unfold put_resource.
    rewrite (obj_assign_keys pathIds _ _ k Hnone). split.
    + intros [[Hin Hk]|[[-> Hk]|Hin]]; auto.
    + intros [[[<-|Hin] Hk]|Hin]; auto.
  - intros Hnd. apply IHn. unfold put_resource. now apply obj_assign_NoDup.
Qed.

(** [getRestApiPathIds] rethrows a rejected request; otherwise it returns,
    without touching the world, an index whose keys are exactly the paths of
    the response, each once, and in which a path listed several times has
    the id of its last listing.  The one exception is a resource whose path
    is [__proto__]: the assignment of line 46 leaves no property for it.  A
    response without [items] gives the empty index. *)
Theorem getRestApiPathIds_last_listing_wins :
  forall (R : Type) (p : Provider) (restApiId : string) (w : World),
    match getResources p 500 restApiId with
    | inl e => getRestApiPathIds (R := R) p restApiId w = (Throw e, w)
    | inr items =>
        exists pathIds,
          getRestApiPathIds (R := R) p restApiId w = (Normal pathIds, w)
          /\ NoDup (obj_keys pathIds)
          /\ (forall k, In k (obj_keys pathIds)
                        <-> In k (map resource_path
                                    (match items with Some l => l | None => [] end))
                            /\ k <> "__proto__")
          /\ (forall k,
                k <> "__proto__" ->
                obj_get pathIds k
                = option_map resource_id
                    (find (fun r => String.eqb k (resource_path r))
                       (rev (match items with Some l => l | None => [] end))))
          /\ obj_get pathIds "__proto__" = None
          /\ ((forall r, In r (match items with Some l => l | None => [] end) ->
                 resource_path r <> "__proto__") ->
              (forall k, In k (obj_keys pathIds)
                         <-> In k (map resource_path
                                     (match items with Some l => l | None => [] end)))
              /\ (forall k,
                    obj_get pathIds k
                    = option_map resource_id
                        (find (fun r => String.eqb k (resource_path r))
                           (rev (match items with Some l => l | None => [] end)))))
    end.
Proof.
  intros R p restApiId w. rewrite getRestApiPathIds_run.
  destruct (getResources p 500 restApiId) as [e|items]; [reflexivity|].
  set (l := match items with Some l => l | None => [] end).
  exists (fold_left put_resource l []).
  destruct (index_keys l [] eq_refl) as [Hk Hn].
  assert (Hget : forall k, k <> "__proto__" ->
            obj_get (fold_left put_resource l []) k
            = option_map resource_id
                (find (fun r => String.eqb k (resource_path r)) (rev l))).
  { intros k Hproto. rewrite index_get by exact Hproto.
    destruct (find (fun r => String.eqb k (resource_path r)) (rev l));
      reflexivity. }
  pose proof (put_resources_proto l [] eq_refl) as Hnone.
  split; [reflexivity|]. split; [apply Hn; constructor|].
  split; [|split; [exact Hget | split; [exact Hnone|]]].
  - intros k. rewrite Hk. simpl. tauto.
  - intros Hpaths. split.
    + intros k. rewrite Hk. simpl. split; [tauto|]. intros Hin. left.
      split; [exact Hin|]. intros ->.
      apply in_map_iff in Hin. destruct Hin as (r & Hr & Hin).
      now apply (Hpaths r Hin).
    + intros k. destruct (String.eqb k "__proto__") eqn:E;
        [|apply Hget; now apply String.eqb_neq].
      apply String.eqb_eq in E. subst k. rewrite Hnone.
      destruct (find (fun r => String.eqb "__proto__" (resource_path r)) (rev l))
        as [r|] eqn:Efind; [|reflexivity].
      apply find_some in Efind. destruct Efind as [Hin Heq].
      apply String.eqb_eq in Heq. apply in_rev in Hin.
      now destruct (Hpaths r Hin).
Qed.

(** A resource listed under the path [__proto__] is not in the index. *)
Example proto_path_leaves_no_key :
  getRestApiPathIds (R := unit)
    {| getRestApis := fun _ => inr (Some Scenario.gateways);
       getResources := fun _ _ =>
         inr (Some [ {| resource_id := "abc123"; resource_path := "/" |};
                     {| resource_id := "p1"; resource_path := "__proto__" |} ]);
       listLayers := fun _ => inr (Some Scenario.inventory) |}
    "r1" Scenario.scenario_b
  = (Normal [("/", "abc123")], Scenario.scenario_b).
Proof. reflexivity. Qed.

End PathIndexFacts.

(** ** Layer resolution *)

Lemma resolved_entry_string (existingLayers : obj string) (n : string) :
  match resolve_entry existingLayers n with VString _ => false | _ => true end
  = unresolved existingLayers n.
Proof.
  unfold resolve_entry, unresolved.
  destruct (isArn n); [reflexivity|].
  destruct (obj_get existingLayers n); [reflexivity|].
  destruct (inherited n); reflexivity.
Qed.

Lemma find_resolved (existingLayers : obj string) (names : list string) :
  find (fun x => match x with VString _ => false | _ => true end)
    (map (resolve_entry existingLayers) names)
  = option_map (resolve_entry existingLayers)
      (find (unresolved existingLayers) names).
Proof.
  induction names as [|n names IH]; [reflexivity|].
  cbn [map find]. rewrite resolved_entry_string.
  destruct (unresolved existingLayers n); [reflexivity | exact IH].
Qed.

Lemma resolve_entry_unresolved (existingLayers : obj string) (m : string) :
  unresolved existingLayers m = true ->
  resolve_entry existingLayers m = (if inherited m then VMember m else VUndefined).
Proof.
  unfold unresolved, resolve_entry. intros H. apply andb_prop in H.
  destruct H as [Harn Hget]. apply negb_true_iff in Harn. rewrite Harn.
  destruct (obj_get existingLayers m); [discriminate Hget | reflexivity].
Qed.

(** Resolution is not repeatable after a miss.  When some bare name of the
    list is not in the inventory, the first pass returns a list in which
    the first such name [m] has become [undefined], or, if [m] is the name
    of a member of [Object.prototype], that member; a second pass over that
    list, against any inventory, throws at that entry (the TypeError of
    [undefined.match], resp. of calling a [match] that is not there)
    without logging anything. *)
Theorem second_resolution_throws :
  forall (names : list string) (first second : obj string) (w : World) (n : string),
    In n names -> isArn n = false -> obj_get first n = None ->
    exists out w1 before m after,
      _resolveLayerArns (R := unit) (Some (map VString names)) first w
        = (Normal out, w1)
      /\ names = before ++ m :: after
      /\ (forall k, In k before ->
            isArn k = true \/ exists arn, obj_get first k = Some arn)
      /\ isArn m = false /\ obj_get first m = None
      /\ (In m object_prototype ->
          nth_error out (length before) = Some (VMember m)
          /\ _resolveLayerArns (R := unit) (Some out) second w1
             = (Throw (TypeError "string.match is not a function"), w1))
      /\ (~ In m object_prototype ->
          nth_error out (length before) = Some VUndefined
          /\ _resolveLayerArns (R := unit) (Some out) second w1
             = (Throw (TypeError
                         "Cannot read properties of undefined (reading 'match')"),
                w1)).
Proof.
  intros names first second w n Hin Harn Hget.
  rewrite resolve_strings.
  destruct (find (unresolved first) names) as [m|] eqn:Efind.
  2:{ exfalso. pose proof (find_none _ _ Efind n Hin) as H.
      unfold unresolved in H. rewrite Harn, Hget in H. discriminate H. }
  destruct (find_first _ _ Efind) as (before & after & Hnames & Hun & Hbefore).
  eexists. eexists. exists before, m, after.
  split; [reflexivity|]. split; [exact Hnames|].
  pose proof (resolve_entry_unresolved first m Hun) as Hentry.
  assert (Hnth : nth_error (map (resolve_entry first) names) (length before)
                 = Some (resolve_entry first m)).
  { rewrite Hnames, map_app, nth_error_app2; rewrite length_map; [|lia].
    now rewrite Nat.sub_diag. }
  assert (Hm : isArn m = false /\ obj_get first m = None).
  { unfold unresolved in Hun. apply andb_prop in Hun. destruct Hun as [H1 H2].
    apply negb_true_iff in H1. split; [exact H1|].
    destruct (obj_get first m); [discriminate H2 | reflexivity]. }
  split.
  { intros k Hk. specialize (Hbefore k Hk). unfold unresolved in Hbefore.
    destruct (isArn k); [now left|]. simpl in Hbefore.
    destruct (obj_get first k) as [arn|]; [right; now exists arn | discriminate]. }
  split; [exact (proj1 Hm)|]. split; [exact (proj2 Hm)|].
  split.
  - intros Hmem. apply inherited_spec in Hmem. rewrite Hmem in Hentry.
    split; [now rewrite Hnth, Hentry|].
    apply (@resolve_throws unit second _ (VMember m));
      [now rewrite find_resolved, Efind, <- Hentry | reflexivity].
  - intros Hmem. destruct (inherited m) eqn:E.
    { apply inherited_spec in E. contradiction. }
    split; [now rewrite Hnth, Hentry|].
    apply (@resolve_throws unit second _ VUndefined);
      [now rewrite find_resolved, Efind, <- Hentry | reflexivity].
Qed.

Lemma second_resolution_throws_witness :
  exists out w1 before m after,
    _resolveLayerArns (R := unit)
      (Some (map VString [Scenario.common_arn; "constructor"; "shared-utils"])) []
      Scenario.scenario_b
      = (Normal out, w1)
    /\ [Scenario.common_arn; "constructor"; "shared-utils"] = before ++ m :: after
    /\ (forall k, In k before ->
          isArn k = true \/ exists arn, obj_get ([] : obj string) k = Some arn)
    /\ isArn m = false /\ obj_get ([] : obj string) m = None
    /\ (In m object_prototype ->
        nth_error out (length before) = Some (VMember m)
        /\ _resolveLayerArns (R := unit) (Some out) [("shared-utils", "arn")] w1
           = (Throw (TypeError "string.match is not a function"), w1))
    /\ (~ In m object_prototype ->
        nth_error out (length before) = Some VUndefined
        /\ _resolveLayerArns (R := unit) (Some out) [("shared-utils", "arn")] w1
           = (Throw (TypeError
                       "Cannot read properties of undefined (reading 'match')"),
              w1)).
Proof.
  apply (@second_resolution_throws
           [Scenario.common_arn; "constructor"; "shared-utils"] []
           [("shared-utils", "arn")] Scenario.scenario_b "shared-utils");
    [simpl; auto | reflexivity | reflexivity].
Defined.

Example second_resolution_of_a_missing_name :
  _resolveLayerArns (R := unit) (Some [VString "shared-utils"]) []
    Scenario.scenario_b
  = (Normal [VUndefined],
     add_log (CliLog "Resolved layer ARNs: ") Scenario.scenario_b)
  /\ _resolveLayerArns (R := unit) (Some [VUndefined]) [("shared-utils", "arn")]
       Scenario.scenario_b
     = (Throw match_of_undefined, Scenario.scenario_b).
Proof. split; reflexivity. Qed.

Example second_resolution_after_a_member :
  _resolveLayerArns (R := unit) (Some [VMember "constructor"; VUndefined])
    [("shared-utils", "arn")] Scenario.scenario_b
  = (Throw match_not_a_function, Scenario.scenario_b).
Proof. reflexivity. Qed.

Lemma inventory_loop_value (R : Type) (ls : list Layer) :
  complete_inventory (Some ls) = true ->
  forall (existing : obj string) (w : World),
    for_of ls (@inventory_body R) existing w
    = (Normal
         (fold_left
            (fun existing l =>
               match LatestMatchingVersion l with
               | Some v => obj_assign existing (LayerName l) (LayerVersionArn v)
               | None => existing
               end)
            ls existing),
       w).
Proof.
  unfold complete_inventory.
  induction ls as [|l ls IH]; intros Hls existing w; [reflexivity|].
  simpl in Hls. apply andb_prop in Hls. destruct Hls as [Hl Hls].
  cbn [for_of fold_left].
  destruct (LatestMatchingVersion l) as [v|] eqn:El; [|discriminate Hl].
  assert (Hstep : @inventory_body R l existing w
                  = (Normal (obj_assign existing (LayerName l) (LayerVersionArn v)), w))
    by (unfold inventory_body, latest_arn; now rewrite El).
  rewrite (bind_normal _ _ _ Hstep). now apply IH.
Qed.

(** A model whose provider-level list holds an entry that is not a string
    (the [undefined], or the inherited member, that an earlier run leaves
    for a name it could not resolve) cannot be imported: the run throws
    inside layer resolution before anything is written, and ends with the
    world as it was plus one [console.error] line.  Against a complete
    inventory the error is the TypeError of [isArn] on the first such entry:
    that of [undefined.match] for an [undefined]. *)
Theorem undefined_entry_aborts_the_run :
  forall (p : Provider) (w : World) (ls : list value) (v : value),
    provider_layers (service w) = Some ls ->
    find (fun x => match x with VString _ => false | _ => true end) ls = Some v ->
    exists e,
      importApiGateway_try p w = (Throw e, w)
      /\ importApiGateway p w
         = (Normal tt, add_log (ConsoleError (error_banner e)) w)
      /\ (forall response,
            listLayers p 50 = inr response ->
            complete_inventory response = true ->
            match_error v = Some e
            /\ (v = VUndefined -> e = match_of_undefined)).
Proof.
  intros p w ls v Hpl Hfind.
  assert (Hv : exists e0, match_error v = Some e0).
  { apply find_some in Hfind. destruct Hfind as [_ Hv].
    destruct v as [s| |name]; [discriminate Hv | eexists; reflexivity..]. }
  destruct Hv as (e0 & He0).
  assert (H : exists e,
            resolveLayerArns (R := unit) p w = (Throw e, w)
            /\ (forall response,
                  listLayers p 50 = inr response ->
                  complete_inventory response = true ->
                  e = e0)).
  { unfold resolveLayerArns.
    destruct (listLayers p 50) as [e|response] eqn:Eresp.
    - exists e. split; [reflexivity | discriminate].
    - unfold request. rewrite bind_ret.
      change (fun (layer : Layer) (existingLayers : obj string) =>
                arn <- latest_arn layer ;;
                ret (obj_assign existingLayers (LayerName layer) arn))
        with (@inventory_body unit).
      destruct (inventory_loop unit
                  (match response with Some ls => ls | None => [] end) [] w)
        as [[existing E]|[e E]].
      + exists e0. split; [|reflexivity].
        rewrite (bind_normal _ _ _ E), bind_gets, Hpl.
        now rewrite (bind_throw _ _ _ (@resolve_throws unit existing ls v e0 w Hfind He0)).
      + exists e. split; [now rewrite (bind_throw _ _ _ E)|].
        intros response' [= <-] Hwf.
        assert (Hwf' : complete_inventory
                         (Some (match response with Some ls => ls | None => [] end))
                       = true) by (destruct response; exact Hwf).
        rewrite (inventory_loop_value unit _ Hwf') in E. discriminate E. }
  destruct H as (e & Hthrow & Hwhich). exists e.
  assert (Htry : importApiGateway_try p w = (Throw e, w)).
  { unfold importApiGateway_try. now rewrite (bind_throw _ _ _ Hthrow). }
  rewrite importApiGateway_of_try, Htry.
  split; [reflexivity|]. split; [reflexivity|].
  intros response Hresp Hwf. rewrite (Hwhich response Hresp Hwf).
  split; [exact He0|]. intros ->. now injection He0 as <-.
Qed.

Lemma undefined_entry_aborts_the_run_witness :
  exists e,
    importApiGateway_try Scenario.aws
      (set_service (with_provider_layers (Some [VUndefined])) Scenario.scenario_b)
    = (Throw e,
       set_service (with_provider_layers (Some [VUndefined])) Scenario.scenario_b)
    /\ importApiGateway Scenario.aws
         (set_service (with_provider_layers (Some [VUndefined])) Scenario.scenario_b)
       = (Normal tt,
          add_log (ConsoleError (error_banner e))
            (set_service (with_provider_layers (Some [VUndefined]))
               Scenario.scenario_b))
    /\ (forall response,
          listLayers Scenario.aws 50 = inr response ->
          complete_inventory response = true ->
          match_error VUndefined = Some e
          /\ (VUndefined = VUndefined -> e = match_of_undefined)).
Proof.
  apply (@undefined_entry_aborts_the_run Scenario.aws
           (set_service (with_provider_layers (Some [VUndefined])) Scenario.scenario_b)
           [VUndefined] VUndefined);
    reflexivity.
Defined.

Section PreciseFrame.

Variable I : World -> World -> Prop.
Hypothesis I_refl : forall w, I w w.
Hypothesis I_trans : forall w1 w2 w3, I w1 w2 -> I w2 w3 -> I w1 w3.
Hypothesis I_log : forall w l, I w (add_log l w).
Hypothesis I_provider_layers :
  forall w ls, I w (set_service (with_provider_layers (Some ls)) w).
Hypothesis I_function_layers :
  forall w i resolved,
    I w (set_service (fun s =>
           with_functions
             (option_map
                (update_at i (fun '(k, f) => (k, with_layers (Some resolved) f)))
                (functions s))
             s) w).

(** Layer resolution writes a provider-level list, the [layers] of single
    functions, and log lines; nothing else. *)
Lemma preserves_resolveLayerArns_writes {R : Type} (p : Provider) :
  preserves I (resolveLayerArns (R := R) p).
Proof.
  unfold resolveLayerArns.
  apply preserves_bind; auto using preserves_request. intros response.
  apply preserves_bind; auto.
  { apply preserves_for_of; auto. intros layer existing.
    apply preserves_bind; auto.
    - unfold latest_arn. destruct (LatestMatchingVersion layer);
        auto using preserves_ret, preserves_throw.
    - intros. now apply preserves_ret. }
  intros existing.
  apply preserves_bind; auto using preserves_gets. intros pl.
  apply preserves_bind; auto using preserves_resolve. intros resolved.
  apply preserves_bind; auto using preserves_modify. intros _.
  apply preserves_bind; auto using preserves_gets.
  intros [fs|]; [|now apply preserves_ret].
  apply preserves_bind; auto; [|intros; now apply preserves_ret].
  apply preserves_for_of; auto. intros [fname func] i.
  destruct (layers func) as [ls|]; [|now apply preserves_ret].
  apply preserves_bind; auto using preserves_resolve. intros resolved'.
  apply preserves_bind; auto; [|intros; now apply preserves_ret].
  apply preserves_modify. intros w. apply I_function_layers.
Qed.

End PreciseFrame.

Lemma map_update_at {A B : Type} (g : A -> B) (f : A -> A) (i : nat) (l : list A) :
  (forall x, g (f x) = g x) -> map g (update_at i f l) = map g l.
Proof.
  intros Hf. revert i. induction l as [|x l IH]; intros [|i]; simpl;
    rewrite ?Hf, ?IH; reflexivity.
Qed.

Lemma layers_frame_refl (w : World) : layers_frame w w.
Proof.
  unfold layers_frame. repeat split; auto. exists []. now rewrite app_nil_r.
Qed.

Lemma layers_frame_trans (w1 w2 w3 : World) :
  layers_frame w1 w2 -> layers_frame w2 w3 -> layers_frame w1 w3.
Proof.
  intros (Hc & Ha & Hf & Hp & l1 & Hl) (Hc' & Ha' & Hf' & Hp' & l2 & Hl').
  unfold layers_frame. repeat split; try congruence; auto.
  exists (l1 ++ l2). now rewrite Hl', Hl, app_assoc.
Qed.

(** However layer resolution ends (also when it throws half-way), it has
    not touched the configuration, [provider.apiGateway], or the names,
    order and events of the functions; a provider-level list that was there
    is still there; and the log has only grown. *)
Theorem resolveLayerArns_frame :
  forall (R : Type) (p : Provider) (w : World),
    layers_frame w (snd (resolveLayerArns (R := R) p w)).
Proof.
  intros R p w.
  destruct (resolveLayerArns (R := R) p w) as [c w'] eqn:E. simpl.
  revert w c w' E. change (preserves layers_frame (resolveLayerArns (R := R) p)).
  apply preserves_resolveLayerArns_writes.
  - apply layers_frame_refl.
  - apply layers_frame_trans.
  - intros w l. unfold layers_frame. simpl. repeat split; auto. now exists [l].
  - intros w ls. unfold layers_frame. simpl. repeat split; auto.
    + discriminate.
    + exists []. now rewrite app_nil_r.
  - intros w i resolved. unfold layers_frame, function_shapes. simpl.
    repeat split; auto.
    + destruct (functions (service w)) as [fs|]; simpl; [|reflexivity].
      f_equal. apply map_update_at. now intros [k f].
    + exists []. now rewrite app_nil_r.
Qed.

Lemma strings_only_names (ls : list value) :
  strings_only (Some ls) = true -> exists names, ls = map VString names.
Proof.
  induction ls as [|v ls IH]; simpl; intros H.
  - now exists [].
  - destruct v as [s| |name]; [|discriminate H|discriminate H].
    destruct (IH H) as (names & ->). now exists (s :: names).
Qed.

Lemma resolve_strings_only (R : Type) (existingLayers : obj string)
    (ls : list value) (w : World) :
  strings_only (Some ls) = true ->
  exists w',
    _resolveLayerArns (R := R) (Some ls) existingLayers w
    = (Normal (map (resolve_value existingLayers) ls), w')
    /\ service w' = service w /\ config w' = config w.
Proof.
  intros H. destruct (strings_only_names ls H) as (names & ->).
  rewrite resolve_strings, map_map. cbn [resolve_value].
  destruct (existsb (fun n => negb (isArn n)) names); eexists; split;
    reflexivity || (split; reflexivity).
Qed.

Lemma functions_loop_resolves (R : Type) (existingLayers : obj string)
    (todo : obj FunctionDescriptor) :
  forall (done : obj FunctionDescriptor) (w : World),
    functions (service w)
      = Some (map (resolve_function existingLayers) done ++ todo) ->
    forallb (fun entry => strings_only (layers (snd entry))) todo = true ->
    exists w',
      for_of todo (@function_body R existingLayers) (length done) w
      = (Normal (length done + length todo), w')
      /\ functions (service w')
         = Some (map (resolve_function existingLayers) (done ++ todo))
      /\ provider_layers (service w') = provider_layers (service w)
      /\ provider_apiGateway (service w') = provider_apiGateway (service w)
      /\ config w' = config w.
Proof.
  induction todo as [|[fname func] todo IH]; intros done w Hfs Hstr.
  - exists w. simpl. rewrite Nat.add_0_r, app_nil_r in *. auto.
  - simpl in Hstr. apply andb_prop in Hstr. destruct Hstr as [Hfunc Hstr].
    assert (Hstep : exists w1,
              @function_body R existingLayers (fname, func) (length done) w
              = (Normal (S (length done)), w1)
              /\ functions (service w1)
                 = Some (map (resolve_function existingLayers)
                           (done ++ [(fname, func)]) ++ todo)
              /\ provider_layers (service w1) = provider_layers (service w)
              /\ provider_apiGateway (service w1) = provider_apiGateway (service w)
              /\ config w1 = config w).
    { unfold function_body. rewrite map_app, <- app_assoc.
      unfold resolve_function at 2. cbn [map snd fst app].
      destruct (layers func) as [ls|] eqn:El.
      - destruct (resolve_strings_only R existingLayers ls w Hfunc)
          as (wa & Hres & Hsvc & Hcfg).
        rewrite (bind_normal _ _ _ Hres), bind_modify.
        eexists. split; [reflexivity|]. simpl. rewrite Hsvc, Hfs. simpl.
        rewrite <- (length_map (resolve_function existingLayers) done).
        rewrite update_at_app. auto.
      - exists w. auto. }
    destruct Hstep as (w1 & Hstep & Hfs1 & Hpl1 & Hag1 & Hcfg1).
    cbn [for_of]. rewrite (bind_normal _ _ _ Hstep).
    replace (S (length done)) with (length (done ++ [(fname, func)]))
      by (rewrite length_app; simpl; lia).
    destruct (IH (done ++ [(fname, func)]) w1 Hfs1 Hstr)
      as (w' & Hrun & Hfs' & Hpl' & Hag' & Hcfg').
    exists w'. rewrite Hrun, Hfs', <- app_assoc.
    repeat split; try congruence.
    rewrite length_app. simpl. do 2 f_equal. lia.
Qed.

Lemma inventory_get (ls : list Layer) :
  complete_inventory (Some ls) = true ->
  forall (existing : obj string) (name : string),
    name <> "__proto__" ->
    obj_get
      (fold_left
         (fun existing l =>
            match LatestMatchingVersion l with
            | Some v => obj_assign existing (LayerName l) (LayerVersionArn v)
            | None => existing
            end)
         ls existing)
      name
    = match find (fun l => String.eqb name (LayerName l)) (rev ls) with
      | Some l => option_map LayerVersionArn (LatestMatchingVersion l)
      | None => obj_get existing name
      end.
Proof.
  unfold complete_inventory.
  induction ls as [|l ls IH]; intros Hls existing name Hname; simpl; [reflexivity|].
  simpl in Hls. apply andb_prop in Hls. destruct Hls as [Hl Hls].
  rewrite (IH Hls), find_app by exact Hname. simpl.
  destruct (find (fun l0 => String.eqb name (LayerName l0)) (rev ls));
    [reflexivity|].
  destruct (LatestMatchingVersion l) as [v|] eqn:El; [|discriminate Hl].
  rewrite obj_get_assign by exact Hname.
  destruct (String.eqb name (LayerName l)); [now rewrite El | reflexivity].
Qed.

Lemma inventory_proto (ls : list Layer) :
  forall existing : obj string,
    obj_get existing "__proto__" = None ->
    obj_get
      (fold_left
         (fun existing l =>
            match LatestMatchingVersion l with
            | Some v => obj_assign existing (LayerName l) (LayerVersionArn v)
            | None => existing
            end)
         ls existing)
      "__proto__"
    = None.
Proof.
  induction ls as [|l ls IH]; intros existing H; simpl; [exact H|].
  apply IH. destruct (LatestMatchingVersion l); [|exact H].
  now apply obj_assign_proto.
Qed.

(** The effect of a successful layer resolution, in full.  With a complete
    inventory and layer lists of strings, [resolveLayerArns] runs to its
    end; the provider-level list and the list of every function that has
    one are mapped entry by entry: an ARN is kept; a bare name becomes the
    ARN the inventory has for it; a bare name the inventory lacks becomes
    [undefined], or, when it is the name of a member of [Object.prototype],
    that member.  Functions without a list, [provider.apiGateway] and the
    configuration are as before.  The inventory has, for a name, the ARN of
    its last listing in the response, and nothing for [__proto__]. *)
Theorem resolveLayerArns_resolves_every_list :
  forall (p : Provider) (w : World) (response : option (list Layer))
         (pl : list value),
    listLayers p 50 = inr response ->
    complete_inventory response = true ->
    provider_layers (service w) = Some pl ->
    strings_only (Some pl) = true ->
    match functions (service w) with
    | Some fs => forallb (fun entry => strings_only (layers (snd entry))) fs
    | None => true
    end = true ->
    exists w',
      resolveLayerArns (R := unit) p w = (Normal tt, w')
      /\ service w'
         = {| provider_layers :=
                Some (map (resolve_value
                             (inventory_of
                                (match response with Some ls => ls | None => [] end)))
                        pl);
              provider_apiGateway := provider_apiGateway (service w);
              functions :=
                option_map
                  (map (resolve_function
                          (inventory_of
                             (match response with Some ls => ls | None => [] end))))
                  (functions (service w)) |}
      /\ config w' = config w
      /\ (forall name,
            name <> "__proto__" ->
            obj_get (inventory_of (match response with Some ls => ls | None => [] end))
              name
            = match find (fun l => String.eqb name (LayerName l))
                      (rev (match response with Some ls => ls | None => [] end))
              with
              | Some l => option_map LayerVersionArn (LatestMatchingVersion l)
              | None => None
              end)
      /\ obj_get (inventory_of (match response with Some ls => ls | None => [] end))
           "__proto__"
         = None
      /\ (forall existing name,
            resolve_value existing (VString name)
            = if isArn name then VString name
              else match obj_get existing name with
                   | Some arn => VString arn
                   | None =>
                       if existsb (String.eqb name) object_prototype
                       then VMember name
                       else VUndefined
                   end).
Proof.
  intros p w response pl Hresp Hwf Hpl Hstr Hfs.
  assert (Hinv : forall name,
            name <> "__proto__" ->
            obj_get (inventory_of (match response with Some ls => ls | None => [] end))
              name
            = match find (fun l => String.eqb name (LayerName l))
                      (rev (match response with Some ls => ls | None => [] end))
              with
              | Some l => option_map LayerVersionArn (LatestMatchingVersion l)
              | None => None
              end).
  { intros name Hname. unfold inventory_of.
    rewrite inventory_get; [reflexivity| |exact Hname].
    destruct response; exact Hwf. }
  assert (Hproto : obj_get (inventory_of
                              (match response with Some ls => ls | None => [] end))
                     "__proto__" = None).
  { unfold inventory_of. now apply inventory_proto. }
  assert (Hvalue : forall existing name,
            resolve_value existing (VString name)
            = if isArn name then VString name
              else match obj_get existing name with
                   | Some arn => VString arn
                   | None =>
                       if existsb (String.eqb name) object_prototype
                       then VMember name
                       else VUndefined
                   end) by reflexivity.
  set (inv := inventory_of (match response with Some ls => ls | None => [] end)) in *.
  unfold resolveLayerArns. rewrite Hresp. unfold request. rewrite bind_ret.
  change (fun (layer : Layer) (existingLayers : obj string) =>
            arn <- latest_arn layer ;;
            ret (obj_assign existingLayers (LayerName layer) arn))
    with (@inventory_body unit).
  assert (Hwf' : complete_inventory
                   (Some (match response with Some ls => ls | None => [] end))
                 = true) by (destruct response; exact Hwf).
  rewrite (bind_normal _ _ _ (inventory_loop_value unit _ Hwf' [] w)).
  fold (inventory_of (match response with Some ls => ls | None => [] end)).
  fold inv. rewrite bind_gets, Hpl.
  destruct (resolve_strings_only unit inv pl w Hstr) as (wa & Hres & Hsvc & Hcfg).
  rewrite (bind_normal _ _ _ Hres), bind_modify, bind_gets.
  cbn [set_service service functions with_provider_layers]. rewrite Hsvc.
  destruct (functions (service w)) as [fs|] eqn:Efs.
  - set (wb := set_service (with_provider_layers
                              (Some (map (resolve_value inv) pl))) wa).
    assert (Hfsb : functions (service wb)
                   = Some (map (resolve_function inv) [] ++ fs))
      by (unfold wb; simpl; now rewrite Hsvc).
    destruct (functions_loop_resolves unit inv fs [] wb Hfsb Hfs)
      as (w' & Hrun & Hfs' & Hpl' & Hag' & Hcfg').
    simpl in Hrun. exists w'. split.
    + change ((for_of fs (@function_body unit inv) 0 ;; ret tt) wb = (Normal tt, w')).
      now rewrite (bind_normal _ _ _ Hrun).
    + split; [|split; [unfold wb in Hcfg'; simpl in Hcfg'; congruence
                      | split; [exact Hinv | split; [exact Hproto | exact Hvalue]]]].
      destruct (service w') as [pl' ag' fs']. simpl in *.
      unfold wb in Hpl', Hag'. simpl in Hpl', Hag'. rewrite Hsvc in Hag'.
      simpl. congruence.
  - eexists. split; [reflexivity|].
    split; [|split; [exact Hcfg
                    | split; [exact Hinv | split; [exact Hproto | exact Hvalue]]]].
    simpl. rewrite Hsvc. destruct (service w) as [pl0 ag0 fs0]. simpl in *.
    now subst.
Qed.

Lemma resolveLayerArns_resolves_every_list_witness :
  exists w',
    resolveLayerArns (R := unit) Scenario.aws scenario_d = (Normal tt, w')
    /\ functions (service w')
       = Some [("users",
                with_layers (Some [VString Scenario.common_arn])
                  Scenario.users_function)].
Proof.
  destruct (@resolveLayerArns_resolves_every_list Scenario.aws scenario_d
              (Some Scenario.inventory) [] eq_refl eq_refl eq_refl eq_refl eq_refl)
    as (w' & Hrun & Hsvc & _).
  exists w'. split; [exact Hrun|]. now rewrite Hsvc.
Defined.

(** ** The whole run, and the run of the earlier file *)

Lemma importApiGateway_try_layers_first (p : Provider) :
  importApiGateway_try p
  = (resolveLayerArns p ;; Part000.importApiGateway_try p).
Proof. reflexivity. Qed.

Section RunFrame.

Variable I : World -> World -> Prop.
Hypothesis I_refl : forall w, I w w.
Hypothesis I_trans : forall w1 w2 w3, I w1 w2 -> I w2 w3 -> I w1 w3.
Hypothesis I_log : forall w l, I w (add_log l w).
Hypothesis I_apiGateway :
  forall w f, I w (set_service (fun s => with_apiGateway (f s) s) w).
Hypothesis I_inferred :
  forall w rs, config_resources (config w) = None ->
               I w (set_config (with_resources rs) w).

Lemma preserves_inferResources_unset {R : Type} (pathIds : obj string) :
  preserves I (inferResources (R := R) pathIds).
Proof.
  intros w c w' H. rewrite inferResources_run in H. injection H as _ <-.
  destruct (config_resources (config w)) eqn:E; auto.
Qed.

(** The run of the earlier file writes [provider.apiGateway], an unset
    [config.resources], and log lines; nothing else. *)
Lemma preserves_part000_try (p : Provider) :
  preserves I (Part000.importApiGateway_try p).
Proof.
  assert (Habort : forall msg,
            preserves I (cli_log (R := unit) msg ;; return_ (A := unit) tt)).
  { intros msg. apply preserves_bind; auto using preserves_cli_log.
    intros. now apply preserves_return. }
  unfold Part000.importApiGateway_try.
  apply preserves_bind; auto using preserves_gets. intros name.
  apply preserves_bind; auto using preserves_findRestApiIdByName.
  intros [restApiId|]; [|apply Habort].
  destruct (negb (truthy restApiId)); [apply Habort|].
  apply preserves_bind; auto using preserves_getRestApiPathIds. intros pathIds.
  apply preserves_bind; auto using preserves_gets. intros path.
  destruct (obj_index pathIds path) as [rootResourceId|]; [|apply Habort].
  destruct (negb (truthy_found rootResourceId)); [apply Habort|].
  apply preserves_bind; auto using preserves_inferResources_unset. intros _.
  apply preserves_bind; auto using preserves_gets. intros rs.
  apply preserves_bind; auto using preserves_selectResources. intros res.
  apply preserves_bind; auto.
  { apply preserves_modify. intros w. apply I_apiGateway. }
  intros _. apply preserves_bind; auto using preserves_gets. intros ag.
  now apply preserves_modify.
Qed.

Lemma preserves_part000 (p : Provider) :
  preserves I (Part000.importApiGateway p).
Proof.
  unfold Part000.importApiGateway.
  apply preserves_call, preserves_try_catch; auto using preserves_part000_try.
  intros e. now apply preserves_modify.
Qed.

Hypothesis I_provider_layers :
  forall w ls, I w (set_service (with_provider_layers (Some ls)) w).
Hypothesis I_function_layers :
  forall w i resolved,
    I w (set_service (fun s =>
           with_functions
             (option_map
                (update_at i (fun '(k, f) => (k, with_layers (Some resolved) f)))
                (functions s))
             s) w).

Lemma preserves_importApiGateway (p : Provider) :
  preserves I (importApiGateway p).
Proof.
  unfold importApiGateway.
  apply preserves_call, preserves_try_catch; auto.
  - rewrite importApiGateway_try_layers_first.
    apply preserves_bind; auto using preserves_resolveLayerArns_writes.
    intros _. apply preserves_part000_try.
  - intros e. now apply preserves_modify.
Qed.

End RunFrame.

Lemma run_frame_refl (w : World) : run_frame w w.
Proof.
  unfold run_frame. repeat split; auto. exists []. now rewrite app_nil_r.
Qed.

Lemma run_frame_trans (w1 w2 w3 : World) :
  run_frame w1 w2 -> run_frame w2 w3 -> run_frame w1 w3.
Proof.
  intros (Hn & Hp & Hs & Hr & Hf & l1 & Hl) (Hn' & Hp' & Hs' & Hr' & Hf' & l2 & Hl').
  unfold run_frame. repeat split; try congruence; auto.
  exists (l1 ++ l2). now rewrite Hl', Hl, app_assoc.
Qed.

(** However a run ends, it has not changed the gateway name, the root path
    or the switch of the configuration, has not replaced resources that were
    configured explicitly, has not touched the names, order and events of
    the functions, and has only added to the log. *)
Theorem importApiGateway_frame :
  forall (p : Provider) (w : World),
    run_frame w (snd (importApiGateway p w)).
Proof.
  intros p w. destruct (importApiGateway p w) as [c w'] eqn:E. simpl.
  revert w c w' E. change (preserves run_frame (importApiGateway p)).
  apply preserves_importApiGateway.
  - apply run_frame_refl.
  - apply run_frame_trans.
  - intros w l. unfold run_frame. simpl. repeat split; auto. now exists [l].
  - intros w f. unfold run_frame, function_shapes. simpl. repeat split; auto.
    exists []. now rewrite app_nil_r.
  - intros w rs Hnone. unfold run_frame. simpl. repeat split; auto.
    + intros rs' H. congruence.
    + exists []. now rewrite app_nil_r.
  - intros w ls. unfold run_frame, function_shapes. simpl. repeat split; auto.
    exists []. now rewrite app_nil_r.
  - intros w i resolved. unfold run_frame, function_shapes. simpl.
    repeat split; auto.
    + destruct (functions (service w)) as [fs|]; simpl; [|reflexivity].
      f_equal. apply map_update_at. now intros [k f].
    + exists []. now rewrite app_nil_r.
Qed.

(** The run of the earlier file never touches a layer list or a function;
    and when its [try] block does not run to its end, the whole model is as
    it was. *)
Theorem part000_leaves_the_layers_alone :
  forall (p : Provider) (w : World),
    provider_layers (service (snd (Part000.importApiGateway p w)))
      = provider_layers (service w)
    /\ functions (service (snd (Part000.importApiGateway p w)))
       = functions (service w)
    /\ match Part000.importApiGateway_try p w with
       | (Normal _, _) => True
       | (_, w') =>
           service w' = service w
           /\ service (snd (Part000.importApiGateway p w)) = service w
       end.
Proof.
  intros p w.
  assert (Hframe : preserves
            (fun w w' =>
               provider_layers (service w') = provider_layers (service w)
               /\ functions (service w') = functions (service w))
            (Part000.importApiGateway p)).
  { apply preserves_part000; simpl; auto.
    intros w1 w2 w3 [H1 H2] [H3 H4]. split; congruence. }
  destruct (Part000.importApiGateway p w) as [c w'] eqn:E.
  destruct (Hframe _ _ _ E) as [Hpl Hfs]. simpl.
  split; [exact Hpl|]. split; [exact Hfs|].
  assert (Habrupt : abrupt_preserves same_service (Part000.importApiGateway_try p)).
  { assert (Hab : forall msg,
              abrupt_preserves same_service
                (cli_log (R := unit) msg ;; return_ (A := unit) tt)).
    { intros msg. apply abrupt_of_preserves.
      apply preserves_bind; eauto with frames.
      - apply preserves_cli_log; eauto with frames. reflexivity.
      - intros. apply preserves_return; eauto with frames. }
    unfold Part000.importApiGateway_try.
    apply abrupt_bind; eauto with frames.
    { apply preserves_gets; eauto with frames. }
    intros name. apply abrupt_bind; eauto with frames.
    { apply preserves_findRestApiIdByName; eauto with frames. }
    intros [restApiId|]; [|apply Hab].
    destruct (negb (truthy restApiId)); [apply Hab|].
    apply abrupt_bind; eauto with frames.
    { apply preserves_getRestApiPathIds; eauto with frames. }
    intros pathIds. apply abrupt_bind; eauto with frames.
    { apply preserves_gets; eauto with frames. }
    intros path.
    destruct (obj_index pathIds path) as [rootResourceId|]; [|apply Hab].
    destruct (negb (truthy_found rootResourceId)); [apply Hab|].
    apply abrupt_bind; eauto with frames.
    { apply inferResources_same_service. }
    intros _. apply abrupt_bind; eauto with frames.
    { apply preserves_gets; eauto with frames. }
    intros rs. apply abrupt_bind; eauto with frames.
    { apply preserves_selectResources; eauto with frames. reflexivity. }
    intros res. apply abrupt_of_normal.
    intros w0. eexists. eexists. reflexivity. }
  unfold Part000.importApiGateway, call, try_catch in E.
  destruct (Part000.importApiGateway_try p w) as [[[]|[]|e] w1] eqn:Etry;
    [exact I| |].
  - injection E as _ <-.
    assert (H : same_service w w1) by (apply (Habrupt _ _ _ Etry); discriminate).
    now split.
  - injection E as _ <-.
    assert (H : same_service w w1) by (apply (Habrupt _ _ _ Etry); discriminate).
    now split.
Qed.

(** The two files agree once layer resolution is out of the way: the run of
    [lib/index.js] is layer resolution followed by the run of the earlier
    file, and on a model whose layer lists hold fully-qualified ARNs only
    (with a complete inventory and a provider-level list) both runs give the
    same completion and the same world. *)
Theorem importApiGateway_extends_part000 :
  forall (p : Provider) (w : World),
    (forall w1,
       resolveLayerArns (R := unit) p w = (Normal tt, w1) ->
       importApiGateway p w = Part000.importApiGateway p w1)
    /\ (forall response,
          all_qualified (service w) = true ->
          listLayers p 50 = inr response ->
          complete_inventory response = true ->
          provider_layers (service w) <> None ->
          importApiGateway p w = Part000.importApiGateway p w).
Proof.
  intros p w.
  assert (H : forall w1,
            resolveLayerArns (R := unit) p w = (Normal tt, w1) ->
            importApiGateway p w = Part000.importApiGateway p w1).
  { intros w1 Hres.
    unfold importApiGateway, Part000.importApiGateway, call, try_catch.
    rewrite importApiGateway_try_layers_first.
    now rewrite (bind_normal _ _ _ Hres). }
  split; [exact H|].
  intros response Hq Hresp Hwf Hsome. apply H.
  now apply (@resolveLayerArns_qualified_completes unit p w response).
Qed.

Lemma importApiGateway_extends_part000_witness :
  importApiGateway Scenario.aws Scenario.already_qualified
  = Part000.importApiGateway Scenario.aws Scenario.already_qualified.
Proof.
  apply (proj2 (importApiGateway_extends_part000 Scenario.aws
                  Scenario.already_qualified) (Some Scenario.inventory));
    [reflexivity | reflexivity | reflexivity | discriminate].
Defined.

(** ** Inference feeds selection *)

Lemma candidate_paths_keys (fs : option (obj FunctionDescriptor))
    (pathIds : obj string) (r : string) :
  In r (candidate_paths fs pathIds) -> In r (obj_keys pathIds).
Proof.
  unfold candidate_paths. intros H. apply in_flat_map in H.
  destruct H as (eventPath & _ & H). apply filter_In in H. tauto.
Qed.

(** With [config.resources] left out, inference never comes up with a path
    that is not in the index; so on an index without empty ids the selection
    that follows succeeds, whatever the functions are, and pairs every
    inferred path with its id in the index.  (A key [__proto__] of the
    index, which [getRestApiPathIds] never creates, would be selected
    without leaving an entry.) *)
Theorem inferred_resources_are_selectable :
  forall (restApiId : string) (pathIds : obj string) (w : World),
    config_resources (config w) = None ->
    (forall k id, obj_get pathIds k = Some id -> id <> "") ->
    exists w2 rs res,
      inferResources (R := unit) pathIds w = (Normal tt, w2)
      /\ config_resources (config w2) = Some rs
      /\ (forall r, In r rs -> In r (obj_keys pathIds))
      /\ selectResources restApiId pathIds (Some rs) w2 = (Normal res, w2)
      /\ (forall r, In r rs -> r <> "__proto__" ->
            obj_get res r = option_map Id (obj_get pathIds r))
      /\ (obj_get pathIds "__proto__" = None ->
          forall r, In r rs -> obj_get res r = option_map Id (obj_get pathIds r)).
Proof.
  intros restApiId pathIds w Hunset Hids.
  rewrite inferResources_run, Hunset.
  set (rs := match candidate_paths (functions (service w)) pathIds with
             | [] => obj_keys pathIds
             | candidates => candidates
             end).
  assert (Hkeys : forall r, In r rs -> In r (obj_keys pathIds)).
  { intros r Hr. unfold rs in Hr.
    destruct (candidate_paths (functions (service w)) pathIds) as [|c cs] eqn:E;
      [exact Hr|].
    rewrite <- E in Hr. now apply candidate_paths_keys in Hr. }
  assert (Hall : Forall (fun r => has_id pathIds r = true) rs).
  { apply Forall_forall. intros r Hr. apply has_id_key; auto. }
  assert (Hpair : forall r, In r rs -> r <> "__proto__" ->
            obj_get (imported pathIds rs []) r = option_map Id (obj_get pathIds r)).
  { intros r Hr Hproto.
    destruct (imported_get pathIds Hall [] eq_refl) as [_ Hget].
    rewrite (proj1 (Hget r) Hr Hproto).
    destruct (obj_keys_get _ _ (Hkeys r Hr)) as (id & Hid).
    now rewrite (obj_index_own _ _ Hid), Hid. }
  exists (set_config (with_resources (Some rs)) w), rs, (imported pathIds rs []).
  split; [reflexivity|]. split; [reflexivity|]. split; [exact Hkeys|].
  rewrite selectResources_run.
  apply find_none_forall in Hall. rewrite Hall. split; [reflexivity|].
  split; [exact Hpair|].
  intros Hnone r Hr. apply Hpair; [exact Hr|].
  intros ->. apply (obj_get_none_keys _ _ Hnone). now apply Hkeys.
Qed.

Lemma inferred_resources_are_selectable_witness :
  exists w2 rs res,
    inferResources (R := unit) [("/", "abc123"); ("/users", "u1")] Scenario.scenario_c
      = (Normal tt, w2)
    /\ config_resources (config w2) = Some rs
    /\ (forall r, In r rs -> In r (obj_keys [("/", "abc123"); ("/users", "u1")]))
    /\ selectResources "r1" [("/", "abc123"); ("/users", "u1")] (Some rs) w2
       = (Normal res, w2)
    /\ (forall r, In r rs -> r <> "__proto__" ->
          obj_get res r
          = option_map Id (obj_get [("/", "abc123"); ("/users", "u1")] r))
    /\ (obj_get [("/", "abc123"); ("/users", "u1")] "__proto__" = None ->
        forall r, In r rs ->
          obj_get res r
          = option_map Id (obj_get [("/", "abc123"); ("/users", "u1")] r)).
Proof.
  apply (@inferred_resources_are_selectable "r1" [("/", "abc123"); ("/users", "u1")]
           Scenario.scenario_c eq_refl).
  intros k id H. simpl in H.
  destruct (String.eqb k "/"); [injection H as <-; discriminate|].
  destruct (String.eqb k "/users"); [injection H as <-; discriminate|].
  discriminate H.
Defined.

(** ** Running the hook again *)

Lemma obj_set_present (V : Type) (o : obj V) (k : string) (v : V) :
  obj_get o k = Some v -> obj_set o k v = o.
Proof.
  induction o as [|[k' v'] o IH]; simpl; [discriminate|].
  destruct (String.eqb k k') eqn:E.
  - now intros [= ->].
  - intros H. now rewrite (IH H).
Qed.

Lemma commit_again (restApiId : string) (rootResourceId : found)
    (resourcesToImport : obj found) (ag : obj ag_value) :
  commit restApiId rootResourceId resourcesToImport
    (commit restApiId rootResourceId resourcesToImport ag)
  = commit restApiId rootResourceId resourcesToImport ag.
Proof.
  destruct (commit_get restApiId rootResourceId resourcesToImport ag)
    as (H1 & H2 & H3 & _).
  unfold commit at 1.
  rewrite (obj_set_present _ _ H1), (obj_set_present _ _ H2).
  now rewrite (obj_set_present _ _ H3).
Qed.

(** Running the hook a second time changes nothing but the log.  On a model
    whose layer lists are fully qualified, with a complete inventory, a run
    that has committed can be followed by a second run against the same
    provider: it commits again, and leaves the model and the configuration
    exactly as the first run left them. *)
Theorem importApiGateway_twice :
  forall (p : Provider) (w w' : World) (response : option (list Layer)),
    listLayers p 50 = inr response ->
    complete_inventory response = true ->
    all_qualified (service w) = true ->
    importApiGateway_try p w = (Normal tt, w') ->
    exists w'',
      importApiGateway_try p w' = (Normal tt, w'')
      /\ service w'' = service w'
      /\ config w'' = config w'.
Proof.
  intros p w w' response Hresp Hwf Hq Htry.
  destruct (importApiGateway_try_committed p w Htry)
    as (w1 & w2 & restApiId & pathIds & rootResourceId & selected
        & Hresolve & Hfind & Hid & Hpaths & Hroot & Hrootid & Hinfer & Hsel
        & Hids & ->).
  pose proof (resolveLayerArns_qualified unit p w Hq) as Hw1.
  rewrite Hresolve in Hw1. simpl in Hw1. subst w1.
  assert (Hsome : provider_layers (service w) <> None).
  { intros Hnone.
    destruct (@resolveLayerArns_without_provider_layers unit p w Hnone)
      as (e & He & _).
    rewrite He in Hresolve. discriminate Hresolve. }
  pose proof (@inferResources_same_service unit pathIds _ _ _ Hinfer) as Hsvc2.
  unfold same_service in Hsvc2.
  assert (Hcfg2 : config_name (config w2) = config_name (config w)
                  /\ config_path (config w2) = config_path (config w)).
  { rewrite inferResources_run in Hinfer. injection Hinfer as <-.
    destruct (config_resources (config w)); split; reflexivity. }
  destruct Hcfg2 as [Hname2 Hpath2].
  set (ag' := commit restApiId rootResourceId (imported pathIds selected [])
                (provider_apiGateway (service w2))) in *.
  set (wc := add_log (CliLogImported ag')
               (set_service (with_apiGateway ag') w2)).
  assert (Hqc : all_qualified (service wc) = true).
  { unfold wc, all_qualified. simpl. rewrite Hsvc2. exact Hq. }
  assert (Hsomec : provider_layers (service wc) <> None).
  { unfold wc. simpl. now rewrite Hsvc2. }
  assert (Hfindc : findRestApiIdByName (R := unit) p (config_name (config wc)) wc
                   = (Normal (Some restApiId), wc)).
  { unfold wc at 1. cbn [config add_log set_service]. rewrite Hname2.
    rewrite findRestApiIdByName_run in Hfind |- *.
    destruct (getRestApis p 500); [discriminate Hfind|].
    injection Hfind as ->. reflexivity. }
  assert (Hpathsc : getRestApiPathIds (R := unit) p restApiId wc
                    = (Normal pathIds, wc)).
  { rewrite getRestApiPathIds_run in Hpaths |- *.
    destruct (getResources p 500 restApiId); [discriminate Hpaths|].
    injection Hpaths as ->. reflexivity. }
  assert (Hselc : config_resources (config wc) = Some selected) by exact Hsel.
  assert (Hpathc : config_path (config wc) = config_path (config w)) by exact Hpath2.
  eexists. split; [|split].
  - rewrite importApiGateway_try_layers_first.
    rewrite (bind_normal _ _ _
      (@resolveLayerArns_qualified_completes unit p wc response Hqc Hresp Hwf Hsomec)).
    unfold Part000.importApiGateway_try.
    rewrite bind_gets, (bind_normal _ _ _ Hfindc), Hid. cbn [negb].
    rewrite (bind_normal _ _ _ Hpathsc), bind_gets, Hpathc, Hroot, Hrootid.
    cbn [negb].
    rewrite (bind_normal _ _ _ (inferResources_run unit pathIds wc)), Hselc.
    rewrite bind_gets, Hselc.
    assert (Hrun : selectResources restApiId pathIds (Some selected) wc
                   = (Normal (imported pathIds selected []), wc)).
    { rewrite selectResources_run.
      apply find_none_forall in Hids. now rewrite Hids. }
    rewrite (bind_normal _ _ _ Hrun), bind_modify, bind_gets.
    reflexivity.
  - unfold wc, ag'.
    cbn [service set_service add_log provider_apiGateway with_apiGateway].
    now rewrite commit_again.
  - reflexivity.
Qed.

Lemma importApiGateway_twice_witness :
  exists w'',
    importApiGateway_try Scenario.aws
      (snd (importApiGateway_try Scenario.aws Scenario.already_qualified))
    = (Normal tt, w'')
    /\ service w''
       = service (snd (importApiGateway_try Scenario.aws Scenario.already_qualified))
    /\ config w''
       = config (snd (importApiGateway_try Scenario.aws Scenario.already_qualified)).
Proof.
  apply (@importApiGateway_twice Scenario.aws Scenario.already_qualified
           (snd (importApiGateway_try Scenario.aws Scenario.already_qualified))
           (Some Scenario.inventory));
    reflexivity.
Defined.

(** ** What a run commits *)





(** Which paths inference picks.  With [config.resources] left out, every
    path of the index that is a prefix of some HTTP event path is among the
    inferred resources (so the root [/] is, as soon as it is listed and one
    event path starts with a slash); and when there is such a path at all,
    nothing else is. *)
Theorem inferred_resources_membership :
  forall (pathIds : obj string) (w : World),
    config_resources (config w) = None ->
    exists rs,
      inferResources (R := unit) pathIds w
        = (Normal tt, set_config (with_resources (Some rs)) w)
      /\ (forall k eventPath,
            In k (obj_keys pathIds) ->
            In eventPath (http_paths (functions (service w))) ->
            String.prefix k eventPath = true ->
            In k rs)
      /\ (forall k eventPath,
            In k (obj_keys pathIds) ->
            In eventPath (http_paths (functions (service w))) ->
            String.prefix k eventPath = true ->
            forall r, In r rs ->
              In r (obj_keys pathIds)
              /\ exists e, In e (http_paths (functions (service w)))
                           /\ String.prefix r e = true).
Proof.
  intros pathIds w Hunset. rewrite inferResources_run, Hunset.
  eexists. split; [reflexivity|].
  assert (Hcand : forall k e,
            In k (obj_keys pathIds) ->
            In e (http_paths (functions (service w))) ->
            String.prefix k e = true ->
            In k (candidate_paths (functions (service w)) pathIds)).
  { intros k e Hk He Hp. unfold candidate_paths. apply in_flat_map.
    exists e. split; [exact He|]. apply filter_In. now split. }
  split.
  - intros k e Hk He Hp. specialize (Hcand k e Hk He Hp).
    destruct (candidate_paths (functions (service w)) pathIds); [destruct Hcand|].
    exact Hcand.
  - intros k e Hk He Hp r Hr. specialize (Hcand k e Hk He Hp).
    destruct (candidate_paths (functions (service w)) pathIds) as [|c cs] eqn:E;
      [destruct Hcand|].
    rewrite <- E in Hr. unfold candidate_paths in Hr.
    apply in_flat_map in Hr. destruct Hr as (e' & He' & Hr).
    apply filter_In in Hr. destruct Hr as [Hrk Hrp]. eauto.
Qed.

Lemma inferred_resources_membership_witness :
  exists rs,
    inferResources (R := unit) [("/", "abc123"); ("/users", "u1")] Scenario.scenario_c
      = (Normal tt, set_config (with_resources (Some rs)) Scenario.scenario_c)
    /\ In "/" rs.
Proof.
  destruct (@inferred_resources_membership [("/", "abc123"); ("/users", "u1")]
              Scenario.scenario_c eq_refl) as (rs & Hrun & Hin & _).
  exists rs. split; [exact Hrun|].
  apply (Hin "/" "/users/{id}"); simpl; auto.
Defined.

(** ** Every run says how it ended *)

Section NeverReturns.

Context {R : Type}.

Lemma never_returns_ret {A : Type} (a : A) : never_returns (ret (R := R) a).
Proof. intros w r w'. discriminate. Qed.

Lemma never_returns_throw {A : Type} (e : error) :
  never_returns (throw (R := R) (A := A) e).
Proof. intros w r w'. discriminate. Qed.

Lemma never_returns_gets {A : Type} (f : World -> A) :
  never_returns (gets (R := R) f).
Proof. intros w r w'. discriminate. Qed.

Lemma never_returns_modify (f : World -> World) :
  never_returns (modify (R := R) f).
Proof. intros w r w'. discriminate. Qed.

Lemma never_returns_bind {A B : Type} (m : M R A) (k : A -> M R B) :
  never_returns m -> (forall a, never_returns (k a)) -> never_returns (bind m k).
Proof.
  intros Hm Hk w r w' H. unfold bind in H.
  destruct (m w) as [[a|r0|e] w1] eqn:E.
  - now apply (Hk a w1 r w').
  - now apply (Hm w r0 w1).
  - discriminate H.
Qed.

Lemma never_returns_for_of {A S : Type} (xs : list A) (body : A -> S -> M R S) :
  (forall x s, never_returns (body x s)) ->
  forall s, never_returns (for_of xs body s).
Proof.
  intros Hbody. induction xs as [|x xs IH]; intros s; simpl.
  - apply never_returns_ret.
  - apply never_returns_bind; [apply Hbody | intros s'; apply IH].
Qed.

Lemma never_returns_try_catch {A : Type} (body : M R A) (handler : error -> M R A) :
  never_returns body -> (forall e, never_returns (handler e)) ->
  never_returns (try_catch body handler).
Proof.
  intros Hb Hh w r w' H. unfold try_catch in H.
  destruct (body w) as [[a|r0|e] w1] eqn:E.
  - discriminate H.
  - now apply (Hb w r0 w1).
  - now apply (Hh e w1 r w').
Qed.

Lemma never_returns_resolve (ls : option (list value)) (existing : obj string) :
  never_returns (_resolveLayerArns (R := R) ls existing).
Proof.
  unfold _resolveLayerArns.
  apply never_returns_bind.
  { destruct ls; [apply never_returns_ret | apply never_returns_throw]. }
  intros l. apply never_returns_bind.
  - apply never_returns_for_of. intros layer [resolvedAny resolvedLayers].
    apply never_returns_bind.
    + destruct layer; [apply never_returns_ret | apply never_returns_throw | apply never_returns_throw].
    + intros [|]; [apply never_returns_ret|].
      apply never_returns_try_catch.
      * apply never_returns_bind; [apply never_returns_ret|].
        intros. apply never_returns_ret.
      * intros e. apply never_returns_bind; [apply never_returns_modify|].
        intros. apply never_returns_ret.
  - intros [resolvedAny resolvedLayers]. apply never_returns_bind.
    + destruct resolvedAny; [apply never_returns_modify | apply never_returns_ret].
    + intros. apply never_returns_ret.
Qed.

Lemma never_returns_resolveLayerArns (p : Provider) :
  never_returns (resolveLayerArns (R := R) p).
Proof.
  unfold resolveLayerArns.
  apply never_returns_bind.
  { destruct (listLayers p 50); [apply never_returns_throw | apply never_returns_ret]. }
  intros response. apply never_returns_bind.
  { apply never_returns_for_of. intros layer existing.
    apply never_returns_bind.
    - unfold latest_arn. destruct (LatestMatchingVersion layer);
        [apply never_returns_ret | apply never_returns_throw].
    - intros. apply never_returns_ret. }
  intros existing.
  apply never_returns_bind; [apply never_returns_gets|]. intros pl.
  apply never_returns_bind; [apply never_returns_resolve|]. intros resolved.
  apply never_returns_bind; [apply never_returns_modify|]. intros _.
  apply never_returns_bind; [apply never_returns_gets|].
  intros [fs|]; [|apply never_returns_ret].
  apply never_returns_bind; [|intros; apply never_returns_ret].
  apply never_returns_for_of. intros [fname func] i.
  destruct (layers func) as [ls|]; [|apply never_returns_ret].
  apply never_returns_bind; [apply never_returns_resolve|]. intros resolved'.
  apply never_returns_bind; [apply never_returns_modify|].
  intros. apply never_returns_ret.
Qed.

End NeverReturns.

(** A [try] block that ends by [return] has just logged one of the
    [Unable to find ...] diagnostics. *)
Lemma importApiGateway_try_returned (p : Provider) (w w' : World) :
  importApiGateway_try p w = (Return tt, w') ->
  exists w0 what, w' = add_log (CliLog ("Unable to find " ++ what)) w0.
Proof.
  intros H. rewrite importApiGateway_try_layers_first in H.
  unfold bind at 1 in H.
  destruct (resolveLayerArns (R := unit) p w) as [[[]|r|e] w1] eqn:E;
    [|now apply never_returns_resolveLayerArns in E|discriminate H].
  unfold Part000.importApiGateway_try in H. rewrite bind_gets in H.
  unfold bind at 1 in H. rewrite findRestApiIdByName_run in H.
  destruct (getRestApis p 500) as [e|items]; [discriminate H|].
  destruct (option_map restApi_id _) as [restApiId|];
    [|injection H as <-; eexists; eexists; reflexivity].
  destruct (negb (truthy restApiId));
    [injection H as <-; eexists; eexists; reflexivity|].
  unfold bind at 1 in H. rewrite getRestApiPathIds_run in H.
  destruct (getResources p 500 restApiId) as [e|resources]; [discriminate H|].
  rewrite bind_gets in H.
  destruct (obj_index _ (config_path (config w1))) as [rootResourceId|];
    [|injection H as <-; eexists; eexists; reflexivity].
  destruct (negb (truthy_found rootResourceId));
    [injection H as <-; eexists; eexists; reflexivity|].
  rewrite (bind_normal _ _ _ (inferResources_run unit _ w1)), bind_gets in H.
  unfold bind at 1 in H.
  match type of H with
  | context [selectResources _ _ ?configured _] =>
      destruct configured as [selected|];
      [rewrite selectResources_run in H
      | unfold selectResources, iterable, bind, throw in H; discriminate H]
  end.
  match type of H with
  | context [find ?f ?l] => destruct (find f l) as [bad|]
  end.
  - injection H as <-. eexists. eexists. reflexivity.
  - discriminate H.
Qed.

(** No run ends silently: the last line of the log is the
    [Imported API Gateway] line with the committed section when the [try]
    block ran to its end, one of the [Unable to find ...] diagnostics when
    it ended by [return], and, when it threw, the [console.error] line:
    a line break, the banner, a line break and the message of the error. *)
Theorem every_run_says_how_it_ended :
  forall (p : Provider) (w : World),
  exists before last,
    log (snd (importApiGateway p w)) = before ++ [last]
    /\ match fst (importApiGateway_try p w) with
       | Normal _ =>
           last = CliLogImported
                    (provider_apiGateway (service (snd (importApiGateway p w))))
       | Return _ => exists what, last = CliLog ("Unable to find " ++ what)
       | Throw e =>
           last = ConsoleError
                    (String "010"
                       ("-------- Import API Gateway Error --------"
                          ++ String "010"
                               match e with
                               | TypeError msg | RequestError msg => msg
                               end))
       end.
Proof.
  intros p w. rewrite importApiGateway_of_try.
  destruct (importApiGateway_try p w) as [[[]|[]|e] w'] eqn:E; simpl.
  - destruct (importApiGateway_try_committed p w E)
      as (w1 & w2 & restApiId & pathIds & rootResourceId & selected
          & _ & _ & _ & _ & _ & _ & _ & _ & _ & ->).
    simpl. eexists. eexists. split; reflexivity.
  - destruct (importApiGateway_try_returned p w E) as (w0 & what & ->).
    simpl. eexists. eexists. split; [reflexivity|]. now exists what.
  - eexists. eexists. split; [reflexivity|]. now destruct e.
Qed.
